(** * MQTT Remote Desktop Controller: message validation and dispatch

    A shallow embedding of [mqttrdc/mqtt_controller.py],
    [mqttrdc/mqtt_controller_manager.py] and [mqttrdc/config.py].  The
    controller's methods are
    state-passing functions in a small state-and-exception monad; the
    Python libraries the controller calls (json, jsonschema, alsaaudio,
    pynput, paho-mqtt, logging) are modelled by their documented behaviour
    in modules of the same name. *)

From Stdlib Require Import ZArith String Ascii Strings.Byte List Bool Lia.
From Stdlib Require Import Floats.SpecFloat DecimalString DecimalPos.
From stdpp Require Import base option gmap strings.
Import ListNotations.

Local Open Scope string_scope.
Local Open Scope Z_scope.

(** ** Python values *)

(** The objects that [json.loads] produces, and that the configuration
    dictionary holds.  A [str] is kept as its UTF-8 encoding, a [float] as
    an IEEE 754 binary64 value, a [dict] as its items in insertion order. *)
#[local] Unset Elimination Schemes.
Inductive pyobj : Type :=
| PNone
| PBool (b : bool)
| PInt (z : Z)
| PFloat (f : spec_float)
| PStr (s : string)
| PList (l : list pyobj)
| PDict (d : list (string * pyobj)).
#[local] Set Elimination Schemes.

(** The exceptions that can reach the controller.  [UnicodeDecodeError] and
    [JSONDecodeError] are subclasses of [ValueError] in Python;
    [ValidationError] is jsonschema's and is not, and neither is
    [RecursionError], a [RuntimeError].  None of them derives from
    [BaseException] directly. *)
Inductive value_error : Type :=
| NotAValidCommand (payload : pyobj)
| BadConfiguration (key : string)
| InvalidLiteral (text : string)
| CannotConvertFloat
| InvalidPublish (topic : string).

Inductive schema_error : Type :=
| SchemaError (property : option string) (keyword : string).

Inductive exn : Type :=
| UnicodeDecodeError
| JSONDecodeError
| ValidationError (errors : list schema_error)
| ValueError (e : value_error)
| TypeError
| KeyError (key : string)
| AttributeError
| IndexError
| OverflowError
| ALSAAudioError
| RecursionError.

Definition isinstance_ValueError (e : exn) : bool :=
  match e with
  | ValueError _ | UnicodeDecodeError | JSONDecodeError => true
  | _ => false
  end.

(** ** Characters and text *)

Definition ord (c : ascii) : Z := Z.of_N (N_of_ascii c).
Definition chr (z : Z) : ascii := ascii_of_N (Z.to_N z).

Definition between (lo hi x : Z) : bool := (lo <=? x) && (x <=? hi).

Fixpoint codes (s : string) : list Z :=
  match s with
  | EmptyString => []
  | String c r => ord c :: codes r
  end.

Fixpoint text (l : list Z) : string :=
  match l with
  | [] => EmptyString
  | z :: r => String (chr z) (text r)
  end.

(** [utf8_decode strict bs] reads the code points of a UTF-8 byte sequence:
    shortest forms only, nothing above U+10FFFF, and when [strict] no
    surrogate (U+D800..U+DFFF).  The non-strict reading is only used on
    [str] values that came out of a JSON [\uXXXX] escape. *)
Fixpoint utf8_decode (strict : bool) (bs : list Z) : option (list Z) :=
  let cont b := between 128 191 b in
  match bs with
  | [] => Some []
  | b0 :: t0 =>
    if b0 <=? 127 then cons b0 <$> utf8_decode strict t0
    else
      match t0 with
      | [] => None
      | b1 :: t1 =>
        if between 194 223 b0 then
          if cont b1
          then cons ((b0 - 192) * 64 + (b1 - 128)) <$> utf8_decode strict t1
          else None
        else
          match t1 with
          | [] => None
          | b2 :: t2 =>
            if between 224 239 b0 then
              if cont b1 && cont b2
                 && (negb (b0 =? 224) || (160 <=? b1))
                 && (negb strict || negb (b0 =? 237) || (b1 <=? 159))
              then cons ((b0 - 224) * 4096 + (b1 - 128) * 64 + (b2 - 128))
                     <$> utf8_decode strict t2
              else None
            else
              match t2 with
              | [] => None
              | b3 :: t3 =>
                if between 240 244 b0 && cont b1 && cont b2 && cont b3
                   && (negb (b0 =? 240) || (144 <=? b1))
                   && (negb (b0 =? 244) || (b1 <=? 143))
                then cons ((b0 - 240) * 262144 + (b1 - 128) * 4096
                           + (b2 - 128) * 64 + (b3 - 128))
                       <$> utf8_decode strict t3
                else None
              end
          end
      end
  end.

Definition utf8_encode (u : Z) : list Z :=
  if u <=? 127 then [u]
  else if u <=? 2047 then [192 + u / 64; 128 + u mod 64]
  else if u <=? 65535 then
    [224 + u / 4096; 128 + (u / 64) mod 64; 128 + u mod 64]
  else [240 + u / 262144; 128 + (u / 4096) mod 64;
        128 + (u / 64) mod 64; 128 + u mod 64].

Definition byte_code (b : byte) : Z := Z.of_N (Byte.to_N b).

(** [bytes.decode("utf-8")] *)
Definition bytes_decode (payload : list byte) : exn + string :=
  let bs := map byte_code payload in
  match utf8_decode true bs with
  | Some _ => inr (text bs)
  | None => inl UnicodeDecodeError
  end.

(** [str.encode("utf-8")]; a [str] is already held as UTF-8. *)
Definition encode (s : string) : list byte := list_byte_of_string s.

(** Payloads are written down with single quotes standing for the double
    quotes of JSON: [json_text "{'volume': 50}"]. *)
Definition dquote : ascii := "034"%char.

Fixpoint json_text (s : string) : string :=
  match s with
  | EmptyString => EmptyString
  | String c r => String (if Ascii.eqb c "'" then dquote else c) (json_text r)
  end.

(** ** The interpreter *)

Module sys.

(** [sys.getrecursionlimit()].  The program never calls
    [setrecursionlimit], so this is the default of CPython. *)
Definition getrecursionlimit : nat := 1000.

End sys.

(** ** The [json] module of the standard library *)

Module json.

Definition is_digit (c : ascii) : bool := between 48 57 (ord c).

(** [WHITESPACE]: space, tab, line feed and carriage return. *)
Definition is_whitespace (c : ascii) : bool :=
  let n := ord c in (n =? 32) || (n =? 9) || (n =? 10) || (n =? 13).

Fixpoint skip_whitespace (s : string) : string :=
  match s with
  | String c r => if is_whitespace c then skip_whitespace r else s
  | EmptyString => s
  end.

Fixpoint span_digits (s : string) : list Z * string :=
  match s with
  | String c r =>
    if is_digit c
    then let '(ds, r') := span_digits r in (ord c - 48 :: ds, r')
    else ([], s)
  | EmptyString => ([], s)
  end.

Definition of_digits (ds : list Z) : Z :=
  fold_left (fun acc d => 10 * acc + d) ds 0.

(** [float(text)]: the binary64 value nearest to [m * 10^e10], ties to
    even.  Magnitudes far outside the binary64 range are cut off before
    the power of ten is computed. *)
Definition float_of_decimal (negative : bool) (m e10 : Z) : spec_float :=
  if m =? 0 then S754_zero negative
  else if 400 <? e10 then S754_infinity negative
  else if e10 + Z.log2 m / 3 + 2 <? -400 then S754_zero negative
  else if 0 <=? e10
  then binary_normalize 53 1024
         (if negative then - (m * 10 ^ e10) else m * 10 ^ e10) 0 negative
  else SFdiv 53 1024 (S754_finite negative (Z.to_pos m) 0)
                     (S754_finite false (Z.to_pos (10 ^ (- e10))) 0).

(** [NUMBER_RE]: an optional minus sign, then 0 or a digit string with no
    leading 0, then optionally a point with digits, then optionally an
    exponent; an [int] when there is neither fraction nor exponent, a
    [float] otherwise. *)
Definition match_number (s : string) : option (pyobj * string) :=
  let '(negative, s1) :=
    match s with
    | String c r => if Ascii.eqb c "-" then (true, r) else (false, s)
    | EmptyString => (false, s)
    end in
  let '(integer, s2) :=
    match s1 with
    | String c r => if Ascii.eqb c "0" then ([0], r) else span_digits s1
    | EmptyString => ([], s1)
    end in
  match integer with
  | [] => None
  | _ =>
    let '(frac, s3) :=
      match s2 with
      | String c r =>
        if Ascii.eqb c "."
        then match span_digits r with
             | ([], _) => (None, s2)
             | (ds, r') => (Some ds, r')
             end
        else (None, s2)
      | EmptyString => (None, s2)
      end in
    let '(exp, s4) :=
      match s3 with
      | String c r =>
        if Ascii.eqb c "e" || Ascii.eqb c "E"
        then
          let '(minus, r1) :=
            match r with
            | String c' r' =>
              if Ascii.eqb c' "-" then (true, r')
              else if Ascii.eqb c' "+" then (false, r')
              else (false, r)
            | EmptyString => (false, r)
            end in
          match span_digits r1 with
          | ([], _) => (None, s3)
          | (ds, r2) =>
            (Some (if minus then - of_digits ds else of_digits ds), r2)
          end
        else (None, s3)
      | EmptyString => (None, s3)
      end in
    match frac, exp with
    | None, None =>
      Some (PInt (if negative then - of_digits integer
                  else of_digits integer), s4)
    | _, _ =>
      let fd := default [] frac in
      Some (PFloat (float_of_decimal negative (of_digits (integer ++ fd)%list)
                      (default 0 exp - Z.of_nat (length fd))), s4)
    end
  end.

Definition hex_digit (c : ascii) : option Z :=
  let n := ord c in
  if between 48 57 n then Some (n - 48)
  else if between 97 102 n then Some (n - 87)
  else if between 65 70 n then Some (n - 55)
  else None.

Definition hex4 (a b c d : ascii) : option Z :=
  x1 ← hex_digit a; x2 ← hex_digit b; x3 ← hex_digit c; x4 ← hex_digit d;
  Some (((x1 * 16 + x2) * 16 + x3) * 16 + x4).

Definition BACKSLASH (c : ascii) : option Z :=
  let n := ord c in
  if n =? 34 then Some 34          (* the double quote *)
  else if n =? 92 then Some 92     (* the backslash *)
  else if n =? 47 then Some 47     (* / *)
  else if n =? 98 then Some 8      (* b *)
  else if n =? 102 then Some 12    (* f *)
  else if n =? 110 then Some 10    (* n *)
  else if n =? 114 then Some 13    (* r *)
  else if n =? 116 then Some 9     (* t *)
  else None.

Definition prepend (cs : list Z) (r : option (string * string))
  : option (string * string) :=
  '(str, rest) ← r; Some (text cs +:+ str, rest).

(** [scanstring(s, end, strict=True)], entered after the opening quote:
    the decoded [str] and what follows the closing quote. *)
Fixpoint scanstring (s : string) : option (string * string) :=
  match s with
  | EmptyString => None
  | String c r =>
    if ord c =? 34 then Some (EmptyString, r)
    else if ord c <? 32 then None
    else if ord c =? 92 then
      match r with
      | EmptyString => None
      | String e r1 =>
        if Ascii.eqb e "u" then
          match r1 with
          | String h1 (String h2 (String h3 (String h4 r5))) =>
            match hex4 h1 h2 h3 h4 with
            | None => None
            | Some uni =>
              let lone := prepend (utf8_encode uni) (scanstring r5) in
              if between 55296 56319 uni then
                match r5 with
                | String b (String u (String k1 (String k2
                    (String k3 (String k4 r11))))) =>
                  if (ord b =? 92) && Ascii.eqb u "u" then
                    match hex4 k1 k2 k3 k4 with
                    | Some uni2 =>
                      if between 56320 57343 uni2
                      then prepend
                             (utf8_encode (65536 + (uni - 55296) * 1024
                                           + (uni2 - 56320)))
                             (scanstring r11)
                      else lone
                    | None => lone
                    end
                  else lone
                | _ => lone
                end
              else lone
            end
          | _ => None
          end
        else
          match BACKSLASH e with
          | Some z => prepend [z] (scanstring r1)
          | None => None
          end
      end
    else prepend [ord c] (scanstring r)
  end.

Fixpoint strip_prefix (p s : string) : option string :=
  match p, s with
  | EmptyString, _ => Some s
  | String a p', String b s' =>
    if Ascii.eqb a b then strip_prefix p' s' else None
  | String _ _, EmptyString => None
  end.

(** [d[k] = v]: an existing key keeps its place. *)
Fixpoint setitem (d : list (string * pyobj)) (k : string) (v : pyobj)
  : list (string * pyobj) :=
  match d with
  | [] => [(k, v)]
  | (k', v') :: r =>
    if String.eqb k' k then (k, v) :: r else (k', v') :: setitem r k v
  end.

Definition literal (s : string) : option (pyobj * string) :=
  match strip_prefix "null" s with Some r => Some (PNone, r) | None =>
  match strip_prefix "true" s with Some r => Some (PBool true, r) | None =>
  match strip_prefix "false" s with Some r => Some (PBool false, r) | None =>
  match match_number s with Some res => Some res | None =>
  match strip_prefix "NaN" s with Some r => Some (PFloat S754_nan, r) | None =>
  match strip_prefix "Infinity" s with
  | Some r => Some (PFloat (S754_infinity false), r) | None =>
  match strip_prefix "-Infinity" s with
  | Some r => Some (PFloat (S754_infinity true), r) | None => None
  end end end end end end end.

(** [scan_once], [JSONObject] and [JSONArray]: recursive descent, as in
    [json.scanner] and [json.decoder].  The scanner of CPython enters a
    recursive call for every object and every array that it opens, before
    it reads anything of it, and raises [RecursionError] when the
    interpreter allows no more: [depth] is the number of such calls still
    allowed.  What else goes wrong is a [JSONDecodeError].  [fuel] bounds
    the number of nested calls of the model; [loads] gives as much as a
    text of that length can use (see [scan_fuel] at the end), so it is
    never what stops the descent. *)
Fixpoint scan_once (fuel depth : nat) (s : string) : exn + pyobj * string :=
  match fuel with
  | O => inl JSONDecodeError
  | S fuel =>
    match s with
    | EmptyString => inl JSONDecodeError
    | String c r =>
      if ord c =? 34 then
        match scanstring r with
        | Some (str, rest) => inr (PStr str, rest)
        | None => inl JSONDecodeError
        end
      else if Ascii.eqb c "{" then
        match depth with
        | O => inl RecursionError
        | S depth =>
          match skip_whitespace r with
          | String c' r' =>
            if Ascii.eqb c' "}" then inr (PDict [], r')
            else JSONObject fuel depth [] (String c' r')
          | EmptyString => inl JSONDecodeError
          end
        end
      else if Ascii.eqb c "[" then
        match depth with
        | O => inl RecursionError
        | S depth =>
          match skip_whitespace r with
          | String c' r' =>
            if Ascii.eqb c' "]" then inr (PList [], r')
            else JSONArray fuel depth [] (String c' r')
          | EmptyString => inl JSONDecodeError
          end
        end
      else
        match literal s with
        | Some res => inr res
        | None => inl JSONDecodeError
        end
    end
  end
with JSONObject (fuel depth : nat) (pairs : list (string * pyobj)) (s : string)
  : exn + pyobj * string :=
  match fuel with
  | O => inl JSONDecodeError
  | S fuel =>
    match s with
    | String q r =>
      if ord q =? 34 then
        match scanstring r with
        | Some (key, r1) =>
          match skip_whitespace r1 with
          | String colon r2 =>
            if Ascii.eqb colon ":" then
              match scan_once fuel depth (skip_whitespace r2) with
              | inr (value, r3) =>
                let pairs := setitem pairs key value in
                match skip_whitespace r3 with
                | String c r4 =>
                  if Ascii.eqb c "}" then inr (PDict pairs, r4)
                  else if Ascii.eqb c ","
                  then JSONObject fuel depth pairs (skip_whitespace r4)
                  else inl JSONDecodeError
                | EmptyString => inl JSONDecodeError
                end
              | inl e => inl e
              end
            else inl JSONDecodeError
          | EmptyString => inl JSONDecodeError
          end
        | None => inl JSONDecodeError
        end
      else inl JSONDecodeError
    | EmptyString => inl JSONDecodeError
    end
  end
with JSONArray (fuel depth : nat) (values : list pyobj) (s : string)
  : exn + pyobj * string :=
  match fuel with
  | O => inl JSONDecodeError
  | S fuel =>
    match scan_once fuel depth s with
    | inr (value, r1) =>
      let values := (values ++ [value])%list in
      match skip_whitespace r1 with
      | String c r2 =>
        if Ascii.eqb c "]" then inr (PList values, r2)
        else if Ascii.eqb c ","
        then JSONArray fuel depth values (skip_whitespace r2)
        else inl JSONDecodeError
      | EmptyString => inl JSONDecodeError
      end
    | inl e => inl e
    end
  end.

(** The objects and arrays that a text may nest before the scanner raises
    [RecursionError]: the recursion limit of the interpreter.  The calls
    that are on the stack when the scanner starts count against the limit
    as well; how many they are depends on who called, the model counts
    none of them, and nothing that is proved below depends on the figure
    beyond its being positive. *)
Definition nesting_limit : nat := sys.getrecursionlimit.

(** [json.loads(s)] on a [str]: leading and trailing whitespace is
    allowed, a byte order mark or anything else after the value is not. *)
Definition loads (s : string) : exn + pyobj :=
  match strip_prefix (text [239; 187; 191]) s with
  | Some _ => inl JSONDecodeError
  | None =>
    match scan_once (2 * String.length s + 2) nesting_limit
            (skip_whitespace s) with
    | inr (obj, rest) =>
      match skip_whitespace rest with
      | EmptyString => inr obj
      | String _ _ => inl JSONDecodeError
      end
    | inl e => inl e
    end
  end.

(** *** Serialisation *)

Definition int_repr (z : Z) : string := NilZero.string_of_int (Z.to_int z).

Definition hex_char (d : Z) : Z := if d <? 10 then 48 + d else 87 + d.

Definition u_escape (u : Z) : list Z :=
  [92; 117; hex_char (u / 4096); hex_char ((u / 256) mod 16);
   hex_char ((u / 16) mod 16); hex_char (u mod 16)].

(** [encode_basestring_ascii] without the surrounding quotes: what is not
    printable ASCII is escaped, astral characters as a surrogate pair. *)
Definition escape_ascii (u : Z) : list Z :=
  if u =? 34 then [92; 34]
  else if u =? 92 then [92; 92]
  else if u =? 10 then [92; 110]
  else if u =? 13 then [92; 114]
  else if u =? 9 then [92; 116]
  else if u =? 12 then [92; 102]
  else if u =? 8 then [92; 98]
  else if between 32 126 u then [u]
  else if u <? 65536 then u_escape u
  else (u_escape (55296 + (u - 65536) / 1024)
        ++ u_escape (56320 + (u - 65536) mod 1024))%list.

Definition encode_basestring_ascii (s : string) : string :=
  let points := default (codes s) (utf8_decode false (codes s)) in
  text ([34] ++ concat (map escape_ascii points) ++ [34])%list.

(** The position of the decimal point of [num / den]: the least [p] with
    [num / den < 10^p]. *)
Definition below_pow10 (num den p : Z) : bool :=
  if 0 <=? p then num <? den * 10 ^ p else num * 10 ^ (- p) <? den.

Fixpoint raise_decpt (n : nat) (num den p : Z) : Z :=
  match n with
  | O => p
  | S n => if below_pow10 num den p then p else raise_decpt n num den (p + 1)
  end.

Definition decpt (num den : Z) : Z :=
  raise_decpt 8 num den (((Z.log2 num - Z.log2 den) * 30103) / 100000 - 2).

(** The [n]-digit decimals on either side of [num / den], as integers
    scaled by [10^(p - n)]. *)
Definition floor_scaled (num den p n : Z) : Z :=
  if 0 <=? p - n then num / (den * 10 ^ (p - n))
  else (num * 10 ^ (n - p)) / den.

(** Is [lo] nearer to [num / den] than [lo + 1] is?  Half way between
    the two, the even one is taken. *)
Definition nearer_low (num den p n lo : Z) : bool :=
  let c := if 0 <=? p - n
           then 2 * num ?= (2 * lo + 1) * (den * 10 ^ (p - n))
           else 2 * num * 10 ^ (n - p) ?= (2 * lo + 1) * den in
  match c with
  | Lt => true
  | Eq => Z.even lo
  | Gt => false
  end.

Fixpoint strip_zeros (fuel : nat) (d : Z) (e : Z) : Z * Z :=
  match fuel with
  | O => (d, e)
  | S fuel =>
    if (d mod 10 =? 0) && negb (d =? 0)
    then strip_zeros fuel (d / 10) (e + 1) else (d, e)
  end.

(** The shortest decimal that reads back as [f], and among those the
    nearest to [f]: the digits of [float.__repr__]. *)
Fixpoint shortest (fuel : nat) (f : spec_float) (num den p n : Z) : Z * Z :=
  let lo := floor_scaled num den p n in
  let reads d := SFeqb (float_of_decimal false d (p - n)) f in
  match fuel with
  | O => (lo, p - n)
  | S fuel =>
    match reads lo, reads (lo + 1) with
    | true, true =>
      if nearer_low num den p n lo then (lo, p - n) else (lo + 1, p - n)
    | true, false => (lo, p - n)
    | false, true => (lo + 1, p - n)
    | false, false => shortest fuel f num den p (n + 1)
    end
  end.

Definition zeros (n : Z) : string := text (repeat 48 (Z.to_nat n)).

Definition two_digits (e : Z) : string :=
  if e <? 10 then "0" ++ int_repr e else int_repr e.

(** [float.__repr__] of a positive finite value [m * 2^e]. *)
Definition finite_repr (m : positive) (e : Z) : string :=
  let num := if 0 <=? e then Z.pos m * 2 ^ e else Z.pos m in
  let den := if 0 <=? e then 1 else 2 ^ (- e) in
  let p := decpt num den in
  let '(d, e10) :=
    let '(d, e10) := shortest 17 (S754_finite false m e) num den p 1 in
    strip_zeros 20 d e10 in
  let digits := int_repr d in
  let ndigits := Z.of_nat (String.length digits) in
  let point := ndigits + e10 in
  if (point <=? -4) || (16 <? point) then
    String.substring 0 1 digits
    ++ (if 1 <? ndigits
        then "." ++ String.substring 1 (String.length digits - 1) digits
        else "")
    ++ (if 0 <=? point - 1
        then "e+" ++ two_digits (point - 1)
        else "e-" ++ two_digits (1 - point))
  else if point <=? 0 then "0." ++ zeros (- point) ++ digits
  else if ndigits <=? point then digits ++ zeros (point - ndigits) ++ ".0"
  else String.substring 0 (Z.to_nat point) digits ++ "."
       ++ String.substring (Z.to_nat point)
            (String.length digits - Z.to_nat point) digits.

(** [float.__repr__], with the names the encoder uses for the values that
    are not numbers ([allow_nan] is left at its default). *)
Definition float_repr (f : spec_float) : string :=
  match f with
  | S754_nan => "NaN"
  | S754_infinity false => "Infinity"
  | S754_infinity true => "-Infinity"
  | S754_zero false => "0.0"
  | S754_zero true => "-0.0"
  | S754_finite false m e => finite_repr m e
  | S754_finite true m e => "-" ++ finite_repr m e
  end.

Fixpoint join (sep : string) (l : list string) : string :=
  match l with
  | [] => ""
  | [x] => x
  | x :: r => x ++ sep ++ join sep r
  end.

(** [json.dumps(obj)] with the default separators and [ensure_ascii]. *)
Fixpoint dumps (obj : pyobj) : string :=
  match obj with
  | PNone => "null"
  | PBool true => "true"
  | PBool false => "false"
  | PInt z => int_repr z
  | PFloat f => float_repr f
  | PStr s => encode_basestring_ascii s
  | PList l => "[" ++ join ", " (map dumps l) ++ "]"
  | PDict d =>
    "{" ++ join ", "
             (map (fun kv => encode_basestring_ascii (fst kv) ++ ": "
                             ++ dumps (snd kv)) d) ++ "}"
  end.

End json.

(** ** Built-in operations on Python values *)

Fixpoint lookup_item (k : string) (d : list (string * pyobj)) : option pyobj :=
  match d with
  | [] => None
  | (k', v) :: r => if String.eqb k' k then Some v else lookup_item k r
  end.

(** [obj == "literal"]: a [str] equals only an equal [str]. *)
Definition eq_str (obj : pyobj) (s : string) : bool :=
  match obj with
  | PStr t => String.eqb t s
  | _ => false
  end.

Fixpoint is_substring (needle s : string) : bool :=
  String.prefix needle s ||
  match s with
  | EmptyString => false
  | String _ r => is_substring needle r
  end.

(** ["key" in container]: key membership in a [dict], element equality in a
    [list], substring search in a [str]; the other values are not
    iterable. *)
Definition contains (needle : string) (container : pyobj) : exn + bool :=
  match container with
  | PDict d => inr (bool_decide (is_Some (lookup_item needle d)))
  | PList l => inr (existsb (fun x => eq_str x needle) l)
  | PStr s => inr (is_substring needle s)
  | PNone | PBool _ | PInt _ | PFloat _ => inl TypeError
  end.

(** [container["key"]] *)
Definition getitem (container : pyobj) (key : string) : exn + pyobj :=
  match container with
  | PDict d =>
    match lookup_item key d with
    | Some v => inr v
    | None => inl (KeyError key)
    end
  | _ => inl TypeError
  end.

(** A number as an exact dyadic fraction [num / 2^scale], or what a float
    is when it is no number. *)
Inductive exact : Type :=
| Dyadic (num : Z) (scale : Z)
| Infinite (negative : bool)
| NotANumber.

Definition exact_of_float (f : spec_float) : exact :=
  match f with
  | S754_zero _ => Dyadic 0 0
  | S754_infinity s => Infinite s
  | S754_nan => NotANumber
  | S754_finite s m e =>
    let n := if s then Z.neg m else Z.pos m in
    if 0 <=? e then Dyadic (n * 2 ^ e) 0 else Dyadic n (- e)
  end.

(** An [int] or a [float]; [bool] is a subclass of [int]. *)
Definition exact_of (obj : pyobj) : option exact :=
  match obj with
  | PBool b => Some (Dyadic (if b then 1 else 0) 0)
  | PInt z => Some (Dyadic z 0)
  | PFloat f => Some (exact_of_float f)
  | _ => None
  end.

Definition exact_compare (a b : exact) : option comparison :=
  match a, b with
  | NotANumber, _ | _, NotANumber => None
  | Infinite s, Infinite s' =>
    Some (if eqb s s' then Eq else if s then Lt else Gt)
  | Infinite s, Dyadic _ _ => Some (if s then Lt else Gt)
  | Dyadic _ _, Infinite s => Some (if s then Gt else Lt)
  | Dyadic n k, Dyadic n' k' => Some (n * 2 ^ k' ?= n' * 2 ^ k)
  end.

(** [float.is_integer()] *)
Definition is_integer (f : spec_float) : bool :=
  match exact_of_float f with
  | Dyadic n k => n mod 2 ^ k =? 0
  | _ => false
  end.

Definition is_space (c : ascii) : bool :=
  let n := ord c in (n =? 32) || between 9 13 n.

Fixpoint lstrip (s : string) : string :=
  match s with
  | String c r => if is_space c then lstrip r else s
  | EmptyString => s
  end.

(** The digits of an integer literal; single underscores may separate
    digits, and whitespace may follow the last one. *)
Fixpoint int_digits (acc : Z) (after_digit : bool) (s : string) : option Z :=
  match s with
  | EmptyString => if after_digit then Some acc else None
  | String c r =>
    if json.is_digit c then int_digits (10 * acc + (ord c - 48)) true r
    else if Ascii.eqb c "_" then
      match r with
      | String c' _ =>
        if after_digit && json.is_digit c' then int_digits acc false r
        else None
      | EmptyString => None
      end
    else if after_digit && is_space c then
      match lstrip r with EmptyString => Some acc | _ => None end
    else None
  end.

(** [int(obj)] *)
Definition int (obj : pyobj) : exn + Z :=
  match obj with
  | PInt z => inr z
  | PBool b => inr (if b then 1 else 0)
  | PFloat f =>
    match exact_of_float f with
    | Dyadic n k => inr (Z.quot n (2 ^ k))
    | Infinite _ => inl OverflowError
    | NotANumber => inl (ValueError CannotConvertFloat)
    end
  | PStr s =>
    let '(negative, digits) :=
      match lstrip s with
      | String c r =>
        if Ascii.eqb c "-" then (true, r)
        else if Ascii.eqb c "+" then (false, r)
        else (false, String c r)
      | EmptyString => (false, EmptyString)
      end in
    match int_digits 0 false digits with
    | Some n => inr (if negative then - n else n)
    | None => inl (ValueError (InvalidLiteral s))
    end
  | PNone | PList _ | PDict _ => inl TypeError
  end.

(** [bool(obj)]: the truth value of an object. *)
Definition truth (obj : pyobj) : bool :=
  match obj with
  | PNone => false
  | PBool b => b
  | PInt z => negb (z =? 0)
  | PFloat (S754_zero _) => false
  | PFloat _ => true
  | PStr s => negb (String.eqb s "")
  | PList l => match l with [] => false | _ => true end
  | PDict d => match d with [] => false | _ => true end
  end.

(** [str.isupper()] on the ASCII names that attributes have: there is an
    upper-case letter and no lower-case one. *)
Definition isupper (s : string) : bool :=
  existsb (between 65 90) (codes s) && negb (existsb (between 97 122) (codes s)).

(** ** The [jsonschema] library *)

Module jsonschema.

(** The type checker of the default (draft 7) validator: a [bool] is
    neither an integer nor a number, a [float] without fractional part
    is an integer. *)
Definition is_type (name : string) (instance : pyobj) : bool :=
  match instance with
  | PDict _ => String.eqb name "object"
  | PList _ => String.eqb name "array"
  | PStr _ => String.eqb name "string"
  | PBool _ => String.eqb name "boolean"
  | PNone => String.eqb name "null"
  | PInt _ => String.eqb name "integer" || String.eqb name "number"
  | PFloat f =>
    String.eqb name "number" || (String.eqb name "integer" && is_integer f)
  end.

(** Equality of instances as [enum] sees it: numbers by value, with [bool]
    kept apart from them. *)
Fixpoint equal (a b : pyobj) {struct a} : bool :=
  match a, b with
  | PNone, PNone => true
  | PBool x, PBool y => eqb x y
  | PStr x, PStr y => String.eqb x y
  | PList l, PList l' =>
    (fix all2 (l : list pyobj) (l' : list pyobj) : bool :=
       match l, l' with
       | [], [] => true
       | x :: r, y :: r' => equal x y && all2 r r'
       | _, _ => false
       end) l l'
  | PDict d, PDict d' =>
    (length d =? length d')%nat &&
    (fix all (d : list (string * pyobj)) : bool :=
       match d with
       | [] => true
       | (k, v) :: r =>
         match lookup_item k d' with
         | Some v' => equal v v'
         | None => false
         end && all r
       end) d
  | (PInt _ | PFloat _), (PInt _ | PFloat _) =>
    match exact_of a, exact_of b with
    | Some x, Some y => bool_decide (exact_compare x y = Some Eq)
    | _, _ => false
    end
  | _, _ => false
  end.

Definition is_number (instance : pyobj) : bool :=
  match instance with
  | PInt _ | PFloat _ => true
  | _ => false
  end.

Definition less (a b : pyobj) : bool :=
  match exact_of a, exact_of b with
  | Some x, Some y => bool_decide (exact_compare x y = Some Lt)
  | _, _ => false
  end.

(** One keyword of a schema against an instance, apart from [properties]
    which recurses. *)
Definition keyword (path : option string) (name : string) (arg instance : pyobj)
  : list schema_error :=
  let fails (b : bool) := if b then [SchemaError path name] else [] in
  if String.eqb name "type" then
    match arg with
    | PStr t => fails (negb (is_type t instance))
    | PList ts =>
      fails (negb (existsb (fun t => match t with
                                     | PStr t => is_type t instance
                                     | _ => false
                                     end) ts))
    | _ => []
    end
  else if String.eqb name "minimum" then
    fails (is_number instance && less instance arg)
  else if String.eqb name "maximum" then
    fails (is_number instance && less arg instance)
  else if String.eqb name "enum" then
    match arg with
    | PList enums => fails (negb (existsb (equal instance) enums))
    | _ => []
    end
  else [].

(** [validator.iter_errors(instance)]: the keywords of the schema in
    order; [properties] checks each listed property that the instance
    has, and applies to objects only. *)
Fixpoint iter_errors (path : option string) (schema instance : pyobj)
  {struct schema} : list schema_error :=
  match schema with
  | PDict keywords =>
    (fix each (kws : list (string * pyobj)) : list schema_error :=
       match kws with
       | [] => []
       | (name, arg) :: rest =>
         (if String.eqb name "properties" then
            match arg with
            | PDict properties =>
              match instance with
              | PDict items =>
                (fix props (ps : list (string * pyobj)) : list schema_error :=
                   match ps with
                   | [] => []
                   | (property, subschema) :: ps' =>
                     match lookup_item property items with
                     | Some value =>
                       iter_errors (Some property) subschema value
                     | None => []
                     end ++ props ps'
                   end) properties
              | _ => []
              end
            | _ => []
            end
          else keyword path name arg instance) ++ each rest
       end)%list keywords
  | PBool false => [SchemaError path "false"]
  | _ => []
  end.

(** [validate(instance, schema)] raises the most relevant of the errors
    when there is one. *)
Definition validate (instance schema : pyobj) : exn + unit :=
  match iter_errors None schema instance with
  | [] => inr tt
  | errors => inl (ValidationError errors)
  end.

End jsonschema.

(** ** The audio mixer, the keyboard, the broker connection and the log *)

Module alsaaudio.

(** A mixer with one playback channel: its volume in percent and its
    mute switch. *)
Record Mixer : Type := { playback_volume : Z; playback_switch : bool }.

Definition getvolume (m : Mixer) : list Z := [playback_volume m].

Definition getmute (m : Mixer) : list Z :=
  [if playback_switch m then 1 else 0].

(** [setvolume] takes a C integer and refuses what is not a percentage. *)
Definition setvolume (value : pyobj) (m : Mixer) : exn + Mixer :=
  let set v :=
    if between 0 100 v
    then inr {| playback_volume := v; playback_switch := playback_switch m |}
    else inl ALSAAudioError in
  match value with
  | PInt z => set z
  | PBool b => set (if b then 1 else 0)
  | _ => inl TypeError
  end.

Definition setmute (value : pyobj) (m : Mixer) : exn + Mixer :=
  let set b :=
    inr {| playback_volume := playback_volume m; playback_switch := b |} in
  match value with
  | PBool b => set b
  | PInt z => set (negb (z =? 0))
  | _ => inl TypeError
  end.

End alsaaudio.

Module pynput.

Inductive Key : Type := space.

Inductive event : Type :=
| Pressed (k : Key)
| Released (k : Key).

(** The keyboard controller, as the key events it has sent so far. *)
Record Controller : Type := { sent : list event }.

Definition press (k : Key) (c : Controller) : Controller :=
  {| sent := sent c ++ [Pressed k] |}.

Definition release (k : Key) (c : Controller) : Controller :=
  {| sent := sent c ++ [Released k] |}.

End pynput.

Module mqtt.

Definition MQTT_ERR_SUCCESS : Z := 0.

Record request : Type :=
  { topic : string; payload : string; qos : Z; retain : bool }.

(** What [publish] does with a request: it returns [(rc, mid)], or it
    raises [ValueError] for a topic, payload or qos it does not accept. *)
Inductive response : Type :=
| Info (rc mid : Z)
| Invalid.

(** The client, as the requests made of it so far and the way its
    connection answers a request. *)
Record Client : Type :=
  { requests : list request; answer : request → response }.

Definition publish (r : request) (c : Client) : (exn + Z * Z) * Client :=
  let c' := {| requests := requests c ++ [r]; answer := answer c |} in
  match answer c r with
  | Info rc mid => (inr (rc, mid), c')
  | Invalid => (inl (ValueError (InvalidPublish (topic r))), c')
  end.

Record MQTTMessage : Type := { msg_payload : list byte }.

End mqtt.

Module logging.

Inductive level : Type := INFO | WARNING | ERROR.

(** The messages of the controller, one for each place that logs. *)
Inductive message : Type :=
| ReceivedMessage (payload : pyobj)
| CannotDecode (payload : list byte) (e : exn)
| CannotDeserialize (payload : string)
| InvalidJSONSchema (e : exn)
| ErrorText (e : exn)
| UnexpectedError (e : exn)
| StatusAccepted (mid : Z)
| StatusRejected
| CannotSendStatus (e : exn).

Definition record : Type := level * message.

End logging.

(** ** [MQTTControllerManager], a [dict] of configuration values *)

Module MQTTControllerManager.

Definition status_topic (self : gmap string pyobj) : exn + string :=
  match self !! "MQTT_STATUS_TOPIC" with
  | None => inl (KeyError "MQTT_STATUS_TOPIC")
  | Some (PStr mqtt_status_topic) =>
    if negb (String.eqb mqtt_status_topic "")
    then inr mqtt_status_topic
    else inl (ValueError (BadConfiguration "MQTT_STATUS_TOPIC"))
  | Some _ => inl (ValueError (BadConfiguration "MQTT_STATUS_TOPIC"))
  end.

Definition control_topic (self : gmap string pyobj) : exn + string :=
  match self !! "MQTT_CONTROL_TOPIC" with
  | None => inl (KeyError "MQTT_CONTROL_TOPIC")
  | Some (PStr mqtt_control_topic) =>
    if negb (String.eqb mqtt_control_topic "")
    then inr mqtt_control_topic
    else inl (ValueError (BadConfiguration "MQTT_CONTROL_TOPIC"))
  | Some _ => inl (ValueError (BadConfiguration "MQTT_CONTROL_TOPIC"))
  end.

Definition volume_step (self : gmap string pyobj) : exn + Z :=
  match self !! "VOLUME_STEP" with
  | Some value =>
    match int value with
    | inr volume_step =>
      if between 1 100 volume_step
      then inr volume_step
      else inl (ValueError (BadConfiguration "VOLUME_STEP"))
    | inl e => inl e
    end
  | None => inr 10
  end.

Definition broker (self : gmap string pyobj) : exn + string :=
  match self !! "MQTT_BROKER_ADDR" with
  | None => inl (KeyError "MQTT_BROKER_ADDR")
  | Some (PStr mqtt_broker_addr) =>
    if negb (String.eqb mqtt_broker_addr "")
    then inr mqtt_broker_addr
    else inl (ValueError (BadConfiguration "MQTT_BROKER_ADDR"))
  | Some _ => inl (ValueError (BadConfiguration "MQTT_BROKER_ADDR"))
  end.

Definition port (self : gmap string pyobj) : exn + Z :=
  match self !! "MQTT_BROKER_PORT" with
  | None => inl (KeyError "MQTT_BROKER_PORT")
  | Some value => int value
  end.

Definition user (self : gmap string pyobj) : exn + option string :=
  match self !! "MQTT_BROKER_USER" with
  | Some (PStr mqtt_broker_user) => inr (Some mqtt_broker_user)
  | Some _ => inl (ValueError (BadConfiguration "MQTT_BROKER_USER"))
  | None => inr None
  end.

Definition password (self : gmap string pyobj) : exn + option string :=
  match self !! "MQTT_BROKER_PWD" with
  | Some (PStr mqtt_broker_pwd) => inr (Some mqtt_broker_pwd)
  | Some _ => inl (ValueError (BadConfiguration "MQTT_BROKER_PWD"))
  | None => inr None
  end.

Definition status_update_delay (self : gmap string pyobj) : exn + option Z :=
  match self !! "STATUS_UPDATE_DELAY" with
  | Some value =>
    match int value with
    | inr status_update_delay =>
      if 0 <=? status_update_delay
      then inr (Some status_update_delay)
      else inl (ValueError (BadConfiguration "STATUS_UPDATE_DELAY"))
    | inl e => inl e
    end
  | None => inr None
  end.

Definition debug (self : gmap string pyobj) : bool :=
  truth (default (PBool false) (self !! "DEBUG")).

(** [from_object]: [obj] is the object as the attributes that [dir] lists
    with the values that [getattr] gives; the loop assigns the upper-case
    ones to the dictionary. *)
Definition from_object (obj : gmap string pyobj) (self : gmap string pyobj)
  : gmap string pyobj :=
  map_fold (λ key value self, if isupper key then <[key := value]> self else self)
           self obj.

End MQTTControllerManager.

(** ** [config.py] *)

Module config.

(** [os.environ.get(name)] *)
Definition environ_get (environ : gmap string string) (name : string) : pyobj :=
  match environ !! name with
  | Some value => PStr value
  | None => PNone
  end.

(** The class [Config], as its attributes under an environment.  The
    attributes that every class inherits from [object] have names that are
    not upper case and values that are not configuration values; they are
    left out. *)
Definition Config (environ : gmap string string) : gmap string pyobj :=
  list_to_map
    [("MQTT_BROKER_ADDR", environ_get environ "MQTT_BROKER_ADDR");
     ("MQTT_BROKER_PORT", environ_get environ "MQTT_BROKER_PORT");
     ("MQTT_BROKER_USER", environ_get environ "MQTT_BROKER_USER");
     ("MQTT_BROKER_PWD", environ_get environ "MQTT_BROKER_PWD");
     ("MQTT_CONTROL_TOPIC", environ_get environ "MQTT_CONTROL_TOPIC");
     ("MQTT_STATUS_TOPIC", environ_get environ "MQTT_STATUS_TOPIC")].

End config.

(** ** State and exceptions *)

Record MQTTController : Type :=
  { audio_mixer : option alsaaudio.Mixer;
    keyboard : option pynput.Controller;
    mqttc : mqtt.Client;
    config : gmap string pyobj }.

(** The controller object together with the calls made to [logging]. *)
Record world : Type :=
  { self : MQTTController; log : list logging.record }.

Inductive outcome (A : Type) : Type :=
| Returned (a : A)
| Raised (e : exn).
Arguments Returned {A} a.
Arguments Raised {A} e.

Definition M (A : Type) : Type := world → outcome A * world.

#[export] Instance M_ret : MRet M := λ A a w, (Returned a, w).

#[export] Instance M_bind : MBind M := λ A B f c w,
  match c w with
  | (Returned a, w') => f a w'
  | (Raised e, w') => (Raised e, w')
  end.

Definition raise {A} (e : exn) : M A := λ w, (Raised e, w).

Definition lift {A} (r : exn + A) : M A :=
  match r with
  | inr a => mret a
  | inl e => raise e
  end.

(** [try: body except ...]: [handler e] is the first clause that matches
    [e], if there is one. *)
Definition try_except {A} (body : M A) (handler : exn → option (M A)) : M A :=
  λ w,
    match body w with
    | (Returned a, w') => (Returned a, w')
    | (Raised e, w') =>
      match handler e with
      | Some h => h w'
      | None => (Raised e, w')
      end
    end.

Definition logging_call (l : logging.level) (m : logging.message) : M unit :=
  λ w, (Returned tt, {| self := self w; log := log w ++ [(l, m)] |}).

Definition update_self (f : MQTTController → MQTTController) : M unit :=
  λ w, (Returned tt, {| self := f (self w); log := log w |}).

(** [self.audio_mixer], [self.keyboard] and [self.mqttc] in an attribute
    access or a method call: without audio device or display server the
    first two are [None], which has no attributes. *)
Definition get_audio_mixer : M alsaaudio.Mixer :=
  λ w, match audio_mixer (self w) with
       | Some m => (Returned m, w)
       | None => (Raised AttributeError, w)
       end.

Definition set_audio_mixer (m : alsaaudio.Mixer) : M unit :=
  update_self (λ c, {| audio_mixer := Some m; keyboard := keyboard c;
                       mqttc := mqttc c; config := config c |}).

Definition get_keyboard : M pynput.Controller :=
  λ w, match keyboard (self w) with
       | Some k => (Returned k, w)
       | None => (Raised AttributeError, w)
       end.

Definition set_keyboard (k : pynput.Controller) : M unit :=
  update_self (λ c, {| audio_mixer := audio_mixer c; keyboard := Some k;
                       mqttc := mqttc c; config := config c |}).

Definition get_config : M (gmap string pyobj) := λ w, (Returned (config (self w)), w).

Definition mqttc_publish (r : mqtt.request) : M (Z * Z) :=
  λ w, let '(res, client) := mqtt.publish r (mqttc (self w)) in
       let w' := {| self := {| audio_mixer := audio_mixer (self w);
                               keyboard := keyboard (self w);
                               mqttc := client;
                               config := config (self w) |};
                    log := log w |} in
       match res with
       | inr info => (Returned info, w')
       | inl e => (Raised e, w')
       end.

(** [list[0]] *)
Definition first {A} (l : list A) : M A :=
  match l with
  | x :: _ => mret x
  | [] => raise IndexError
  end.

(** The classes named in the [except] clauses of the controller, and
    [isinstance] for them. *)
Inductive exception_class : Type :=
| UnicodeDecodeError_class
| JSONDecodeError_class
| ValidationError_class
| ValueError_class
| Exception_class.

Definition isinstance (e : exn) (c : exception_class) : bool :=
  match c, e with
  | UnicodeDecodeError_class, UnicodeDecodeError => true
  | JSONDecodeError_class, JSONDecodeError => true
  | ValidationError_class, ValidationError _ => true
  | ValueError_class, _ => isinstance_ValueError e
  | Exception_class, _ => true
  | _, _ => false
  end.

(** The [except] clauses of a [try] statement, tried in order. *)
Fixpoint except {A} (clauses : list (exception_class * (exn → M A))) (e : exn)
  : option (M A) :=
  match clauses with
  | [] => None
  | (c, h) :: rest => if isinstance e c then Some (h e) else except rest e
  end.

(** ** [MQTTController] *)

Module MQTTController.

Definition volume_schema : pyobj :=
  PDict [("type", PStr "object");
         ("properties",
          PDict [("volume", PDict [("type", PStr "integer");
                                   ("minimum", PInt 0);
                                   ("maximum", PInt 100)])])].

Definition volume_ctrl_schema : pyobj :=
  PDict [("type", PStr "object");
         ("properties",
          PDict [("volumeCtrl", PDict [("type", PStr "string");
                                       ("enum", PList [PStr "+"; PStr "-"])])])].

Definition mute_schema : pyobj :=
  PDict [("type", PStr "object");
         ("properties", PDict [("mute", PDict [("type", PStr "boolean")])])].

Definition toggle_schema : pyobj :=
  PDict [("type", PStr "object");
         ("properties",
          PDict [("toggle", PDict [("type", PStr "string");
                                   ("enum", PList [PStr "mute"; PStr "pause"])])])].

(** The [volume] property. *)
Definition volume : M Z :=
  audio_mixer ← get_audio_mixer;
  first (alsaaudio.getvolume audio_mixer).

(** The [mute] property. *)
Definition mute : M bool :=
  audio_mixer ← get_audio_mixer;
  m ← first (alsaaudio.getmute audio_mixer);
  mret (negb (m =? 0)).

Definition status : M pyobj :=
  volume ← volume;
  mute ← mute;
  mret (PDict [("volume", PInt volume); ("mute", PBool mute)]).

Definition update_status : M unit :=
  try_except
    (config ← get_config;
     status_topic ← lift (MQTTControllerManager.status_topic config);
     status ← status;
     '(rc, mid) ← mqttc_publish
                    {| mqtt.topic := status_topic;
                       mqtt.payload := json.dumps status;
                       mqtt.qos := 0;
                       mqtt.retain := false |};
     if rc =? mqtt.MQTT_ERR_SUCCESS
     then logging_call logging.INFO (logging.StatusAccepted mid)
     else logging_call logging.WARNING logging.StatusRejected)
    (except
       [(ValueError_class,
         λ e, logging_call logging.WARNING (logging.CannotSendStatus e))]).

(** The setter of the [volume] property. *)
Definition volume_setter (value : pyobj) : M unit :=
  audio_mixer ← get_audio_mixer;
  audio_mixer ← lift (alsaaudio.setvolume value audio_mixer);
  set_audio_mixer audio_mixer;;
  update_status.

Definition volume_up : M unit :=
  volume ← volume;
  config ← get_config;
  volume_step ← lift (MQTTControllerManager.volume_step config);
  volume_setter (PInt (Z.min (volume + volume_step) 100)).

Definition volume_down : M unit :=
  volume ← volume;
  config ← get_config;
  volume_step ← lift (MQTTControllerManager.volume_step config);
  volume_setter (PInt (Z.max (volume - volume_step) 0)).

(** The setter of the [mute] property. *)
Definition mute_setter (value : pyobj) : M unit :=
  audio_mixer ← get_audio_mixer;
  audio_mixer ← lift (alsaaudio.setmute value audio_mixer);
  set_audio_mixer audio_mixer;;
  update_status.

Definition toggle_mute : M unit :=
  mute ← mute;
  mute_setter (PBool (negb mute)).

Definition toggle_pause : M unit :=
  keyboard ← get_keyboard;
  set_keyboard (pynput.press pynput.space keyboard);;
  keyboard ← get_keyboard;
  set_keyboard (pynput.release pynput.space keyboard).

Definition handle_message (msg : mqtt.MQTTMessage) : M unit :=
  decoded ← lift (bytes_decode (mqtt.msg_payload msg));
  payload ← lift (json.loads decoded);
  logging_call logging.INFO (logging.ReceivedMessage payload);;
  is_volume ← lift (contains "volume" payload);
  if is_volume : bool then
    lift (jsonschema.validate payload volume_schema);;
    value ← lift (getitem payload "volume");
    volume_setter value
  else
    is_volume_ctrl ← lift (contains "volumeCtrl" payload);
    if is_volume_ctrl : bool then
      lift (jsonschema.validate payload volume_ctrl_schema);;
      value ← lift (getitem payload "volumeCtrl");
      if eq_str value "+" then volume_up else volume_down
    else
      is_mute ← lift (contains "mute" payload);
      if is_mute : bool then
        lift (jsonschema.validate payload mute_schema);;
        value ← lift (getitem payload "mute");
        mute_setter value
      else
        is_toggle ← lift (contains "toggle" payload);
        if is_toggle : bool then
          lift (jsonschema.validate payload toggle_schema);;
          value ← lift (getitem payload "toggle");
          if eq_str value "mute" then toggle_mute else toggle_pause
        else
          raise (ValueError (NotAValidCommand payload)).

Definition on_message (msg : mqtt.MQTTMessage) : M unit :=
  try_except (handle_message msg)
    (except
       [(UnicodeDecodeError_class,
         λ e, logging_call logging.ERROR
                (logging.CannotDecode (mqtt.msg_payload msg) e));
        (JSONDecodeError_class,
         λ _, decoded ← lift (bytes_decode (mqtt.msg_payload msg));
              logging_call logging.ERROR (logging.CannotDeserialize decoded));
        (ValidationError_class,
         λ e, logging_call logging.ERROR (logging.InvalidJSONSchema e));
        (ValueError_class,
         λ e, logging_call logging.ERROR (logging.ErrorText e));
        (Exception_class,
         λ e, logging_call logging.ERROR (logging.UnexpectedError e))]).

End MQTTController.

(** * Properties *)

Local Open Scope list_scope.

(** ** The notions that the statements use *)

(** The world after [records] were logged. *)
Definition logged (w : world) (records : list logging.record) : world :=
  {| self := self w; log := log w ++ records |}.

(** The message whose payload is the UTF-8 encoding of a JSON text. *)
Definition message (text : string) : mqtt.MQTTMessage :=
  {| mqtt.msg_payload := encode (json_text text) |}.

(** An action is [uniform] when it reads the controller only and adds its
    records to whatever log it is given. *)
Definition uniform {A} (c : M A) : Prop :=
  ∀ s, ∃ r s' records, ∀ l,
    c {| self := s; log := l |} = (r, {| self := s'; log := l ++ records |}).

(** What [handle_message] makes of a payload before it looks for a command:
    the bytes decoded as UTF-8 and parsed as JSON. *)
Definition parsed (msg : mqtt.MQTTMessage) : exn + pyobj :=
  match bytes_decode (mqtt.msg_payload msg) with
  | inr decoded => json.loads decoded
  | inl e => inl e
  end.

(** The record that [handle_message] logs for a parsed payload. *)
Definition received (payload : pyobj) : logging.record :=
  (logging.INFO, logging.ReceivedMessage payload).

(** The keys that name a command, in the order in which the specification
    has them inspected, and the first of them that an object has. *)
Definition recognized : list string := ["volume"; "volumeCtrl"; "mute"; "toggle"].

Definition has_key (d : list (string * pyobj)) (k : string) : bool :=
  bool_decide (is_Some (lookup_item k d)).

Definition selected (d : list (string * pyobj)) : option string :=
  List.find (has_key d) recognized.

(** The rest of [handle_message], once the payload is parsed and logged. *)
Definition dispatch (payload : pyobj) : M unit :=
  is_volume ← lift (contains "volume" payload);
  if is_volume : bool then
    lift (jsonschema.validate payload MQTTController.volume_schema);;
    value ← lift (getitem payload "volume");
    MQTTController.volume_setter value
  else
    is_volume_ctrl ← lift (contains "volumeCtrl" payload);
    if is_volume_ctrl : bool then
      lift (jsonschema.validate payload MQTTController.volume_ctrl_schema);;
      value ← lift (getitem payload "volumeCtrl");
      if eq_str value "+"
      then MQTTController.volume_up else MQTTController.volume_down
    else
      is_mute ← lift (contains "mute" payload);
      if is_mute : bool then
        lift (jsonschema.validate payload MQTTController.mute_schema);;
        value ← lift (getitem payload "mute");
        MQTTController.mute_setter value
      else
        is_toggle ← lift (contains "toggle" payload);
        if is_toggle : bool then
          lift (jsonschema.validate payload MQTTController.toggle_schema);;
          value ← lift (getitem payload "toggle");
          if eq_str value "mute"
          then MQTTController.toggle_mute else MQTTController.toggle_pause
        else
          raise (ValueError (NotAValidCommand payload)).

(** The exceptions that stand for a failure to decode a command:
    [UnicodeDecodeError], [JSONDecodeError], [ValidationError] and
    [ValueError]. *)
Definition decode_error (e : exn) : bool :=
  isinstance e ValueError_class || isinstance e ValidationError_class.

(** [keeps_self c]: [c] neither touches the mixer, the keyboard, the client
    nor the configuration.  [raises_only P c]: every exception out of [c]
    satisfies [P].  [quiet c]: when [c] fails with a decode error, it has
    not touched the controller. *)
Definition keeps_self {A} (c : M A) : Prop :=
  ∀ w r w', c w = (r, w') → self w' = self w.

Definition raises_only {A} (P : exn → bool) (c : M A) : Prop :=
  ∀ w e w', c w = (Raised e, w') → P e = true.

Definition quiet {A} (c : M A) : Prop :=
  ∀ w e w', c w = (Raised e, w') → decode_error e = true → self w' = self w.

(** A controller to run examples on: a mixer, a keyboard, a client that
    accepts every request, and a status topic. *)
Definition accepting : mqtt.Client :=
  {| mqtt.requests := []; mqtt.answer := λ _, mqtt.Info mqtt.MQTT_ERR_SUCCESS 1 |}.

Definition example_controller (volume : Z) (muted : bool) : MQTTController :=
  {| audio_mixer := Some {| alsaaudio.playback_volume := volume;
                            alsaaudio.playback_switch := muted |};
     keyboard := Some {| pynput.sent := [] |};
     mqttc := accepting;
     config := {[ "MQTT_STATUS_TOPIC" := PStr "desktop/status" ]} |}.

Definition example_world (volume : Z) (muted : bool) : world :=
  {| self := example_controller volume muted; log := [] |}.

(** How [on_message] accounts for an exception of [handle_message]: the
    message of the one [ERROR] record it logs. *)
Inductive classified (msg : mqtt.MQTTMessage) : exn → logging.message → Prop :=
| classified_encoding :
    classified msg UnicodeDecodeError
      (logging.CannotDecode (mqtt.msg_payload msg) UnicodeDecodeError)
| classified_malformed decoded :
    bytes_decode (mqtt.msg_payload msg) = inr decoded →
    classified msg JSONDecodeError (logging.CannotDeserialize decoded)
| classified_invalid errors :
    classified msg (ValidationError errors)
      (logging.InvalidJSONSchema (ValidationError errors))
| classified_unrecognized e :
    classified msg (ValueError e) (logging.ErrorText (ValueError e))
| classified_unexpected e :
    decode_error e = false →
    classified msg e (logging.UnexpectedError e).





(** The status of a mixer, and the request that publishes it. *)
Definition snapshot (m : alsaaudio.Mixer) : pyobj :=
  PDict [("volume", PInt (alsaaudio.playback_volume m));
         ("mute", PBool (alsaaudio.playback_switch m))].

Definition status_request (status_topic : string) (m : alsaaudio.Mixer)
  : mqtt.request :=
  {| mqtt.topic := status_topic; mqtt.payload := json.dumps (snapshot m);
     mqtt.qos := 0; mqtt.retain := false |}.

(** The world after the client was asked to publish [r]. *)
Definition requested (w : world) (r : mqtt.request) : world :=
  {| self := {| audio_mixer := audio_mixer (self w);
                keyboard := keyboard (self w);
                mqttc := {| mqtt.requests := mqtt.requests (mqttc (self w)) ++ [r];
                            mqtt.answer := mqtt.answer (mqttc (self w)) |};
                config := config (self w) |};
     log := log w |}.

(** What [update_status] logs about the answer to its request. *)
Definition status_record (status_topic : string) (a : mqtt.response)
  : logging.record :=
  match a with
  | mqtt.Info rc mid =>
    if rc =? mqtt.MQTT_ERR_SUCCESS
    then (logging.INFO, logging.StatusAccepted mid)
    else (logging.WARNING, logging.StatusRejected)
  | mqtt.Invalid =>
    (logging.WARNING,
     logging.CannotSendStatus (ValueError (InvalidPublish status_topic)))
  end.

(** Does the JSON text of a status read back as the object it was written
    from? *)
Definition reads_back (v : Z) (b : bool) : bool :=
  match json.loads (json.dumps (PDict [("volume", PInt v); ("mute", PBool b)])) with
  | inr (PDict [(k1, PInt v'); (k2, PBool b')]) =>
    String.eqb k1 "volume" && (v' =? v) && String.eqb k2 "mute" && eqb b' b
  | _ => false
  end.

(** The world after the mixer was set to [m]. *)
Definition with_mixer (w : world) (m : alsaaudio.Mixer) : world :=
  {| self := {| audio_mixer := Some m;
                keyboard := keyboard (self w);
                mqttc := mqttc (self w);
                config := config (self w) |};
     log := log w |}.

(** The commands of the specification, the payload that carries each, and
    the method that [handle_message] calls for it. *)
Inductive direction : Type := Up | Down.

Inductive target : Type := Mute | Pause.

Inductive Command : Type :=
| SetVolume (value : Z)
| StepVolume (d : direction)
| SetMute (value : bool)
| Toggle (t : target).

Definition payload_of (c : Command) : pyobj :=
  match c with
  | SetVolume v => PDict [("volume", PInt v)]
  | StepVolume Up => PDict [("volumeCtrl", PStr "+")]
  | StepVolume Down => PDict [("volumeCtrl", PStr "-")]
  | SetMute b => PDict [("mute", PBool b)]
  | Toggle Mute => PDict [("toggle", PStr "mute")]
  | Toggle Pause => PDict [("toggle", PStr "pause")]
  end.

Definition execute (c : Command) : M unit :=
  match c with
  | SetVolume v => MQTTController.volume_setter (PInt v)
  | StepVolume Up => MQTTController.volume_up
  | StepVolume Down => MQTTController.volume_down
  | SetMute b => MQTTController.mute_setter (PBool b)
  | Toggle Mute => MQTTController.toggle_mute
  | Toggle Pause => MQTTController.toggle_pause
  end.

(** ** The notions of the further properties *)

(** The number that a string of decimal digits stands for, read from the
    left with [acc] the value of the digits read so far. *)
Fixpoint uint_value (acc : Z) (d : Decimal.uint) : Z :=
  match d with
  | Decimal.Nil => acc
  | Decimal.D0 d => uint_value (10 * acc + 0) d
  | Decimal.D1 d => uint_value (10 * acc + 1) d
  | Decimal.D2 d => uint_value (10 * acc + 2) d
  | Decimal.D3 d => uint_value (10 * acc + 3) d
  | Decimal.D4 d => uint_value (10 * acc + 4) d
  | Decimal.D5 d => uint_value (10 * acc + 5) d
  | Decimal.D6 d => uint_value (10 * acc + 6) d
  | Decimal.D7 d => uint_value (10 * acc + 7) d
  | Decimal.D8 d => uint_value (10 * acc + 8) d
  | Decimal.D9 d => uint_value (10 * acc + 9) d
  end.

(** A setting that must be there: [get] returns the string under [key]
    when it is a non-empty string, and raises [KeyError] when the key is
    absent and [ValueError] for any other value. *)
Definition required_string
  (get : gmap string pyobj → exn + string) (key : string) : Prop :=
  ∀ cfg : gmap string pyobj,
    (∀ s, get cfg = inr s ↔ cfg !! key = Some (PStr s) ∧ s ≠ "") ∧
    (∀ e, get cfg = inl e →
          if bool_decide (is_Some (cfg !! key))
          then e = ValueError (BadConfiguration key)
          else e = KeyError key).

(** A setting that may be left out: [get] returns [None] when [key] is
    absent and the string under it when it is a string, the empty one
    included, and raises [ValueError] for any other value. *)
Definition optional_string
  (get : gmap string pyobj → exn + option string) (key : string) : Prop :=
  ∀ cfg : gmap string pyobj,
    (get cfg = inr None ↔ cfg !! key = None) ∧
    (∀ s, get cfg = inr (Some s) ↔ cfg !! key = Some (PStr s)) ∧
    (∀ e, get cfg = inl e → e = ValueError (BadConfiguration key)).

(** [drc = MQTTController()] and [drc.config.from_object(Config)], as the
    main program does: the configuration of the controller under an
    environment. *)
Definition configured (environ : gmap string string) : gmap string pyobj :=
  MQTTControllerManager.from_object (config.Config environ) ∅.

(** What a message can do to the controller: nothing; or set the mixer,
    keeping either the mute switch or the volume, and ask for at most one
    publish, of the status of the mixer as set; or press and release the
    space bar. *)
Inductive effect (s s' : MQTTController) : Prop :=
| effect_nothing : s' = s → effect s s'
| effect_mixer m m' published :
    audio_mixer s = Some m →
    audio_mixer s' = Some m' →
    (alsaaudio.playback_switch m' = alsaaudio.playback_switch m ∧
     0 ≤ alsaaudio.playback_volume m' ≤ 100
     ∨ alsaaudio.playback_volume m' = alsaaudio.playback_volume m) →
    keyboard s' = keyboard s →
    config s' = config s →
    mqtt.answer (mqttc s') = mqtt.answer (mqttc s) →
    mqtt.requests (mqttc s') = mqtt.requests (mqttc s) ++ published →
    (published = [] ∨
     ∃ status_topic,
       MQTTControllerManager.status_topic (config s) = inr status_topic ∧
       published = [status_request status_topic m']) →
    effect s s'
| effect_keys k :
    keyboard s = Some k →
    s' = {| audio_mixer := audio_mixer s;
            keyboard := Some (pynput.release pynput.space
                                (pynput.press pynput.space k));
            mqttc := mqttc s;
            config := config s |} →
    effect s s'.

(** [effectful c]: whatever [c] does to the controller is one of these
    effects. *)
Definition effectful {A} (c : M A) : Prop :=
  ∀ w r w', c w = (r, w') → effect (self w) (self w').

(** The keyboard of [s'] has sent what the keyboard of [s] had, and then
    possibly more. *)
Definition keys_appended (s s' : MQTTController) : Prop :=
  match keyboard s, keyboard s' with
  | Some k, Some k' => ∃ new, pynput.sent k' = pynput.sent k ++ new
  | None, None => True
  | _, _ => False
  end.

(** A command that the schemas accept: the volume to set is a
    percentage. *)
Definition in_range (c : Command) : Prop :=
  match c with
  | SetVolume v => 0 ≤ v ≤ 100
  | _ => True
  end.

(** The device that a command works on is not there: the keyboard for
    pause, the mixer for the others. *)
Definition device_missing (c : Command) (s : MQTTController) : Prop :=
  match c with
  | Toggle Pause => keyboard s = None
  | _ => audio_mixer s = None
  end.

(** The mixer after a command, for a volume step [step]. *)
Definition applied (c : Command) (step : Z) (m : alsaaudio.Mixer)
  : alsaaudio.Mixer :=
  let v := alsaaudio.playback_volume m in
  let b := alsaaudio.playback_switch m in
  match c with
  | SetVolume v' =>
    {| alsaaudio.playback_volume := v'; alsaaudio.playback_switch := b |}
  | StepVolume Up =>
    {| alsaaudio.playback_volume := Z.min (v + step) 100;
       alsaaudio.playback_switch := b |}
  | StepVolume Down =>
    {| alsaaudio.playback_volume := Z.max (v - step) 0;
       alsaaudio.playback_switch := b |}
  | SetMute b' =>
    {| alsaaudio.playback_volume := v; alsaaudio.playback_switch := b' |}
  | Toggle Mute =>
    {| alsaaudio.playback_volume := v; alsaaudio.playback_switch := negb b |}
  | Toggle Pause => m
  end.

(** The world after the keyboard pressed and released the space bar. *)
Definition with_space_pressed (w : world) (k : pynput.Controller) : world :=
  {| self := {| audio_mixer := audio_mixer (self w);
                keyboard := Some {| pynput.sent :=
                                      pynput.sent k
                                      ++ [pynput.Pressed pynput.space;
                                          pynput.Released pynput.space] |};
                mqttc := mqttc (self w);
                config := config (self w) |};
     log := log w |}.

(** The JSON number [v] has the integer value [n]: an [int] that is [n],
    or a [float] whose value is [n]. *)
Definition denotes (v : pyobj) (n : Z) : Prop :=
  match v with
  | PInt z => z = n
  | PFloat f =>
    match exact_of_float f with
    | Dyadic num k => num = n * 2 ^ k
    | _ => False
    end
  | _ => False
  end.

(** A text of ASCII characters only. *)
Definition is_ascii (s : string) : bool := forallb (λ z, z <=? 127) (codes s).

(** The digits of a decimal numeral, as numbers. *)
Fixpoint uint_digits (d : Decimal.uint) : list Z :=
  match d with
  | Decimal.Nil => []
  | Decimal.D0 d => 0 :: uint_digits d
  | Decimal.D1 d => 1 :: uint_digits d
  | Decimal.D2 d => 2 :: uint_digits d
  | Decimal.D3 d => 3 :: uint_digits d
  | Decimal.D4 d => 4 :: uint_digits d
  | Decimal.D5 d => 5 :: uint_digits d
  | Decimal.D6 d => 6 :: uint_digits d
  | Decimal.D7 d => 7 :: uint_digits d
  | Decimal.D8 d => 8 :: uint_digits d
  | Decimal.D9 d => 9 :: uint_digits d
  end.

(** The messages of a list handed to [on_message] one after the other, as
    the network loop of the client does with the messages that arrive on
    the control topic. *)
Fixpoint deliver (msgs : list mqtt.MQTTMessage) : M unit :=
  match msgs with
  | [] => mret tt
  | msg :: rest => MQTTController.on_message msg;; deliver rest
  end.

(** ** Running actions *)

Lemma logged_nil w : logged w [] = w.
Proof. destruct w; unfold logged; simpl; by rewrite app_nil_r. Qed.

Lemma logged_logged w l l' : logged (logged w l) l' = logged w (l ++ l').
Proof. unfold logged; simpl; by rewrite app_assoc. Qed.

Lemma bind_returned {A B} (c : M A) (f : A → M B) w a w' :
  c w = (Returned a, w') → (c ≫= f) w = f a w'.
Proof. intros H; unfold mbind, M_bind; by rewrite H. Qed.

Lemma bind_raised {A B} (c : M A) (f : A → M B) w e w' :
  c w = (Raised e, w') → (c ≫= f) w = (Raised e, w').
Proof. intros H; unfold mbind, M_bind; by rewrite H. Qed.

Lemma bind_inv {A B} (c : M A) (f : A → M B) w r w' :
  (c ≫= f) w = (r, w') →
  (∃ a w1, c w = (Returned a, w1) ∧ f a w1 = (r, w')) ∨
  (∃ e, c w = (Raised e, w') ∧ r = Raised e).
Proof.
  unfold mbind, M_bind; destruct (c w) as [[a|e] w1]; intros H.
  - left; eauto.
  - right; exists e; by inversion H.
Qed.

Lemma lift_inv {A} (x : exn + A) w r w' :
  lift x w = (r, w') →
  w' = w ∧ match x with inr a => r = Returned a | inl e => r = Raised e end.
Proof. destruct x; unfold lift, mret, M_ret, raise; intros H; by inversion H. Qed.

(** ** Actions that do not look at the log *)

Create HintDb uniform.

Lemma uniform_ret {A} (a : A) : uniform (mret a).
Proof. intros s; exists (Returned a), s, []; intros l; by rewrite app_nil_r. Qed.

Lemma uniform_raise {A} e : uniform (@raise A e).
Proof. intros s; exists (Raised e), s, []; intros l; by rewrite app_nil_r. Qed.

Lemma uniform_lift {A} (x : exn + A) : uniform (lift x).
Proof. destruct x; [apply uniform_raise | apply uniform_ret]. Qed.

Lemma uniform_bind {A B} (c : M A) (f : A → M B) :
  uniform c → (∀ a, uniform (f a)) → uniform (c ≫= f).
Proof.
  intros Hc Hf s. destruct (Hc s) as (r & s1 & rec1 & H1).
  destruct r as [a|e].
  - destruct (Hf a s1) as (r2 & s2 & rec2 & H2).
    exists r2, s2, (rec1 ++ rec2); intros l.
    rewrite (bind_returned _ _ _ _ _ (H1 l)), H2; by rewrite app_assoc.
  - exists (Raised e), s1, rec1; intros l.
    by rewrite (bind_raised _ _ _ _ _ (H1 l)).
Qed.

Lemma uniform_try_except {A} (body : M A) handler :
  uniform body → (∀ e h, handler e = Some h → uniform h) →
  uniform (try_except body handler).
Proof.
  intros Hb Hh s. destruct (Hb s) as (r & s1 & rec1 & H1).
  destruct r as [a|e].
  - exists (Returned a), s1, rec1; intros l; unfold try_except; by rewrite H1.
  - destruct (handler e) as [h|] eqn:He.
    + destruct (Hh e h He s1) as (r2 & s2 & rec2 & H2).
      exists r2, s2, (rec1 ++ rec2); intros l.
      unfold try_except; rewrite H1, He, H2; by rewrite app_assoc.
    + exists (Raised e), s1, rec1; intros l.
      unfold try_except; by rewrite H1, He.
Qed.

Lemma uniform_except {A} (clauses : list (exception_class * (exn → M A))) :
  Forall (λ cl, ∀ e, uniform (cl.2 e)) clauses →
  ∀ e h, except clauses e = Some h → uniform h.
Proof.
  induction 1 as [|[c h0] rest Hc _ IH]; intros e h; simpl; [done|].
  destruct (isinstance e c); [intros [= <-]; apply Hc | apply IH].
Qed.

Lemma uniform_logging_call lv m : uniform (logging_call lv m).
Proof. intros s; by exists (Returned tt), s, [(lv, m)]. Qed.

Lemma uniform_update_self f : uniform (update_self f).
Proof. intros s; exists (Returned tt), (f s), []; intros l; by rewrite app_nil_r. Qed.

Lemma uniform_get_audio_mixer : uniform get_audio_mixer.
Proof.
  intros s; unfold get_audio_mixer; simpl.
  destruct (audio_mixer s) as [m|];
    [exists (Returned m), s, [] | exists (Raised AttributeError), s, []];
    intros l; by rewrite app_nil_r.
Qed.

Lemma uniform_get_keyboard : uniform get_keyboard.
Proof.
  intros s; unfold get_keyboard; simpl.
  destruct (keyboard s) as [k|];
    [exists (Returned k), s, [] | exists (Raised AttributeError), s, []];
    intros l; by rewrite app_nil_r.
Qed.

Lemma uniform_get_config : uniform get_config.
Proof.
  intros s; exists (Returned (config s)), s, []; intros l; by rewrite app_nil_r.
Qed.

Lemma uniform_mqttc_publish r : uniform (mqttc_publish r).
Proof.
  intros s; unfold mqttc_publish; simpl.
  destruct (mqtt.publish r (mqttc s)) as [[e|info] client];
    eexists _, _, []; intros l; by rewrite app_nil_r.
Qed.

Lemma uniform_first {A} (l : list A) : uniform (first l).
Proof. destruct l; [apply uniform_raise | apply uniform_ret]. Qed.

#[local] Hint Resolve uniform_ret uniform_raise uniform_lift uniform_logging_call
  uniform_update_self uniform_get_audio_mixer uniform_get_keyboard
  uniform_get_config uniform_mqttc_publish uniform_first : uniform.

Ltac uniform_step :=
  match goal with
  | |- uniform (_ ≫= _) => apply uniform_bind; [|intros ?]
  | |- uniform (try_except _ _) =>
    apply uniform_try_except;
    [|apply uniform_except; repeat constructor; simpl; intros ?]
  | |- uniform (if ?b then _ else _) => destruct b
  | |- uniform (let '(_, _) := ?p in _) => destruct p
  | |- uniform _ => by auto with uniform
  end.

Lemma uniform_update_status : uniform MQTTController.update_status.
Proof. unfold MQTTController.update_status, MQTTController.status,
         MQTTController.volume, MQTTController.mute; repeat uniform_step. Qed.

Lemma uniform_set_audio_mixer m : uniform (set_audio_mixer m).
Proof. apply uniform_update_self. Qed.

Lemma uniform_set_keyboard k : uniform (set_keyboard k).
Proof. apply uniform_update_self. Qed.

#[local] Hint Resolve uniform_update_status uniform_set_audio_mixer
  uniform_set_keyboard : uniform.

Lemma uniform_volume_setter value : uniform (MQTTController.volume_setter value).
Proof. unfold MQTTController.volume_setter; repeat uniform_step. Qed.

Lemma uniform_mute_setter value : uniform (MQTTController.mute_setter value).
Proof. unfold MQTTController.mute_setter; repeat uniform_step. Qed.

#[local] Hint Resolve uniform_volume_setter uniform_mute_setter : uniform.

Lemma uniform_volume_up : uniform MQTTController.volume_up.
Proof.
  unfold MQTTController.volume_up, MQTTController.volume; repeat uniform_step.
Qed.

Lemma uniform_volume_down : uniform MQTTController.volume_down.
Proof.
  unfold MQTTController.volume_down, MQTTController.volume; repeat uniform_step.
Qed.

Lemma uniform_toggle_mute : uniform MQTTController.toggle_mute.
Proof.
  unfold MQTTController.toggle_mute, MQTTController.mute; repeat uniform_step.
Qed.

Lemma uniform_toggle_pause : uniform MQTTController.toggle_pause.
Proof.
  unfold MQTTController.toggle_pause; repeat uniform_step.
Qed.

#[local] Hint Resolve uniform_volume_up uniform_volume_down uniform_toggle_mute
  uniform_toggle_pause : uniform.

(** Two runs of a uniform action from the same controller end in the same
    way, apart from the logs they started with. *)
Lemma uniform_runs {A} (c : M A) (w : world) (ra rb : logging.record) :
  uniform c →
  ∃ r s records,
    c (logged w [ra]) = (r, {| self := s; log := log w ++ ra :: records |}) ∧
    c (logged w [rb]) = (r, {| self := s; log := log w ++ rb :: records |}).
Proof.
  intros Hc. destruct (Hc (self w)) as (r & s & records & H).
  exists r, s, records. unfold logged.
  rewrite !H, <- !app_assoc. done.
Qed.

(** ** Reading a message *)

Lemma handle_message_unparsed msg e w :
  parsed msg = inl e → MQTTController.handle_message msg w = (Raised e, w).
Proof.
  unfold parsed, MQTTController.handle_message. intros H.
  destruct (bytes_decode (mqtt.msg_payload msg)) as [e'|decoded].
  - by inversion H.
  - simpl. unfold mbind, M_bind; simpl. by rewrite H.
Qed.

Lemma handle_message_parsed msg payload w :
  parsed msg = inr payload →
  MQTTController.handle_message msg w
  = dispatch payload (logged w [received payload]).
Proof.
  unfold parsed, MQTTController.handle_message. intros H.
  destruct (bytes_decode (mqtt.msg_payload msg)) as [e'|decoded]; [done|].
  simpl. unfold mbind at 1, M_bind at 1; simpl. rewrite H. simpl.
  unfold mbind at 1, M_bind at 1; simpl. reflexivity.
Qed.

Lemma uniform_dispatch payload : uniform (dispatch payload).
Proof. unfold dispatch; repeat uniform_step. Qed.

(** An object is handled as the object that has only its selected key. *)
Lemma dispatch_selected d k v w :
  selected d = Some k → lookup_item k d = Some v →
  dispatch (PDict d) w = dispatch (PDict [(k, v)]) w.
Proof.
  unfold selected, recognized, has_key; simpl.
  destruct (lookup_item "volume" d) as [v1|] eqn:H1; simpl.
  { intros [= <-] Hv. rewrite H1 in Hv. injection Hv as ->.
    unfold dispatch, jsonschema.validate; simpl. rewrite H1; simpl. done. }
  destruct (lookup_item "volumeCtrl" d) as [v2|] eqn:H2; simpl.
  { intros [= <-] Hv. rewrite H2 in Hv. injection Hv as ->.
    unfold dispatch, jsonschema.validate; simpl. rewrite H1, H2; simpl. done. }
  destruct (lookup_item "mute" d) as [v3|] eqn:H3; simpl.
  { intros [= <-] Hv. rewrite H3 in Hv. injection Hv as ->.
    unfold dispatch, jsonschema.validate; simpl. rewrite H1, H2, H3; simpl. done. }
  destruct (lookup_item "toggle" d) as [v4|] eqn:H4; simpl; [|done].
  intros [= <-] Hv. rewrite H4 in Hv. injection Hv as ->.
  unfold dispatch, jsonschema.validate; simpl. rewrite H1, H2, H3, H4; simpl. done.
Qed.

(** ** Failures that leave the controller alone *)

Create HintDb effects.

Lemma keeps_self_ret {A} (a : A) : keeps_self (mret a).
Proof. intros w r w' H; by inversion H. Qed.

Lemma keeps_self_raise {A} e : keeps_self (@raise A e).
Proof. intros w r w' H; by inversion H. Qed.

Lemma keeps_self_lift {A} (x : exn + A) : keeps_self (lift x).
Proof. destruct x; [apply keeps_self_raise | apply keeps_self_ret]. Qed.

Lemma keeps_self_first {A} (l : list A) : keeps_self (first l).
Proof. destruct l; [apply keeps_self_raise | apply keeps_self_ret]. Qed.

Lemma keeps_self_logging_call lv m : keeps_self (logging_call lv m).
Proof. intros w r w' H; by inversion H. Qed.

Lemma keeps_self_get_config : keeps_self get_config.
Proof. intros w r w' H; by inversion H. Qed.

Lemma keeps_self_get_audio_mixer : keeps_self get_audio_mixer.
Proof.
  intros w r w'; unfold get_audio_mixer.
  destruct (audio_mixer (self w)); intros H; by inversion H.
Qed.

Lemma keeps_self_get_keyboard : keeps_self get_keyboard.
Proof.
  intros w r w'; unfold get_keyboard.
  destruct (keyboard (self w)); intros H; by inversion H.
Qed.

Lemma keeps_self_bind {A B} (c : M A) (f : A → M B) :
  keeps_self c → (∀ a, keeps_self (f a)) → keeps_self (c ≫= f).
Proof.
  intros Hc Hf w r w' H.
  destruct (bind_inv _ _ _ _ _ H) as [(a & w1 & H1 & H2)|(e & H1 & _)].
  - rewrite (Hf _ _ _ _ H2). eauto.
  - eauto.
Qed.

Lemma raises_only_weaken {A} (P Q : exn → bool) (c : M A) :
  (∀ e, P e = true → Q e = true) → raises_only P c → raises_only Q c.
Proof. intros HPQ Hc w e w' H. eauto. Qed.

Lemma raises_only_ret {A} P (a : A) : raises_only P (mret a).
Proof. intros w e w' H; by inversion H. Qed.

Lemma raises_only_raise {A} (P : exn → bool) e :
  P e = true → raises_only P (@raise A e).
Proof. intros HP w e' w' H; by inversion H; subst. Qed.

Lemma raises_only_lift {A} (P : exn → bool) (x : exn + A) :
  (∀ e, x = inl e → P e = true) → raises_only P (lift x).
Proof.
  destruct x as [e|a]; intros HP;
    [apply raises_only_raise; eauto | apply raises_only_ret].
Qed.

Lemma raises_only_first {A} (P : exn → bool) (l : list A) :
  P IndexError = true → raises_only P (first l).
Proof.
  destruct l; intros HP; [by apply raises_only_raise | apply raises_only_ret].
Qed.

Lemma raises_only_logging_call P lv m : raises_only P (logging_call lv m).
Proof. intros w e w' H; by inversion H. Qed.

Lemma raises_only_update_self P f : raises_only P (update_self f).
Proof. intros w e w' H; by inversion H. Qed.

Lemma raises_only_get_config P : raises_only P get_config.
Proof. intros w e w' H; by inversion H. Qed.

Lemma raises_only_get_audio_mixer (P : exn → bool) :
  P AttributeError = true → raises_only P get_audio_mixer.
Proof.
  intros HP w e w'; unfold get_audio_mixer.
  destruct (audio_mixer (self w)); intros H; by inversion H; subst.
Qed.

Lemma raises_only_get_keyboard (P : exn → bool) :
  P AttributeError = true → raises_only P get_keyboard.
Proof.
  intros HP w e w'; unfold get_keyboard.
  destruct (keyboard (self w)); intros H; by inversion H; subst.
Qed.

Lemma raises_only_mqttc_publish (P : exn → bool) r :
  (∀ t, P (ValueError (InvalidPublish t)) = true) →
  raises_only P (mqttc_publish r).
Proof.
  intros HP w e w'; unfold mqttc_publish, mqtt.publish.
  destruct (mqtt.answer _ _); intros H; inversion H; subst; auto.
Qed.

Lemma raises_only_bind {A B} P (c : M A) (f : A → M B) :
  raises_only P c → (∀ a, raises_only P (f a)) → raises_only P (c ≫= f).
Proof.
  intros Hc Hf w e w' H.
  destruct (bind_inv _ _ _ _ _ H) as [(a & w1 & H1 & H2)|(e' & H1 & Heq)].
  - exact (Hf a w1 e w' H2).
  - injection Heq as ->. exact (Hc w e' w' H1).
Qed.

(** A [try] statement lets out what its clauses do not catch and what they
    raise themselves. *)
Lemma raises_only_try_except {A} (P Q : exn → bool) (body : M A) handler :
  raises_only Q body →
  (∀ e, Q e = true → handler e = None → P e = true) →
  (∀ e h, handler e = Some h → raises_only P h) →
  raises_only P (try_except body handler).
Proof.
  intros Hb Hnone Hsome w e w'. unfold try_except.
  destruct (body w) as [[a|e1] w1] eqn:Hbody; [done|].
  destruct (handler e1) as [h|] eqn:Hh.
  - intros H. eapply Hsome; eauto.
  - intros [= -> ->]. eauto.
Qed.

Lemma quiet_keeps_self {A} (c : M A) : keeps_self c → quiet c.
Proof. intros Hc w e w' H _. eauto. Qed.

Lemma quiet_raises_only {A} (c : M A) :
  raises_only (λ e, negb (decode_error e)) c → quiet c.
Proof.
  intros Hc w e w' H He. apply Hc in H. rewrite He in H. done.
Qed.

Lemma quiet_bind {A B} (c : M A) (f : A → M B) :
  keeps_self c → (∀ a, quiet (f a)) → quiet (c ≫= f).
Proof.
  intros Hc Hf w e w' H He.
  destruct (bind_inv _ _ _ _ _ H) as [(a & w1 & H1 & H2)|(e' & H1 & _)].
  - rewrite (Hf _ _ _ _ H2 He). eauto.
  - eauto.
Qed.

#[local] Hint Resolve keeps_self_ret keeps_self_raise keeps_self_lift
  keeps_self_first keeps_self_logging_call keeps_self_get_config
  keeps_self_get_audio_mixer keeps_self_get_keyboard : effects.
#[local] Hint Resolve raises_only_ret raises_only_logging_call
  raises_only_update_self raises_only_get_config : effects.

Ltac keeps_step :=
  match goal with
  | |- keeps_self (_ ≫= _) => apply keeps_self_bind; [|intros ?]
  | |- keeps_self _ => by auto with effects
  end.

Lemma keeps_self_volume : keeps_self MQTTController.volume.
Proof. unfold MQTTController.volume; repeat keeps_step. Qed.

Lemma keeps_self_mute : keeps_self MQTTController.mute.
Proof. unfold MQTTController.mute; repeat keeps_step. Qed.

#[local] Hint Resolve keeps_self_volume keeps_self_mute : effects.

(** What the configuration manager raises is never a [ValidationError]. *)
Lemma status_topic_error cfg e :
  MQTTControllerManager.status_topic cfg = inl e →
  isinstance e ValidationError_class = false.
Proof.
  unfold MQTTControllerManager.status_topic.
  destruct (cfg !! "MQTT_STATUS_TOPIC") as [[| | | |s| |]|];
    try destruct (negb _); intros [= <-]; done.
Qed.

(** [update_status] lets no decode error out: it catches every
    [ValueError], and nothing in it validates. *)
Lemma update_status_raises :
  raises_only (λ e, negb (decode_error e)) MQTTController.update_status.
Proof.
  unfold MQTTController.update_status.
  apply raises_only_try_except
    with (Q := λ e, negb (isinstance e ValidationError_class)).
  - unfold MQTTController.status, MQTTController.volume, MQTTController.mute.
    repeat first
      [ apply raises_only_bind; [|intros ?]
      | apply raises_only_lift; intros e He;
        by rewrite (status_topic_error _ _ He)
      | by apply raises_only_get_audio_mixer
      | by apply raises_only_first
      | by apply raises_only_mqttc_publish
      | match goal with |- raises_only _ (let '(_, _) := ?p in _) => destruct p end
      | match goal with |- raises_only _ (if ?b then _ else _) => destruct b end
      | by auto with effects ].
  - intros e HQ; destruct e; simpl in *; done.
  - intros e h; destruct e; simpl; try done;
      intros [= <-]; apply raises_only_logging_call.
Qed.

Lemma quiet_update_status : quiet MQTTController.update_status.
Proof. apply quiet_raises_only, update_status_raises. Qed.

Lemma quiet_after_update {A} (c : M A) :
  (∀ P, raises_only P c) → quiet (c;; MQTTController.update_status).
Proof.
  intros Hc. apply quiet_raises_only, raises_only_bind; [apply Hc|].
  intros _. apply update_status_raises.
Qed.

Lemma quiet_volume_setter value : quiet (MQTTController.volume_setter value).
Proof.
  unfold MQTTController.volume_setter.
  apply quiet_bind; [auto with effects|intros m].
  apply quiet_bind; [auto with effects|intros m'].
  apply quiet_after_update. intros P. apply raises_only_update_self.
Qed.

Lemma quiet_mute_setter value : quiet (MQTTController.mute_setter value).
Proof.
  unfold MQTTController.mute_setter.
  apply quiet_bind; [auto with effects|intros m].
  apply quiet_bind; [auto with effects|intros m'].
  apply quiet_after_update. intros P. apply raises_only_update_self.
Qed.

Lemma quiet_toggle_pause : quiet MQTTController.toggle_pause.
Proof.
  apply quiet_raises_only. unfold MQTTController.toggle_pause.
  repeat first
    [ apply raises_only_bind; [|intros ?]
    | by apply raises_only_get_keyboard
    | apply raises_only_update_self ].
Qed.

#[local] Hint Resolve quiet_volume_setter quiet_mute_setter quiet_toggle_pause
  quiet_update_status : effects.

Ltac quiet_step :=
  match goal with
  | |- quiet (_ ≫= _) => apply quiet_bind; [by auto with effects|intros ?]
  | |- quiet (if ?b then _ else _) => destruct b
  | |- quiet (raise _) => apply quiet_keeps_self, keeps_self_raise
  | |- quiet _ => by auto with effects
  end.

Lemma quiet_volume_up : quiet MQTTController.volume_up.
Proof. unfold MQTTController.volume_up; repeat quiet_step. Qed.

Lemma quiet_volume_down : quiet MQTTController.volume_down.
Proof. unfold MQTTController.volume_down; repeat quiet_step. Qed.

Lemma quiet_toggle_mute : quiet MQTTController.toggle_mute.
Proof. unfold MQTTController.toggle_mute; repeat quiet_step. Qed.

#[local] Hint Resolve quiet_volume_up quiet_volume_down quiet_toggle_mute
  : effects.

Lemma quiet_dispatch payload : quiet (dispatch payload).
Proof. unfold dispatch; repeat quiet_step. Qed.

Lemma quiet_handle_message msg : quiet (MQTTController.handle_message msg).
Proof.
  unfold MQTTController.handle_message.
  do 3 quiet_step. apply quiet_dispatch.
Qed.

(** * The dispatch loop *)

Lemma bytes_decode_error payload e :
  bytes_decode payload = inl e → e = UnicodeDecodeError.
Proof.
  unfold bytes_decode. destruct (utf8_decode _ _); intros H; by inversion H.
Qed.

Lemma handle_message_decoded msg w w' :
  MQTTController.handle_message msg w = (Raised JSONDecodeError, w') →
  ∃ decoded, bytes_decode (mqtt.msg_payload msg) = inr decoded.
Proof.
  destruct (bytes_decode (mqtt.msg_payload msg)) as [e|decoded] eqn:Hd; [|eauto].
  rewrite (handle_message_unparsed msg e w) by (unfold parsed; by rewrite Hd).
  apply bytes_decode_error in Hd as ->. done.
Qed.

(** When [handle_message] raises, [on_message] logs one [ERROR] record
    that tells which kind of failure it was, and returns. *)
Lemma on_message_after_raise msg w e w1 :
  MQTTController.handle_message msg w = (Raised e, w1) →
  ∃ m, MQTTController.on_message msg w
       = (Returned tt, logged w1 [(logging.ERROR, m)]) ∧
       classified msg e m.
Proof.
  intros H. unfold MQTTController.on_message, try_except. rewrite H.
  destruct e; simpl; try (eexists; split; [reflexivity|]; by constructor).
  destruct (handle_message_decoded _ _ _ H) as [decoded Hd].
  exists (logging.CannotDeserialize decoded).
  unfold mbind, M_bind. rewrite Hd.
  split; [done|by constructor].
Qed.

(** C1.  For every payload, [on_message] returns normally: when
    [handle_message] returns, so does [on_message] in the same state; when
    [handle_message] raises, whatever the exception (decoding, parsing,
    validation, unknown command, device or anything else), [on_message]
    catches it, logs one [ERROR] record that tells which kind it was, and
    returns. *)
Theorem on_message_never_raises (msg : mqtt.MQTTMessage) (w : world) :
  ∃ w', MQTTController.on_message msg w = (Returned tt, w') ∧
    (∀ w1, MQTTController.handle_message msg w = (Returned tt, w1) → w' = w1) ∧
    (∀ e w1, MQTTController.handle_message msg w = (Raised e, w1) →
       ∃ m, w' = logged w1 [(logging.ERROR, m)] ∧ classified msg e m).
Proof.
  destruct (MQTTController.handle_message msg w) as [[[]|e] w1] eqn:H.
  - exists w1. split.
    + unfold MQTTController.on_message, try_except. by rewrite H.
    + split; [by intros ? [= ->]|done].
  - destruct (on_message_after_raise msg w e w1 H) as (m & Hon & Hm).
    exists (logged w1 [(logging.ERROR, m)]). split; [exact Hon|].
    split; [done|]. intros e' w2 [= <- <-]. eauto.
Qed.

(** * The decoder *)

(** C5.  When [handle_message] fails with a decode error (a
    [UnicodeDecodeError], a [JSONDecodeError], a [ValidationError] or a
    [ValueError], which is what an unrecognized command raises), the
    controller is as it was: the mixer has the same volume and mute switch,
    no key was pressed, no publish was requested.  [on_message] then only
    adds to the log. *)
Theorem decode_failure_leaves_device (msg : mqtt.MQTTMessage) (w w' : world) (e : exn) :
  MQTTController.handle_message msg w = (Raised e, w') →
  decode_error e = true →
  self w' = self w ∧
  ∃ w'', MQTTController.on_message msg w = (Returned tt, w'') ∧ self w'' = self w.
Proof.
  intros H He.
  assert (self w' = self w) as Hself by exact (quiet_handle_message msg w e w' H He).
  split; [done|].
  destruct (on_message_after_raise msg w e w' H) as (m & Hon & _).
  exists (logged w' [(logging.ERROR, m)]). split; [exact Hon|done].
Qed.

Lemma decode_failure_leaves_device_witness :
  let msg := message "{'volume': 101}" in
  let w := example_world 30 false in
  let e := ValidationError [SchemaError (Some "volume") "maximum"] in
  let w' := logged w [received (PDict [("volume", PInt 101)])] in
  MQTTController.handle_message msg w = (Raised e, w') ∧
  decode_error e = true ∧
  self w' = self w ∧
  ∃ w'', MQTTController.on_message msg w = (Returned tt, w'') ∧ self w'' = self w.
Proof.
  intros msg w e w'.
  assert (MQTTController.handle_message msg w = (Raised e, w')) as H
    by (vm_compute; reflexivity).
  split; [exact H|]. split; [reflexivity|].
  exact (decode_failure_leaves_device msg w w' e H eq_refl).
Defined.

Lemma less_int a b : jsonschema.less (PInt a) (PInt b) = (a <? b).
Proof.
  unfold jsonschema.less, exact_of, exact_compare.
  change (2 ^ 0) with 1. rewrite !Z.mul_1_r. unfold Z.ltb.
  destruct (a ?= b); reflexivity.
Qed.

Lemma validate_set_volume v :
  0 ≤ v ≤ 100 →
  jsonschema.validate (PDict [("volume", PInt v)]) MQTTController.volume_schema
  = inr tt.
Proof.
  intros Hv.
  unfold jsonschema.validate.
  assert (jsonschema.iter_errors None MQTTController.volume_schema
            (PDict [("volume", PInt v)])
          = (((if jsonschema.less (PInt v) (PInt 0)
               then [SchemaError (Some "volume") "minimum"] else [])
              ++ (if jsonschema.less (PInt 100) (PInt v)
                  then [SchemaError (Some "volume") "maximum"] else [])
              ++ []) ++ []) ++ []) as -> by reflexivity.
  rewrite !less_int.
  destruct (Z.ltb_spec v 0); [lia|]. destruct (Z.ltb_spec 100 v); [lia|]. done.
Qed.

(** A command is what its payload makes [handle_message] do. *)
Lemma dispatch_command (c : Command) (w : world) :
  match c with SetVolume v => 0 ≤ v ≤ 100 | _ => True end →
  dispatch (payload_of c) w = execute c w.
Proof.
  destruct c as [v|[]|b|[]]; try reflexivity.
  intros Hv. unfold dispatch, payload_of.
  rewrite (validate_set_volume v Hv). reflexivity.
Qed.

Lemma payload_of_inj c c' : payload_of c = payload_of c' → c = c'.
Proof.
  destruct c as [v|[]|b|[]], c' as [v'|[]|b'|[]]; simpl; try done;
    by intros [= ->].
Qed.

(** C2.  An object with one or more recognized keys is handled by the first
    of them in the order volume, volumeCtrl, mute, toggle, and by nothing
    else in it.  What [handle_message] does after logging the payload is
    what it does for the object that holds that key alone; when that key
    and its value are the payload of a command, it executes that command,
    which is the only one they are the payload of: a volume between 0 and
    100 is set whatever is under the mute key.  The message has the result,
    the effect on the controller and the log records of the message that
    holds that key alone (the first record echoes the payload received, so
    it differs). *)
Theorem first_recognized_key_decides
  (msg : mqtt.MQTTMessage) (d : list (string * pyobj)) (k : string)
  (v : pyobj) (w : world) :
  parsed msg = inr (PDict d) →
  selected d = Some k →
  lookup_item k d = Some v →
  MQTTController.handle_message msg w
  = dispatch (PDict [(k, v)]) (logged w [received (PDict d)]) ∧
  (∀ c, payload_of c = PDict [(k, v)] →
        in_range c →
        MQTTController.handle_message msg w
        = execute c (logged w [received (PDict d)]) ∧
        ∀ c', payload_of c' = PDict [(k, v)] → c' = c) ∧
  (∀ msg1,
     parsed msg1 = inr (PDict [(k, v)]) →
     ∃ r s records,
       MQTTController.handle_message msg w
       = (r, {| self := s; log := log w ++ received (PDict d) :: records |}) ∧
       MQTTController.handle_message msg1 w
       = (r, {| self := s;
                log := log w ++ received (PDict [(k, v)]) :: records |})).
Proof.
  intros Hmsg Hsel Hv.
  assert (MQTTController.handle_message msg w
          = dispatch (PDict [(k, v)]) (logged w [received (PDict d)])) as H.
  { rewrite (handle_message_parsed _ _ _ Hmsg).
    exact (dispatch_selected d k v _ Hsel Hv). }
  split; [exact H|]. split.
  - intros c Hc Hrange. split.
    + rewrite H, <- Hc. by apply dispatch_command.
    + intros c' Hc'. apply payload_of_inj. by rewrite Hc, Hc'.
  - intros msg1 Hmsg1.
    destruct (uniform_runs (dispatch (PDict [(k, v)])) w
                (received (PDict d)) (received (PDict [(k, v)]))
                (uniform_dispatch _)) as (r & s & records & Ha & Hb).
    exists r, s, records.
    rewrite H, (handle_message_parsed _ _ _ Hmsg1). done.
Qed.

Lemma first_recognized_key_decides_witness :
  let msg := message "{'volume': 50, 'mute': true}" in
  let d := [("volume", PInt 50); ("mute", PBool true)] in
  let w := example_world 30 false in
  let w' := snd (MQTTController.handle_message msg w) in
  parsed msg = inr (PDict d) ∧
  selected d = Some "volume" ∧
  lookup_item "volume" d = Some (PInt 50) ∧
  payload_of (SetVolume 50) = PDict [("volume", PInt 50)] ∧
  in_range (SetVolume 50) ∧
  MQTTController.handle_message msg w
  = execute (SetVolume 50) (logged w [received (PDict d)]) ∧
  MQTTController.handle_message msg w = (Returned tt, w') ∧
  audio_mixer (self w')
  = Some {| alsaaudio.playback_volume := 50;
            alsaaudio.playback_switch := false |}.
Proof.
  intros msg d w w'.
  assert (parsed msg = inr (PDict d)) as H1 by (vm_compute; reflexivity).
  assert (in_range (SetVolume 50)) as H2 by (simpl; lia).
  split; [exact H1|]. split; [reflexivity|]. split; [reflexivity|].
  split; [reflexivity|]. split; [exact H2|].
  split; [|split; vm_compute; reflexivity].
  exact (proj1 (proj1 (proj2 (first_recognized_key_decides
                                msg d "volume" (PInt 50) w
                                H1 eq_refl eq_refl))
                 (SetVolume 50) eq_refl H2)).
Defined.

(** The payload with a volume and a mute key is [self.volume = 50] and
    nothing else: on a mixer at 30 and not muted the volume becomes 50, the
    mute switch stays off, and one status is published. *)
Example volume_and_mute_is_set_volume (w : world) :
  MQTTController.handle_message (message "{'volume': 50, 'mute': true}") w
  = MQTTController.volume_setter (PInt 50)
      (logged w [received (PDict [("volume", PInt 50); ("mute", PBool true)])]).
Proof.
  rewrite (handle_message_parsed _
             (PDict [("volume", PInt 50); ("mute", PBool true)]))
    by (vm_compute; reflexivity).
  reflexivity.
Qed.

Example volume_and_mute_run :
  let '(r, w') := MQTTController.on_message
                    (message "{'volume': 50, 'mute': true}")
                    (example_world 30 false) in
  r = Returned tt ∧
  audio_mixer (self w') = Some {| alsaaudio.playback_volume := 50;
                                  alsaaudio.playback_switch := false |} ∧
  keyboard (self w') = Some {| pynput.sent := [] |} ∧
  mqtt.requests (mqttc (self w'))
  = [{| mqtt.topic := "desktop/status";
        mqtt.payload := json_text "{'volume': 50, 'mute': false}";
        mqtt.qos := 0; mqtt.retain := false |}].
Proof. vm_compute. repeat split. Qed.

(** C10.  The payloads with [true] or [false] under the volume key fail
    validation, a JSON boolean not being an integer for the schema:
    [handle_message] raises [ValidationError] for the [type] keyword of the
    volume property, having done nothing but log the payload, and
    [on_message] logs the error and leaves the controller as it was. *)
Theorem volume_boolean_is_invalid (b : bool) (w : world) :
  let msg := message (if b then "{'volume': true}" else "{'volume': false}") in
  let e := ValidationError [SchemaError (Some "volume") "type"] in
  let w' := logged w [received (PDict [("volume", PBool b)])] in
  MQTTController.handle_message msg w = (Raised e, w') ∧
  MQTTController.on_message msg w
  = (Returned tt, logged w' [(logging.ERROR, logging.InvalidJSONSchema e)]) ∧
  self (logged w' [(logging.ERROR, logging.InvalidJSONSchema e)]) = self w.
Proof.
  intros msg e w'.
  assert (MQTTController.handle_message msg w = (Raised e, w')) as H.
  { rewrite (handle_message_parsed _ (PDict [("volume", PBool b)]))
      by (destruct b; vm_compute; reflexivity).
    destruct b; reflexivity. }
  split; [exact H|]. split; [|done].
  unfold MQTTController.on_message, try_except. rewrite H. reflexivity.
Qed.

(** Under the volume key of any object, a boolean is refused in the same
    way whatever else the object holds. *)
Lemma volume_boolean_in_object msg d b w :
  parsed msg = inr (PDict d) →
  lookup_item "volume" d = Some (PBool b) →
  MQTTController.handle_message msg w
  = (Raised (ValidationError [SchemaError (Some "volume") "type"]),
     logged w [received (PDict d)]).
Proof.
  intros Hmsg Hv. rewrite (handle_message_parsed _ _ _ Hmsg).
  unfold dispatch, jsonschema.validate; simpl. rewrite Hv; simpl. done.
Qed.

(** ** Payloads that are not a JSON object *)

(** What the scanner raises is a [JSONDecodeError] or a
    [RecursionError]. *)
Lemma scan_error f :
  (∀ depth s e, json.scan_once f depth s = inl e →
                e = JSONDecodeError ∨ e = RecursionError) ∧
  (∀ depth pairs s e, json.JSONObject f depth pairs s = inl e →
                      e = JSONDecodeError ∨ e = RecursionError) ∧
  (∀ depth values s e, json.JSONArray f depth values s = inl e →
                       e = JSONDecodeError ∨ e = RecursionError).
Proof.
  induction f as [|f (IHs & IHo & IHa)].
  { repeat split; intros; simpl in *; left; congruence. }
  repeat split.
  - intros depth s e H. simpl in H.
    repeat match type of H with
           | inl _ = inl _ => injection H as <-; by eauto
           | inr _ = inl _ => discriminate H
           | json.JSONObject _ _ _ _ = inl _ => by apply IHo in H
           | json.JSONArray _ _ _ _ = inl _ => by apply IHa in H
           | context [match ?x with _ => _ end] => destruct x eqn:?
           | context [if ?b then _ else _] => destruct b eqn:?
           end.
  - intros depth pairs s e H. simpl in H.
    repeat match type of H with
           | inl _ = inl _ => injection H as <-; by eauto
           | inr _ = inl _ => discriminate H
           | json.JSONObject _ _ _ _ = inl _ => by apply IHo in H
           | context [match json.scan_once ?f ?d ?x with _ => _ end] =>
             let E := fresh "E" in
             destruct (json.scan_once f d x) as [?|[? ?]] eqn:E;
             [apply IHs in E|]
           | context [match ?x with _ => _ end] => destruct x eqn:?
           | context [if ?b then _ else _] => destruct b eqn:?
           end.
  - intros depth values s e H. simpl in H.
    repeat match type of H with
           | inl _ = inl _ => injection H as <-; by eauto
           | inr _ = inl _ => discriminate H
           | json.JSONArray _ _ _ _ = inl _ => by apply IHa in H
           | context [match json.scan_once ?f ?d ?x with _ => _ end] =>
             let E := fresh "E" in
             destruct (json.scan_once f d x) as [?|[? ?]] eqn:E;
             [apply IHs in E|]
           | context [match ?x with _ => _ end] => destruct x eqn:?
           | context [if ?b then _ else _] => destruct b eqn:?
           end.
Qed.

Lemma loads_error s e :
  json.loads s = inl e → e = JSONDecodeError ∨ e = RecursionError.
Proof.
  unfold json.loads. destruct (json.strip_prefix _ _); [intros [= <-]; by left|].
  destruct (json.scan_once _ _ _) as [e'|[obj rest]] eqn:Hscan.
  - intros [= <-]. exact (proj1 (scan_error _) _ _ _ Hscan).
  - destruct (json.skip_whitespace rest); [done|intros [= <-]; by left].
Qed.





(** An array is refused in the same way: the one that holds the name of a
    command fails validation, the one that holds none is no command. *)
Example array_payloads :
  fst (MQTTController.handle_message (message "['mute']")
         (example_world 30 false))
  = Raised (ValidationError [SchemaError None "type"]) ∧
  fst (MQTTController.handle_message (message "[1, 2]")
         (example_world 30 false))
  = Raised (ValueError (NotAValidCommand (PList [PInt 1; PInt 2]))).
Proof. vm_compute. split; reflexivity. Qed.

(** A text that opens more arrays than the interpreter allows calls is not
    refused as malformed: the scanner raises [RecursionError] when it
    opens the first array too many, whether the text goes on to be JSON
    or not. *)
Example nesting_too_deep :
  json.scan_once 5 1 "[[1]]" = inl RecursionError ∧
  json.scan_once 5 1 "[[" = inl RecursionError ∧
  json.scan_once 5 2 "[[" = inl JSONDecodeError ∧
  json.scan_once 5 2 "[[1]]" = inr (PList [PList [PInt 1]], "").
Proof. vm_compute. repeat split. Qed.

Example nesting_at_the_limit :
  let deep n := text (repeat 91 n) in
  json.loads (deep json.nesting_limit) = inl JSONDecodeError ∧
  json.loads (deep (S json.nesting_limit)) = inl RecursionError ∧
  MQTTController.on_message
    {| mqtt.msg_payload := encode (deep (S json.nesting_limit)) |}
    (example_world 30 false)
  = (Returned tt,
     logged (example_world 30 false)
       [(logging.ERROR, logging.UnexpectedError RecursionError)]).
Proof. vm_compute. repeat split. Qed.

Example string_payload_fails_validation :
  MQTTController.on_message (message "'volume'") (example_world 30 false)
  = (Returned tt,
     logged (example_world 30 false)
       [received (PStr "volume");
        (logging.ERROR,
         logging.InvalidJSONSchema (ValidationError [SchemaError None "type"]))]).
Proof. vm_compute; reflexivity. Qed.

Example unparseable_payload_is_malformed :
  MQTTController.on_message (message "{'volume': ") (example_world 30 false)
  = (Returned tt,
     logged (example_world 30 false)
       [(logging.ERROR, logging.CannotDeserialize (json_text "{'volume': "))]).
Proof. vm_compute; reflexivity. Qed.

(** * The status reporter *)

Lemma status_run w m :
  audio_mixer (self w) = Some m →
  MQTTController.status w = (Returned (snapshot m), w).
Proof.
  intros Hm.
  unfold MQTTController.status, MQTTController.volume, MQTTController.mute,
    get_audio_mixer, mbind, M_bind; simpl.
  repeat (rewrite Hm; simpl). unfold snapshot, mret, M_ret.
  by destruct (alsaaudio.playback_switch m).
Qed.

Lemma update_status_run w m status_topic :
  audio_mixer (self w) = Some m →
  MQTTControllerManager.status_topic (config (self w)) = inr status_topic →
  MQTTController.update_status w
  = (Returned tt,
     logged (requested w (status_request status_topic m))
       [status_record status_topic
          (mqtt.answer (mqttc (self w)) (status_request status_topic m))]).
Proof.
  intros Hm Ht.
  unfold MQTTController.update_status, try_except.
  unfold mbind at 1, M_bind at 1. unfold get_config at 1.
  unfold mbind at 1, M_bind at 1. rewrite Ht. unfold lift at 1, mret at 1, M_ret at 1.
  unfold mbind at 1, M_bind at 1. rewrite (status_run w m Hm).
  unfold mbind at 1, M_bind at 1, mqttc_publish, mqtt.publish.
  fold (snapshot m). fold (status_request status_topic m).
  unfold logged, requested, status_record.
  destruct (mqtt.answer (mqttc (self w)) (status_request status_topic m))
    as [rc mid|]; [|reflexivity].
  cbv beta iota. destruct (rc =? mqtt.MQTT_ERR_SUCCESS); reflexivity.
Qed.

Lemma update_status_unconfigured w e :
  MQTTControllerManager.status_topic (config (self w)) = inl e →
  MQTTController.update_status w
  = if isinstance e ValueError_class
    then (Returned tt, logged w [(logging.WARNING, logging.CannotSendStatus e)])
    else (Raised e, w).
Proof.
  intros Ht.
  unfold MQTTController.update_status, try_except.
  unfold mbind at 1, M_bind at 1. unfold get_config at 1.
  unfold mbind at 1, M_bind at 1. rewrite Ht.
  unfold lift at 1, raise at 1. cbv beta iota.
  destruct e; reflexivity.
Qed.

(** The manager raises [KeyError] when the topic is not configured and
    [ValueError] when it is not a non-empty string. *)
Lemma status_topic_cases cfg :
  match MQTTControllerManager.status_topic cfg with
  | inr _ => is_Some (cfg !! "MQTT_STATUS_TOPIC")
  | inl e =>
    if isinstance e ValueError_class
    then is_Some (cfg !! "MQTT_STATUS_TOPIC")
    else cfg !! "MQTT_STATUS_TOPIC" = None
  end.
Proof.
  unfold MQTTControllerManager.status_topic.
  destruct (cfg !! "MQTT_STATUS_TOPIC") as [[| | | |s| |]|]; simpl; eauto.
  destruct (negb _); simpl; eauto.
Qed.

(** C8.  With a mixer to read and a status topic in the configuration,
    [update_status] returns normally whatever the mixer holds and whatever
    the client answers: an accepted request is logged as such, a rejected
    one (any other return code) is logged as a warning, a request that
    [publish] refuses with [ValueError] is caught and logged as a warning,
    and so is a status topic that is not a non-empty string.  One record is
    logged, and the mixer and the keyboard are as before. *)
Theorem update_status_never_raises (w : world) (m : alsaaudio.Mixer) :
  audio_mixer (self w) = Some m →
  is_Some (config (self w) !! "MQTT_STATUS_TOPIC") →
  ∃ record,
    match MQTTControllerManager.status_topic (config (self w)) with
    | inr status_topic =>
      MQTTController.update_status w
      = (Returned tt,
         logged (requested w (status_request status_topic m)) [record]) ∧
      record = status_record status_topic
                 (mqtt.answer (mqttc (self w)) (status_request status_topic m))
    | inl e =>
      MQTTController.update_status w = (Returned tt, logged w [record]) ∧
      record = (logging.WARNING, logging.CannotSendStatus e)
    end.
Proof.
  intros Hm [v Hv].
  pose proof (status_topic_cases (config (self w))) as Hcases.
  destruct (MQTTControllerManager.status_topic (config (self w)))
    as [e|status_topic] eqn:Ht.
  - rewrite (update_status_unconfigured w e Ht).
    destruct (isinstance e ValueError_class); [eauto|].
    rewrite Hv in Hcases. done.
  - rewrite (update_status_run w m status_topic Hm Ht). eauto.
Qed.

Lemma update_status_never_raises_witness :
  let rejecting :=
    {| mqtt.requests := []; mqtt.answer := λ _, mqtt.Info 4 0 |} in
  let w :=
    {| self := {| audio_mixer := Some {| alsaaudio.playback_volume := 30;
                                         alsaaudio.playback_switch := true |};
                  keyboard := None;
                  mqttc := rejecting;
                  config := {[ "MQTT_STATUS_TOPIC" := PStr "desktop/status" ]} |};
       log := [] |} in
  let m := {| alsaaudio.playback_volume := 30;
              alsaaudio.playback_switch := true |} in
  audio_mixer (self w) = Some m ∧
  is_Some (config (self w) !! "MQTT_STATUS_TOPIC") ∧
  MQTTController.update_status w
  = (Returned tt,
     logged (requested w (status_request "desktop/status" m))
       [(logging.WARNING, logging.StatusRejected)]).
Proof.
  intros rejecting w m.
  assert (audio_mixer (self w) = Some m) as Hm by reflexivity.
  assert (is_Some (config (self w) !! "MQTT_STATUS_TOPIC")) as Ht
    by (vm_compute; eauto).
  split; [exact Hm|]. split; [exact Ht|].
  destruct (update_status_never_raises w m Hm Ht) as [record H].
  assert (MQTTControllerManager.status_topic (config (self w))
          = inr "desktop/status") as Hs by (vm_compute; reflexivity).
  rewrite Hs in H. destruct H as [-> ->]. reflexivity.
Defined.

(** ** The published status *)

Lemma reads_back_all :
  forallb (λ n, reads_back (Z.of_nat n) true && reads_back (Z.of_nat n) false)
    (seq 0 101) = true.
Proof. vm_compute. reflexivity. Qed.

Lemma snapshot_reads_back (m : alsaaudio.Mixer) :
  0 ≤ alsaaudio.playback_volume m ≤ 100 →
  json.loads (json.dumps (snapshot m)) = inr (snapshot m).
Proof.
  intros Hv. destruct m as [v b]; simpl in Hv. unfold snapshot; simpl alsaaudio.playback_volume; simpl alsaaudio.playback_switch.
  pose proof reads_back_all as Hall.
  rewrite forallb_forall in Hall.
  specialize (Hall (Z.to_nat v)).
  rewrite Z2Nat.id in Hall by lia.
  assert (reads_back v b = true) as Hrb.
  { assert (In (Z.to_nat v) (seq 0 101)) as Hin by (apply in_seq; lia).
    apply Hall in Hin. apply andb_true_iff in Hin as [Ht Hf].
    by destruct b. }
  unfold reads_back in Hrb.
  destruct (json.loads _) as [e|[| | | | | |[|[k1 [| |v'| | | |]] [|[k2 [|b'| | | | |]] [|]]]]];
    try discriminate.
  repeat (apply andb_true_iff in Hrb as [Hrb ?]).
  apply String.eqb_eq in Hrb as ->.
  repeat match goal with
         | H : (_ =? _)%string = true |- _ => apply String.eqb_eq in H as ->
         | H : (_ =? _) = true |- _ => apply Z.eqb_eq in H as ->
         | H : eqb _ _ = true |- _ => apply eqb_prop in H as ->
         end.
  reflexivity.
Qed.

Lemma update_status_no_mixer w status_topic :
  audio_mixer (self w) = None →
  MQTTControllerManager.status_topic (config (self w)) = inr status_topic →
  MQTTController.update_status w = (Raised AttributeError, w).
Proof.
  intros Hm Ht.
  unfold MQTTController.update_status, try_except.
  unfold mbind at 1, M_bind at 1. unfold get_config at 1.
  unfold mbind at 1, M_bind at 1. rewrite Ht.
  unfold lift at 1, mret at 1, M_ret at 1.
  unfold mbind at 1, M_bind at 1.
  unfold MQTTController.status, MQTTController.volume.
  unfold mbind at 1, M_bind at 1. unfold mbind at 1, M_bind at 1.
  unfold get_audio_mixer at 1. rewrite Hm. reflexivity.
Qed.

(** C9.  Whatever [update_status] asks the client to publish is the JSON
    text of the dictionary that [status] returns: the volume and the mute
    flag of the mixer, in that order, and nothing else; there is no field
    for play or pause.  For a volume between 0 and 100 the text parses
    back to exactly that two-field object. *)
Theorem published_status_is_volume_and_mute
  (w w' : world) (r : outcome unit) :
  MQTTController.update_status w = (r, w') →
  ∃ published,
    mqtt.requests (mqttc (self w')) = mqtt.requests (mqttc (self w)) ++ published ∧
    ∀ req, In req published →
      ∃ m, audio_mixer (self w) = Some m ∧
           MQTTController.status w
           = (Returned (PDict [("volume", PInt (alsaaudio.playback_volume m));
                               ("mute", PBool (alsaaudio.playback_switch m))]), w) ∧
           mqtt.payload req
           = json.dumps (PDict [("volume", PInt (alsaaudio.playback_volume m));
                                ("mute", PBool (alsaaudio.playback_switch m))]) ∧
           (0 ≤ alsaaudio.playback_volume m ≤ 100 →
            json.loads (mqtt.payload req)
            = inr (PDict [("volume", PInt (alsaaudio.playback_volume m));
                          ("mute", PBool (alsaaudio.playback_switch m))])).
Proof.
  intros H.
  destruct (MQTTControllerManager.status_topic (config (self w)))
    as [e|status_topic] eqn:Ht.
  - rewrite (update_status_unconfigured w e Ht) in H.
    exists []. rewrite app_nil_r.
    split; [|by intros req []].
    destruct (isinstance e ValueError_class); by injection H as _ <-.
  - destruct (audio_mixer (self w)) as [m|] eqn:Hm.
    + rewrite (update_status_run w m status_topic Hm Ht) in H.
      injection H as _ <-.
      exists [status_request status_topic m]. split; [reflexivity|].
      intros req [<-|[]]. exists m. split; [reflexivity|].
      split; [exact (status_run w m Hm)|].
      split; [reflexivity|].
      exact (snapshot_reads_back m).
    + rewrite (update_status_no_mixer w status_topic Hm Ht) in H.
      injection H as _ <-. exists []. rewrite app_nil_r.
      split; [reflexivity|by intros req []].
Qed.

Lemma published_status_is_volume_and_mute_witness :
  let w := example_world 30 true in
  let req := {| mqtt.topic := "desktop/status";
                mqtt.payload := json_text "{'volume': 30, 'mute': true}";
                mqtt.qos := 0; mqtt.retain := false |} in
  let w' := logged (requested w req) [(logging.INFO, logging.StatusAccepted 1)] in
  MQTTController.update_status w = (Returned tt, w') ∧
  ∃ published,
    mqtt.requests (mqttc (self w')) = mqtt.requests (mqttc (self w)) ++ published ∧
    ∀ req, In req published →
      ∃ m, audio_mixer (self w) = Some m ∧
           MQTTController.status w
           = (Returned (PDict [("volume", PInt (alsaaudio.playback_volume m));
                               ("mute", PBool (alsaaudio.playback_switch m))]), w) ∧
           mqtt.payload req
           = json.dumps (PDict [("volume", PInt (alsaaudio.playback_volume m));
                                ("mute", PBool (alsaaudio.playback_switch m))]) ∧
           (0 ≤ alsaaudio.playback_volume m ≤ 100 →
            json.loads (mqtt.payload req)
            = inr (PDict [("volume", PInt (alsaaudio.playback_volume m));
                          ("mute", PBool (alsaaudio.playback_switch m))])).
Proof.
  intros w req w'.
  assert (MQTTController.update_status w = (Returned tt, w')) as H
    by (vm_compute; reflexivity).
  split; [exact H|].
  exact (published_status_is_volume_and_mute w w' (Returned tt) H).
Defined.

(** * The action executor *)

Lemma update_status_keeps_mixer w m :
  audio_mixer (self w) = Some m →
  ∃ r w', MQTTController.update_status w = (r, w') ∧
          audio_mixer (self w') = Some m ∧
          keyboard (self w') = keyboard (self w).
Proof.
  intros Hm.
  destruct (MQTTControllerManager.status_topic (config (self w)))
    as [e|status_topic] eqn:Ht.
  - rewrite (update_status_unconfigured w e Ht).
    destruct (isinstance e ValueError_class); eauto.
  - rewrite (update_status_run w m status_topic Hm Ht). eauto.
Qed.

Lemma volume_run w :
  MQTTController.volume w
  = match audio_mixer (self w) with
    | Some m => (Returned (alsaaudio.playback_volume m), w)
    | None => (Raised AttributeError, w)
    end.
Proof.
  unfold MQTTController.volume, mbind, M_bind, get_audio_mixer.
  by destruct (audio_mixer (self w)).
Qed.

Lemma mute_run w :
  MQTTController.mute w
  = match audio_mixer (self w) with
    | Some m => (Returned (alsaaudio.playback_switch m), w)
    | None => (Raised AttributeError, w)
    end.
Proof.
  unfold MQTTController.mute, mbind, M_bind, get_audio_mixer.
  destruct (audio_mixer (self w)) as [[v []]|]; reflexivity.
Qed.

Lemma volume_setter_run w value :
  MQTTController.volume_setter value w
  = match audio_mixer (self w) with
    | Some m =>
      match alsaaudio.setvolume value m with
      | inr m' => MQTTController.update_status (with_mixer w m')
      | inl e => (Raised e, w)
      end
    | None => (Raised AttributeError, w)
    end.
Proof.
  unfold MQTTController.volume_setter.
  unfold mbind at 1, M_bind at 1, get_audio_mixer.
  destruct (audio_mixer (self w)) as [m|]; [|reflexivity].
  unfold mbind at 1, M_bind at 1.
  destruct (alsaaudio.setvolume value m) as [e|m']; reflexivity.
Qed.

Lemma mute_setter_run w value :
  MQTTController.mute_setter value w
  = match audio_mixer (self w) with
    | Some m =>
      match alsaaudio.setmute value m with
      | inr m' => MQTTController.update_status (with_mixer w m')
      | inl e => (Raised e, w)
      end
    | None => (Raised AttributeError, w)
    end.
Proof.
  unfold MQTTController.mute_setter.
  unfold mbind at 1, M_bind at 1, get_audio_mixer.
  destruct (audio_mixer (self w)) as [m|]; [|reflexivity].
  unfold mbind at 1, M_bind at 1.
  destruct (alsaaudio.setmute value m) as [e|m']; reflexivity.
Qed.

Lemma setvolume_percentage v m :
  0 ≤ v ≤ 100 →
  alsaaudio.setvolume (PInt v) m
  = inr {| alsaaudio.playback_volume := v;
           alsaaudio.playback_switch := alsaaudio.playback_switch m |}.
Proof.
  intros Hv. unfold alsaaudio.setvolume, between.
  destruct (Z.leb_spec 0 v); [|lia]. destruct (Z.leb_spec v 100); [|lia]. done.
Qed.

(** C7.  Setting the volume to [v] between 0 and 100 and then reading the
    [volume] property gives [v]: the setter stores [v] in the mixer, the
    status update that follows (whatever comes of it) leaves the mixer
    alone, and the getter reads the mixer. *)
Theorem set_volume_then_read (w : world) (m : alsaaudio.Mixer) (v : Z) :
  audio_mixer (self w) = Some m →
  0 ≤ v ≤ 100 →
  ∃ r w',
    MQTTController.volume_setter (PInt v) w = (r, w') ∧
    MQTTController.volume w' = (Returned v, w').
Proof.
  intros Hm Hv.
  rewrite volume_setter_run, Hm, (setvolume_percentage v m Hv).
  destruct (update_status_keeps_mixer
              (with_mixer w {| alsaaudio.playback_volume := v;
                               alsaaudio.playback_switch := alsaaudio.playback_switch m |})
              _ eq_refl) as (r & w' & Hrun & Hmixer & _).
  exists r, w'. split; [exact Hrun|].
  by rewrite volume_run, Hmixer.
Qed.

Lemma set_volume_then_read_witness :
  let w := example_world 30 false in
  let m := {| alsaaudio.playback_volume := 30;
              alsaaudio.playback_switch := false |} in
  audio_mixer (self w) = Some m ∧
  0 ≤ 77 ≤ 100 ∧
  ∃ r w',
    MQTTController.volume_setter (PInt 77) w = (r, w') ∧
    MQTTController.volume w' = (Returned 77, w').
Proof.
  intros w m.
  split; [reflexivity|]. split; [lia|].
  apply (set_volume_then_read w m 77); [reflexivity|lia].
Defined.

Example set_volume_through_message :
  let '(r, w') := MQTTController.on_message (message "{'volume': 77}")
                    (example_world 30 false) in
  r = Returned tt ∧ fst (MQTTController.volume w') = Returned 77.
Proof. vm_compute. split; reflexivity. Qed.

Lemma volume_step_range cfg s :
  MQTTControllerManager.volume_step cfg = inr s → 1 ≤ s ≤ 100.
Proof.
  unfold MQTTControllerManager.volume_step, between.
  destruct (cfg !! "VOLUME_STEP") as [value|]; [|intros [= <-]; lia].
  destruct (int value) as [e|n]; [done|].
  destruct (Z.leb_spec 1 n), (Z.leb_spec n 100); simpl; intros [= <-]; lia.
Qed.

Lemma volume_step_configured (cfg : gmap string pyobj) s :
  1 ≤ s ≤ 100 →
  cfg !! "VOLUME_STEP" = Some (PInt s) →
  MQTTControllerManager.volume_step cfg = inr s.
Proof.
  intros Hs Hcfg. unfold MQTTControllerManager.volume_step, between.
  rewrite Hcfg; simpl.
  destruct (Z.leb_spec 1 s); [|lia]. destruct (Z.leb_spec s 100); [|lia]. done.
Qed.

Lemma volume_up_run w m s :
  audio_mixer (self w) = Some m →
  MQTTControllerManager.volume_step (config (self w)) = inr s →
  MQTTController.volume_up w
  = MQTTController.volume_setter
      (PInt (Z.min (alsaaudio.playback_volume m + s) 100)) w.
Proof.
  intros Hm Hs. unfold MQTTController.volume_up.
  unfold mbind at 1, M_bind at 1. rewrite volume_run, Hm.
  unfold mbind at 1, M_bind at 1. unfold get_config at 1.
  unfold mbind at 1, M_bind at 1. rewrite Hs. reflexivity.
Qed.

Lemma volume_down_run w m s :
  audio_mixer (self w) = Some m →
  MQTTControllerManager.volume_step (config (self w)) = inr s →
  MQTTController.volume_down w
  = MQTTController.volume_setter
      (PInt (Z.max (alsaaudio.playback_volume m - s) 0)) w.
Proof.
  intros Hm Hs. unfold MQTTController.volume_down.
  unfold mbind at 1, M_bind at 1. rewrite volume_run, Hm.
  unfold mbind at 1, M_bind at 1. unfold get_config at 1.
  unfold mbind at 1, M_bind at 1. rewrite Hs. reflexivity.
Qed.

(** C4.  With the mixer at a volume [v] between 0 and 100 and a configured
    step [s] (which the manager only returns when it is between 1 and
    100), [volume_up] leaves the mixer at [min (v + s) 100] and
    [volume_down] at [max (v - s) 0], which is what the [volume] property
    reads afterwards; both values are between 0 and 100, and the mute
    switch is untouched. *)
Theorem volume_steps_clamp (w : world) (m : alsaaudio.Mixer) (s : Z) :
  audio_mixer (self w) = Some m →
  0 ≤ alsaaudio.playback_volume m ≤ 100 →
  MQTTControllerManager.volume_step (config (self w)) = inr s →
  let v := alsaaudio.playback_volume m in
  let set v' := {| alsaaudio.playback_volume := v';
                   alsaaudio.playback_switch := alsaaudio.playback_switch m |} in
  1 ≤ s ≤ 100 ∧
  (∃ r w', MQTTController.volume_up w = (r, w') ∧
           audio_mixer (self w') = Some (set (Z.min (v + s) 100)) ∧
           MQTTController.volume w' = (Returned (Z.min (v + s) 100), w')) ∧
  (∃ r w', MQTTController.volume_down w = (r, w') ∧
           audio_mixer (self w') = Some (set (Z.max (v - s) 0)) ∧
           MQTTController.volume w' = (Returned (Z.max (v - s) 0), w')) ∧
  0 ≤ Z.min (v + s) 100 ≤ 100 ∧
  0 ≤ Z.max (v - s) 0 ≤ 100.
Proof.
  intros Hm Hv Hs v set.
  pose proof (volume_step_range _ _ Hs) as Hrange.
  assert (0 ≤ Z.min (v + s) 100 ≤ 100) as Hup by (subst v; lia).
  assert (0 ≤ Z.max (v - s) 0 ≤ 100) as Hdown by (subst v; lia).
  repeat split; try lia.
  - rewrite (volume_up_run w m s Hm Hs), volume_setter_run, Hm.
    fold v. rewrite (setvolume_percentage _ m Hup). fold (set (Z.min (v + s) 100)).
    destruct (update_status_keeps_mixer
                (with_mixer w (set (Z.min (v + s) 100))) _ eq_refl)
      as (r & w' & Hrun & Hmixer & _).
    exists r, w'. split; [exact Hrun|]. split; [exact Hmixer|].
    by rewrite volume_run, Hmixer.
  - rewrite (volume_down_run w m s Hm Hs), volume_setter_run, Hm.
    fold v. rewrite (setvolume_percentage _ m Hdown). fold (set (Z.max (v - s) 0)).
    destruct (update_status_keeps_mixer
                (with_mixer w (set (Z.max (v - s) 0))) _ eq_refl)
      as (r & w' & Hrun & Hmixer & _).
    exists r, w'. split; [exact Hrun|]. split; [exact Hmixer|].
    by rewrite volume_run, Hmixer.
Qed.

Lemma volume_steps_clamp_witness :
  let w := example_world 95 false in
  let m := {| alsaaudio.playback_volume := 95;
              alsaaudio.playback_switch := false |} in
  audio_mixer (self w) = Some m ∧
  0 ≤ alsaaudio.playback_volume m ≤ 100 ∧
  MQTTControllerManager.volume_step (config (self w)) = inr 10 ∧
  (∃ r w', MQTTController.volume_up w = (r, w') ∧
           MQTTController.volume w' = (Returned 100, w')) ∧
  (∃ r w', MQTTController.volume_down w = (r, w') ∧
           MQTTController.volume w' = (Returned 85, w')).
Proof.
  intros w m.
  assert (MQTTControllerManager.volume_step (config (self w)) = inr 10) as Hs
    by (vm_compute; reflexivity).
  assert (0 ≤ alsaaudio.playback_volume m ≤ 100) as Hv by (simpl; lia).
  split; [reflexivity|]. split; [exact Hv|]. split; [exact Hs|].
  destruct (volume_steps_clamp w m 10 eq_refl Hv Hs)
    as (_ & (r1 & w1 & H1 & _ & G1) & (r2 & w2 & H2 & _ & G2) & _).
  split; [exists r1, w1|exists r2, w2]; split; assumption.
Defined.

(** The boundaries: from 95 a step of 10 up gives 100, from 5 a step of 10
    down gives 0. *)
Example step_up_at_95 :
  let '(r, w') := MQTTController.on_message (message "{'volumeCtrl': '+'}")
                    (example_world 95 false) in
  r = Returned tt ∧ fst (MQTTController.volume w') = Returned 100.
Proof. vm_compute. split; reflexivity. Qed.

Example step_down_at_5 :
  let '(r, w') := MQTTController.on_message (message "{'volumeCtrl': '-'}")
                    (example_world 5 false) in
  r = Returned tt ∧ fst (MQTTController.volume w') = Returned 0.
Proof. vm_compute. split; reflexivity. Qed.

(** ** Commands *)

Lemma volume_up_cases w :
  MQTTController.volume_up w
  = match audio_mixer (self w) with
    | Some m =>
      match MQTTControllerManager.volume_step (config (self w)) with
      | inr s => MQTTController.volume_setter
                   (PInt (Z.min (alsaaudio.playback_volume m + s) 100)) w
      | inl e => (Raised e, w)
      end
    | None => (Raised AttributeError, w)
    end.
Proof.
  unfold MQTTController.volume_up.
  unfold mbind at 1, M_bind at 1. rewrite volume_run.
  destruct (audio_mixer (self w)) as [m|]; [|reflexivity].
  unfold mbind at 1, M_bind at 1. unfold get_config at 1.
  unfold mbind at 1, M_bind at 1.
  destruct (MQTTControllerManager.volume_step _); reflexivity.
Qed.

Lemma volume_down_cases w :
  MQTTController.volume_down w
  = match audio_mixer (self w) with
    | Some m =>
      match MQTTControllerManager.volume_step (config (self w)) with
      | inr s => MQTTController.volume_setter
                   (PInt (Z.max (alsaaudio.playback_volume m - s) 0)) w
      | inl e => (Raised e, w)
      end
    | None => (Raised AttributeError, w)
    end.
Proof.
  unfold MQTTController.volume_down.
  unfold mbind at 1, M_bind at 1. rewrite volume_run.
  destruct (audio_mixer (self w)) as [m|]; [|reflexivity].
  unfold mbind at 1, M_bind at 1. unfold get_config at 1.
  unfold mbind at 1, M_bind at 1.
  destruct (MQTTControllerManager.volume_step _); reflexivity.
Qed.

Lemma toggle_mute_cases w :
  MQTTController.toggle_mute w
  = match audio_mixer (self w) with
    | Some m => MQTTController.mute_setter
                  (PBool (negb (alsaaudio.playback_switch m))) w
    | None => (Raised AttributeError, w)
    end.
Proof.
  unfold MQTTController.toggle_mute.
  unfold mbind at 1, M_bind at 1. rewrite mute_run.
  destruct (audio_mixer (self w)); reflexivity.
Qed.

Lemma toggle_pause_cases w :
  MQTTController.toggle_pause w
  = match keyboard (self w) with
    | Some k =>
      (Returned tt,
       {| self := {| audio_mixer := audio_mixer (self w);
                     keyboard := Some (pynput.release pynput.space
                                         (pynput.press pynput.space k));
                     mqttc := mqttc (self w);
                     config := config (self w) |};
          log := log w |})
    | None => (Raised AttributeError, w)
    end.
Proof.
  unfold MQTTController.toggle_pause, mbind, M_bind, get_keyboard,
    set_keyboard, update_self.
  destruct (keyboard (self w)); reflexivity.
Qed.

(** With a status topic, setting the mixer and updating the status asks
    for exactly one publish, of the status of the mixer just set. *)
Lemma update_after_set w m' status_topic r w' :
  MQTTControllerManager.status_topic (config (self w)) = inr status_topic →
  MQTTController.update_status (with_mixer w m') = (r, w') →
  r = Returned tt ∧
  audio_mixer (self w') = Some m' ∧
  mqtt.requests (mqttc (self w'))
  = mqtt.requests (mqttc (self w)) ++ [status_request status_topic m'].
Proof.
  intros Ht.
  rewrite (update_status_run (with_mixer w m') m' status_topic eq_refl Ht).
  intros [= <- <-]. done.
Qed.

(** Setting the mixer and updating the status: one request on a status
    topic that is configured, and none, with a warning, when the manager
    refuses the topic with a [ValueError]. *)
Lemma update_after_write_cases w m' r w' :
  MQTTController.update_status (with_mixer w m') = (r, w') →
  r = Returned tt →
  audio_mixer (self w') = Some m' ∧
  match MQTTControllerManager.status_topic (config (self w)) with
  | inr status_topic =>
    mqtt.requests (mqttc (self w'))
    = mqtt.requests (mqttc (self w)) ++ [status_request status_topic m']
  | inl e =>
    isinstance e ValueError_class = true ∧
    mqtt.requests (mqttc (self w')) = mqtt.requests (mqttc (self w)) ∧
    log w' = log w ++ [(logging.WARNING, logging.CannotSendStatus e)]
  end.
Proof.
  destruct (MQTTControllerManager.status_topic (config (self w)))
    as [e|status_topic] eqn:Ht.
  - rewrite (update_status_unconfigured (with_mixer w m') e Ht).
    destruct (isinstance e ValueError_class); [|by intros [= <- <-]].
    intros [= _ <-] _. done.
  - intros H _. by destruct (update_after_set w m' _ r w' Ht H) as (_ & ? & ?).
Qed.

(** C6, as the code has it.  [toggle_pause] never asks the client to
    publish, whether it succeeds or not.  Each of the other commands, when
    it succeeds, has called [update_status] once: on a controller whose
    status topic is configured that is exactly one request to publish, the
    status of the mixer as the command left it, on the status topic; on a
    controller whose status topic the manager refuses with a [ValueError]
    (it is not a non-empty string, as when the environment does not set
    it) the command succeeds all the same, a warning is logged, and
    nothing is asked of the client. *)
Theorem status_publish_per_command
  (c : Command) (w w' : world) (r : outcome unit) :
  execute c w = (r, w') →
  match c with
  | Toggle Pause =>
    mqtt.requests (mqttc (self w')) = mqtt.requests (mqttc (self w))
  | _ =>
    r = Returned tt →
    ∃ m',
      audio_mixer (self w') = Some m' ∧
      match MQTTControllerManager.status_topic (config (self w)) with
      | inr status_topic =>
        mqtt.requests (mqttc (self w'))
        = mqtt.requests (mqttc (self w)) ++ [status_request status_topic m']
      | inl e =>
        isinstance e ValueError_class = true ∧
        mqtt.requests (mqttc (self w')) = mqtt.requests (mqttc (self w)) ∧
        log w' = log w ++ [(logging.WARNING, logging.CannotSendStatus e)]
      end
  end.
Proof.
  set (published (m' : alsaaudio.Mixer) :=
         match MQTTControllerManager.status_topic (config (self w)) with
         | inr status_topic =>
           mqtt.requests (mqttc (self w'))
           = mqtt.requests (mqttc (self w))
             ++ [status_request status_topic m']
         | inl e =>
           isinstance e ValueError_class = true ∧
           mqtt.requests (mqttc (self w')) = mqtt.requests (mqttc (self w)) ∧
           log w' = log w ++ [(logging.WARNING, logging.CannotSendStatus e)]
         end).
  assert (∀ value, MQTTController.volume_setter value w = (r, w') →
          r = Returned tt →
          ∃ m', audio_mixer (self w') = Some m' ∧ published m') as Hvolume.
  { intros value. rewrite volume_setter_run.
    destruct (audio_mixer (self w)) as [m|]; [|by intros [= <- <-]].
    destruct (alsaaudio.setvolume value m) as [e|m']; [by intros [= <- <-]|].
    intros H Hr. exists m'. exact (update_after_write_cases w m' r w' H Hr). }
  assert (∀ value, MQTTController.mute_setter value w = (r, w') →
          r = Returned tt →
          ∃ m', audio_mixer (self w') = Some m' ∧ published m') as Hmute.
  { intros value. rewrite mute_setter_run.
    destruct (audio_mixer (self w)) as [m|]; [|by intros [= <- <-]].
    destruct (alsaaudio.setmute value m) as [e|m']; [by intros [= <- <-]|].
    intros H Hr. exists m'. exact (update_after_write_cases w m' r w' H Hr). }
  destruct c as [v|[]|b|[]]; simpl.
  - apply Hvolume.
  - rewrite volume_up_cases.
    destruct (audio_mixer (self w)) as [m|]; [|by intros [= <- <-]].
    destruct (MQTTControllerManager.volume_step _) as [e|s];
      [by intros [= <- <-]|apply Hvolume].
  - rewrite volume_down_cases.
    destruct (audio_mixer (self w)) as [m|]; [|by intros [= <- <-]].
    destruct (MQTTControllerManager.volume_step _) as [e|s];
      [by intros [= <- <-]|apply Hvolume].
  - apply Hmute.
  - rewrite toggle_mute_cases.
    destruct (audio_mixer (self w)) as [m|]; [|by intros [= <- <-]].
    apply Hmute.
  - rewrite toggle_pause_cases.
    destruct (keyboard (self w)); by intros [= <- <-].
Qed.

Lemma status_publish_per_command_witness :
  let w := example_world 30 false in
  let m' := {| alsaaudio.playback_volume := 30;
               alsaaudio.playback_switch := true |} in
  let w' := logged (requested (with_mixer w m')
                      (status_request "desktop/status" m'))
              [(logging.INFO, logging.StatusAccepted 1)] in
  execute (Toggle Mute) w = (Returned tt, w') ∧
  MQTTControllerManager.status_topic (config (self w)) = inr "desktop/status" ∧
  (Returned tt = Returned tt →
   ∃ m', audio_mixer (self w') = Some m' ∧
         mqtt.requests (mqttc (self w'))
         = mqtt.requests (mqttc (self w))
           ++ [status_request "desktop/status" m']).
Proof.
  intros w m' w'.
  assert (execute (Toggle Mute) w = (Returned tt, w')) as H
    by (vm_compute; reflexivity).
  split; [exact H|]. split; [vm_compute; reflexivity|].
  exact (status_publish_per_command (Toggle Mute) w w' (Returned tt) H).
Defined.

(** The claim as the specification states it fails on a controller
    configured as the main program does in an environment that does not
    set [MQTT_STATUS_TOPIC]: setting the volume to 50 succeeds, the mixer
    is at 50, and no publish was asked of the client. *)
Lemma unset_status_topic_publishes_nothing :
  let w := {| self := {| audio_mixer := Some {| alsaaudio.playback_volume := 30;
                                                alsaaudio.playback_switch := false |};
                         keyboard := Some {| pynput.sent := [] |};
                         mqttc := accepting;
                         config := configured ∅ |};
              log := [] |} in
  let w' := snd (execute (SetVolume 50) w) in
  execute (SetVolume 50) w = (Returned tt, w') ∧
  audio_mixer (self w')
  = Some {| alsaaudio.playback_volume := 50;
            alsaaudio.playback_switch := false |} ∧
  mqtt.requests (mqttc (self w')) = [] ∧
  ¬ (∀ (c : Command) (w w' : world) (r : outcome unit),
       execute c w = (r, w') →
       c ≠ Toggle Pause →
       r = Returned tt →
       ∃ request,
         mqtt.requests (mqttc (self w'))
         = mqtt.requests (mqttc (self w)) ++ [request]).
Proof.
  intros w w'.
  assert (execute (SetVolume 50) w = (Returned tt, w')) as H
    by (vm_compute; reflexivity).
  assert (mqtt.requests (mqttc (self w')) = []) as Hnone
    by (vm_compute; reflexivity).
  split; [exact H|]. split; [vm_compute; reflexivity|]. split; [exact Hnone|].
  intros Hclaim.
  destruct (Hclaim (SetVolume 50) w w' (Returned tt) H) as [request Hreq];
    [discriminate|reflexivity|].
  rewrite Hnone in Hreq. simpl in Hreq. discriminate.
Qed.

(** Each command on the example controller: one request for all but
    pause, which presses and releases the space bar instead. *)
Example publishes_per_command :
  map (λ c, length (mqtt.requests
                      (mqttc (self (snd (execute c (example_world 30 false)))))))
      [SetVolume 50; StepVolume Up; StepVolume Down; SetMute true;
       Toggle Mute; Toggle Pause]
  = [1; 1; 1; 1; 1; 0]%nat.
Proof. vm_compute. reflexivity. Qed.

Example pause_presses_space :
  keyboard (self (snd (execute (Toggle Pause) (example_world 30 false))))
  = Some {| pynput.sent := [pynput.Pressed pynput.space;
                            pynput.Released pynput.space] |}.
Proof. vm_compute. reflexivity. Qed.

(** * The configuration manager *)

(** ** Decimal strings *)

Lemma int_digits_uint d : ∀ acc b,
  b = true ∨ d ≠ Decimal.Nil →
  int_digits acc b (NilEmpty.string_of_uint d) = Some (uint_value acc d).
Proof.
  induction d; intros acc b Hb; simpl;
    try (apply IHd; by left).
  destruct Hb as [->|]; done.
Qed.

Lemma uint_value_acc d : ∀ acc : positive,
  uint_value (Z.pos acc) d = Z.pos (Pos.of_uint_acc d acc).
Proof.
  induction d; intros acc; simpl; try done;
    rewrite <- IHd; f_equal; lia.
Qed.

Lemma uint_value_of_uint d : uint_value 0 d = Z.of_N (Pos.of_uint d).
Proof.
  induction d; simpl; try done;
    match goal with
    | |- uint_value ?k _ = _ => change k with (Z.pos (Z.to_pos k))
    end; by rewrite uint_value_acc.
Qed.

Lemma lstrip_digits d :
  d ≠ Decimal.Nil →
  ∃ c r, NilEmpty.string_of_uint d = String c r ∧ json.is_digit c = true.
Proof. destruct d; intros H; try done; simpl; eauto. Qed.

Lemma is_digit_plain c :
  json.is_digit c = true →
  is_space c = false ∧ Ascii.eqb c "-" = false ∧ Ascii.eqb c "+" = false.
Proof.
  unfold json.is_digit, is_space, between, ord.
  destruct c as [[] [] [] [] [] [] [] []]; vm_compute; try done.
Qed.

Lemma to_uint_nonnil p : Pos.to_uint p ≠ Decimal.Nil.
Proof.
  intros H. pose proof (DecimalPos.Unsigned.of_to p) as Hp.
  rewrite H in Hp. done.
Qed.

Lemma int_of_uint d :
  d ≠ Decimal.Nil →
  int (PStr (NilEmpty.string_of_uint d)) = inr (Z.of_N (Pos.of_uint d)).
Proof.
  intros Hd. destruct (lstrip_digits d Hd) as (c & r & Hs & Hc).
  destruct (is_digit_plain c Hc) as (Hsp & Hm & Hp).
  unfold int. rewrite Hs. simpl lstrip. rewrite Hsp, Hm, Hp. rewrite <- Hs.
  rewrite int_digits_uint by (by right). by rewrite uint_value_of_uint.
Qed.

Lemma string_of_pos p :
  NilZero.string_of_uint (Pos.to_uint p)
  = NilEmpty.string_of_uint (Pos.to_uint p).
Proof.
  pose proof (to_uint_nonnil p) as Hp.
  unfold NilZero.string_of_uint. by destruct (Pos.to_uint p).
Qed.

(** [int(str(n))] is [n]. *)
Lemma int_of_decimal (n : Z) : int (PStr (json.int_repr n)) = inr n.
Proof.
  unfold json.int_repr. destruct n as [|p|p]; [reflexivity| |].
  - simpl Z.to_int. unfold NilZero.string_of_int. rewrite string_of_pos.
    rewrite int_of_uint by apply to_uint_nonnil.
    by rewrite DecimalPos.Unsigned.of_to.
  - simpl Z.to_int. unfold NilZero.string_of_int. rewrite string_of_pos.
    unfold int. simpl.
    rewrite int_digits_uint by (right; apply to_uint_nonnil).
    rewrite uint_value_of_uint, DecimalPos.Unsigned.of_to. reflexivity.
Qed.

(** ** The settings *)

Ltac prove_required key :=
  let cfg := fresh "cfg" in
  intros cfg;
  destruct (cfg !! key) as [v|]; simpl;
  [ split;
    [ intros s; destruct v as [| | | |t| |];
      try (split; [done|by intros [[=] ?]]);
      destruct (String.eqb_spec t ""); simpl;
      [ split; [done|]; intros [[= ->] ?]; done
      | split; [by intros [= <-]|by intros [[= <-] ?]] ]
    | intros e; destruct v as [| | | |t| |]; try (by intros [= <-]);
      destruct (String.eqb_spec t ""); simpl; [by intros [= <-]|done] ]
  | split; [intros s; split; [done|by intros [? ?]]|by intros e [= <-]] ].

Ltac prove_optional key :=
  let cfg := fresh "cfg" in
  intros cfg;
  destruct (cfg !! key) as [[| | | |t| |]|]; simpl;
  (split; [|split]);
  first [ done
        | by intros ? [= <-]
        | intros s; split; [by intros [= <-]|by intros [= <-]]
        | intros s; split; done
        | split; done ].

(** X1.  [broker], [control_topic] and [status_topic] return the value
    under their key exactly when it is a non-empty string; a missing key
    is a [KeyError], and a value that is not a string or is the empty
    string is a [ValueError]. *)
Theorem required_settings :
  required_string MQTTControllerManager.broker "MQTT_BROKER_ADDR" ∧
  required_string MQTTControllerManager.control_topic "MQTT_CONTROL_TOPIC" ∧
  required_string MQTTControllerManager.status_topic "MQTT_STATUS_TOPIC".
Proof.
  split; [|split].
  - unfold required_string, MQTTControllerManager.broker.
    prove_required "MQTT_BROKER_ADDR".
  - unfold required_string, MQTTControllerManager.control_topic.
    prove_required "MQTT_CONTROL_TOPIC".
  - unfold required_string, MQTTControllerManager.status_topic.
    prove_required "MQTT_STATUS_TOPIC".
Qed.

(** X2.  [user] and [password] return [None] exactly when their key is
    missing, return the value under it exactly when it is a string (the
    empty string is accepted), and the only exception they raise is
    [ValueError], for a value that is no string. *)
Theorem optional_credentials :
  optional_string MQTTControllerManager.user "MQTT_BROKER_USER" ∧
  optional_string MQTTControllerManager.password "MQTT_BROKER_PWD".
Proof.
  split.
  - unfold optional_string, MQTTControllerManager.user.
    prove_optional "MQTT_BROKER_USER".
  - unfold optional_string, MQTTControllerManager.password.
    prove_optional "MQTT_BROKER_PWD".
Qed.

Lemma between_spec lo hi x : between lo hi x = true ↔ lo ≤ x ≤ hi.
Proof. unfold between. rewrite andb_true_iff, !Z.leb_le. done. Qed.

(** X3.  [volume_step] is 10 when [VOLUME_STEP] is missing; an integer is
    returned when it is between 1 and 100 and is a [ValueError] otherwise;
    [None] is a [TypeError] and the empty string a [ValueError] of [int];
    whatever is returned is between 1 and 100. *)
Theorem volume_step_setting (cfg : gmap string pyobj) :
  (cfg !! "VOLUME_STEP" = None →
   MQTTControllerManager.volume_step cfg = inr 10) ∧
  (∀ n, cfg !! "VOLUME_STEP" = Some (PInt n) →
        MQTTControllerManager.volume_step cfg
        = if between 1 100 n then inr n
          else inl (ValueError (BadConfiguration "VOLUME_STEP"))) ∧
  (cfg !! "VOLUME_STEP" = Some PNone →
   MQTTControllerManager.volume_step cfg = inl TypeError) ∧
  (cfg !! "VOLUME_STEP" = Some (PStr "") →
   MQTTControllerManager.volume_step cfg = inl (ValueError (InvalidLiteral ""))) ∧
  (∀ s, MQTTControllerManager.volume_step cfg = inr s → 1 ≤ s ≤ 100).
Proof.
  unfold MQTTControllerManager.volume_step.
  repeat split; try (intros; by apply (volume_step_range cfg)).
  - by intros ->.
  - by intros n ->.
  - by intros ->.
  - by intros ->.
Qed.

(** X4.  [status_update_delay] is [None] when [STATUS_UPDATE_DELAY] is
    missing; an integer is returned when it is not negative (0 included)
    and is a [ValueError] otherwise; [None] as a value is a [TypeError];
    whatever delay is returned is not negative. *)
Theorem status_update_delay_setting (cfg : gmap string pyobj) :
  (cfg !! "STATUS_UPDATE_DELAY" = None →
   MQTTControllerManager.status_update_delay cfg = inr None) ∧
  (∀ n, cfg !! "STATUS_UPDATE_DELAY" = Some (PInt n) →
        MQTTControllerManager.status_update_delay cfg
        = if 0 <=? n then inr (Some n)
          else inl (ValueError (BadConfiguration "STATUS_UPDATE_DELAY"))) ∧
  (cfg !! "STATUS_UPDATE_DELAY" = Some PNone →
   MQTTControllerManager.status_update_delay cfg = inl TypeError) ∧
  (∀ d, MQTTControllerManager.status_update_delay cfg = inr (Some d) → 0 ≤ d).
Proof.
  unfold MQTTControllerManager.status_update_delay.
  repeat split.
  - by intros ->.
  - by intros n ->.
  - by intros ->.
  - intros d. destruct (cfg !! "STATUS_UPDATE_DELAY") as [v|]; [|done].
    destruct (int v) as [e|n]; [done|].
    destruct (Z.leb_spec 0 n); [|done]. intros [= <-]. done.
Qed.

(** X5.  The numeric settings may be given as text: with the decimal
    string of [n] under its key, [port] returns [n], and [volume_step] and
    [status_update_delay] do just what they do with the integer [n]
    there. *)
Theorem numeric_settings_from_strings (n : Z) (cfg cfg' : gmap string pyobj) :
  (cfg !! "MQTT_BROKER_PORT" = Some (PStr (json.int_repr n)) →
   MQTTControllerManager.port cfg = inr n) ∧
  (cfg !! "VOLUME_STEP" = Some (PStr (json.int_repr n)) →
   cfg' !! "VOLUME_STEP" = Some (PInt n) →
   MQTTControllerManager.volume_step cfg = MQTTControllerManager.volume_step cfg') ∧
  (cfg !! "STATUS_UPDATE_DELAY" = Some (PStr (json.int_repr n)) →
   cfg' !! "STATUS_UPDATE_DELAY" = Some (PInt n) →
   MQTTControllerManager.status_update_delay cfg
   = MQTTControllerManager.status_update_delay cfg').
Proof.
  unfold MQTTControllerManager.port, MQTTControllerManager.volume_step,
    MQTTControllerManager.status_update_delay.
  repeat split.
  - intros ->. apply int_of_decimal.
  - intros -> ->. by rewrite int_of_decimal.
  - intros -> ->. by rewrite int_of_decimal.
Qed.

(** ** Loading an object *)

(** After [from_object] a key holds the attribute of that name when the
    name is upper case, and what it held before otherwise. *)
Lemma from_object_get (obj self : gmap string pyobj) (k : string) :
  MQTTControllerManager.from_object obj self !! k
  = match obj !! k with
    | Some v => if isupper k then Some v else self !! k
    | None => self !! k
    end.
Proof.
  unfold MQTTControllerManager.from_object.
  apply (map_fold_weak_ind
           (λ r (m : gmap string pyobj),
              r !! k = match m !! k with
                       | Some v => if isupper k then Some v else self !! k
                       | None => self !! k
                       end)).
  - by rewrite lookup_empty.
  - intros key value m r Hkey IH.
    destruct (decide (key = k)) as [->|Hne].
    + rewrite lookup_insert_eq.
      destruct (isupper k); [by rewrite lookup_insert_eq|].
      by rewrite IH, Hkey.
    + rewrite lookup_insert_ne by done.
      destruct (isupper key); [by rewrite lookup_insert_ne|done].
Qed.

(** X6.  [from_object] copies the attributes with an upper-case name and
    nothing else: afterwards a key holds the attribute of that name when
    the object has one and the name is upper case, and what it held before
    otherwise.  Loading the same object twice is loading it once, and what
    an empty configuration holds afterwards are upper-case attributes of
    the object. *)
Theorem from_object_copies_upper_case (obj self : gmap string pyobj) :
  (∀ k, MQTTControllerManager.from_object obj self !! k
        = match obj !! k with
          | Some v => if isupper k then Some v else self !! k
          | None => self !! k
          end) ∧
  MQTTControllerManager.from_object obj
    (MQTTControllerManager.from_object obj self)
  = MQTTControllerManager.from_object obj self ∧
  (∀ k v, MQTTControllerManager.from_object obj ∅ !! k = Some v →
          isupper k = true ∧ obj !! k = Some v).
Proof.
  split; [apply from_object_get|]. split.
  - apply map_eq. intros k. rewrite !from_object_get.
    destruct (obj !! k); [|done]. by destruct (isupper k).
  - intros k v. rewrite from_object_get, lookup_empty.
    destruct (obj !! k); [|done]. by destruct (isupper k).
Qed.

(** ** The configuration of the main program *)

Ltac config_lookup :=
  unfold configured; rewrite from_object_get, lookup_empty;
  unfold config.Config; simpl list_to_map;
  repeat first [ rewrite lookup_insert_eq
               | rewrite lookup_insert_ne by done
               | rewrite lookup_empty ];
  try reflexivity.

Lemma configured_set environ k :
  k ∈ ["MQTT_BROKER_ADDR"; "MQTT_BROKER_PORT"; "MQTT_BROKER_USER";
       "MQTT_BROKER_PWD"; "MQTT_CONTROL_TOPIC"; "MQTT_STATUS_TOPIC"] →
  configured environ !! k = Some (config.environ_get environ k).
Proof.
  intros Hk. repeat (apply elem_of_cons in Hk as [->|Hk]); [..|by apply elem_of_nil in Hk];
    config_lookup.
Qed.

Lemma configured_unset environ k :
  k ∈ ["VOLUME_STEP"; "STATUS_UPDATE_DELAY"; "DEBUG"] →
  configured environ !! k = None.
Proof.
  intros Hk. repeat (apply elem_of_cons in Hk as [->|Hk]); [..|by apply elem_of_nil in Hk];
    config_lookup.
Qed.

(** X7.  The class [Config] has no [VOLUME_STEP], [STATUS_UPDATE_DELAY]
    or [DEBUG] attribute, so under every environment the configuration
    that the main program loads has a volume step of 10, no periodic
    status update, and debug off. *)
Theorem environment_cannot_set_defaults (environ : gmap string string) :
  MQTTControllerManager.volume_step (configured environ) = inr 10 ∧
  MQTTControllerManager.status_update_delay (configured environ) = inr None ∧
  MQTTControllerManager.debug (configured environ) = false.
Proof.
  unfold MQTTControllerManager.volume_step,
    MQTTControllerManager.status_update_delay, MQTTControllerManager.debug.
  rewrite !configured_unset by set_solver. done.
Qed.

(** X8.  [Config] reads the credentials with [os.environ.get], which gives
    [None] for a variable that is not set, and [from_object] stores that
    [None]: in the configuration that the main program loads, [user] and
    [password] return the value of their variable when it is set and raise
    [ValueError] when it is not; they never return [None]. *)
Theorem credentials_from_environment (environ : gmap string string) :
  MQTTControllerManager.user (configured environ)
  = match environ !! "MQTT_BROKER_USER" with
    | Some name => inr (Some name)
    | None => inl (ValueError (BadConfiguration "MQTT_BROKER_USER"))
    end ∧
  MQTTControllerManager.password (configured environ)
  = match environ !! "MQTT_BROKER_PWD" with
    | Some pwd => inr (Some pwd)
    | None => inl (ValueError (BadConfiguration "MQTT_BROKER_PWD"))
    end.
Proof.
  unfold MQTTControllerManager.user, MQTTControllerManager.password.
  rewrite !configured_set by set_solver. unfold config.environ_get.
  split.
  - by destruct (environ !! "MQTT_BROKER_USER").
  - by destruct (environ !! "MQTT_BROKER_PWD").
Qed.

Lemma status_topic_from_environment (environ : gmap string string) :
  MQTTControllerManager.status_topic (configured environ)
  = match environ !! "MQTT_STATUS_TOPIC" with
    | Some topic =>
      if negb (String.eqb topic "") then inr topic
      else inl (ValueError (BadConfiguration "MQTT_STATUS_TOPIC"))
    | None => inl (ValueError (BadConfiguration "MQTT_STATUS_TOPIC"))
    end.
Proof.
  unfold MQTTControllerManager.status_topic.
  rewrite !configured_set by set_solver. unfold config.environ_get.
  by destruct (environ !! "MQTT_STATUS_TOPIC").
Qed.

(** X9.  Under the configuration that the main program loads, and with a
    mixer to read, [update_status] always returns: it asks for one publish
    of the status on the topic named by [MQTT_STATUS_TOPIC] when that
    variable is set and not empty, and for none otherwise (the
    [ValueError] of the manager is caught). *)
Theorem status_update_under_environment
  (w : world) (m : alsaaudio.Mixer) (environ : gmap string string) :
  audio_mixer (self w) = Some m →
  config (self w) = configured environ →
  ∃ w', MQTTController.update_status w = (Returned tt, w') ∧
        mqtt.requests (mqttc (self w'))
        = mqtt.requests (mqttc (self w))
          ++ match environ !! "MQTT_STATUS_TOPIC" with
             | Some topic =>
               if negb (String.eqb topic "") then [status_request topic m] else []
             | None => []
             end.
Proof.
  intros Hm Hcfg.
  pose proof (status_topic_from_environment environ) as Ht.
  rewrite <- Hcfg in Ht.
  destruct (environ !! "MQTT_STATUS_TOPIC") as [topic|].
  - destruct (negb (String.eqb topic "")).
    + rewrite (update_status_run w m topic Hm Ht). eauto.
    + rewrite (update_status_unconfigured w _ Ht). simpl.
      eexists; split; [reflexivity|]. simpl. by rewrite app_nil_r.
  - rewrite (update_status_unconfigured w _ Ht). simpl.
    eexists; split; [reflexivity|]. simpl. by rewrite app_nil_r.
Qed.

Lemma status_update_under_environment_witness :
  let environ : gmap string string :=
    {[ "MQTT_STATUS_TOPIC" := "desktop/status" ]} in
  let m := {| alsaaudio.playback_volume := 30;
              alsaaudio.playback_switch := false |} in
  let w := {| self := {| audio_mixer := Some m; keyboard := None;
                         mqttc := accepting; config := configured environ |};
              log := [] |} in
  audio_mixer (self w) = Some m ∧
  config (self w) = configured environ ∧
  ∃ w', MQTTController.update_status w = (Returned tt, w') ∧
        mqtt.requests (mqttc (self w'))
        = [status_request "desktop/status" m].
Proof.
  intros environ m w.
  split; [reflexivity|]. split; [reflexivity|].
  exact (status_update_under_environment w m environ eq_refl eq_refl).
Defined.

(** * What a message can do to the controller *)

Lemma effectful_keeps_self {A} (c : M A) : keeps_self c → effectful c.
Proof. intros Hc w r w' H. apply effect_nothing. exact (Hc _ _ _ H). Qed.

Lemma effectful_bind {A B} (c : M A) (f : A → M B) :
  keeps_self c → (∀ a, effectful (f a)) → effectful (c ≫= f).
Proof.
  intros Hc Hf w r w' H.
  destruct (bind_inv _ _ _ _ _ H) as [(a & w1 & H1 & H2)|(e & H1 & _)].
  - rewrite <- (Hc _ _ _ H1). exact (Hf a w1 r w' H2).
  - apply effect_nothing. exact (Hc _ _ _ H1).
Qed.

Lemma update_after_write w m m' r w' :
  audio_mixer (self w) = Some m →
  (alsaaudio.playback_switch m' = alsaaudio.playback_switch m ∧
   0 ≤ alsaaudio.playback_volume m' ≤ 100
   ∨ alsaaudio.playback_volume m' = alsaaudio.playback_volume m) →
  MQTTController.update_status (with_mixer w m') = (r, w') →
  effect (self w) (self w').
Proof.
  intros Hm Hrel.
  destruct (MQTTControllerManager.status_topic (config (self w)))
    as [e|status_topic] eqn:Ht.
  - rewrite (update_status_unconfigured (with_mixer w m') e Ht).
    intros H.
    assert (self w' = self (with_mixer w m')) as ->
      by (destruct (isinstance e ValueError_class); by injection H as _ <-).
    eapply (effect_mixer _ _ m m' []); simpl; eauto. by rewrite app_nil_r.
  - rewrite (update_status_run (with_mixer w m') m' status_topic eq_refl Ht).
    intros [= _ <-].
    eapply (effect_mixer _ _ m m' [status_request status_topic m']);
      simpl; eauto.
Qed.

Lemma setvolume_inv value m m' :
  alsaaudio.setvolume value m = inr m' →
  alsaaudio.playback_switch m' = alsaaudio.playback_switch m ∧
  0 ≤ alsaaudio.playback_volume m' ≤ 100.
Proof.
  unfold alsaaudio.setvolume.
  destruct value as [|b|z| | | |]; try done;
    match goal with
    | |- context [between 0 100 ?v] =>
      destruct (between 0 100 v) eqn:Hb; [|done];
      apply between_spec in Hb; by intros [= <-]
    end.
Qed.

Lemma setmute_inv value m m' :
  alsaaudio.setmute value m = inr m' →
  alsaaudio.playback_volume m' = alsaaudio.playback_volume m.
Proof.
  unfold alsaaudio.setmute.
  destruct value as [|b|z| | | |]; try done; by intros [= <-].
Qed.

Lemma effectful_volume_setter value :
  effectful (MQTTController.volume_setter value).
Proof.
  intros w r w'. rewrite volume_setter_run.
  destruct (audio_mixer (self w)) as [m|] eqn:Hm;
    [|intros [= _ <-]; by apply effect_nothing].
  destruct (alsaaudio.setvolume value m) as [e|m'] eqn:Hset;
    [intros [= _ <-]; by apply effect_nothing|].
  apply (update_after_write w m m'); [done|].
  left. by apply (setvolume_inv value).
Qed.

Lemma effectful_mute_setter value :
  effectful (MQTTController.mute_setter value).
Proof.
  intros w r w'. rewrite mute_setter_run.
  destruct (audio_mixer (self w)) as [m|] eqn:Hm;
    [|intros [= _ <-]; by apply effect_nothing].
  destruct (alsaaudio.setmute value m) as [e|m'] eqn:Hset;
    [intros [= _ <-]; by apply effect_nothing|].
  apply (update_after_write w m m'); [done|].
  right. by apply (setmute_inv value).
Qed.

Lemma effectful_volume_up : effectful MQTTController.volume_up.
Proof.
  intros w r w'. rewrite volume_up_cases.
  destruct (audio_mixer (self w)) as [m|];
    [|intros [= _ <-]; by apply effect_nothing].
  destruct (MQTTControllerManager.volume_step _);
    [intros [= _ <-]; by apply effect_nothing|].
  apply effectful_volume_setter.
Qed.

Lemma effectful_volume_down : effectful MQTTController.volume_down.
Proof.
  intros w r w'. rewrite volume_down_cases.
  destruct (audio_mixer (self w)) as [m|];
    [|intros [= _ <-]; by apply effect_nothing].
  destruct (MQTTControllerManager.volume_step _);
    [intros [= _ <-]; by apply effect_nothing|].
  apply effectful_volume_setter.
Qed.

Lemma effectful_toggle_mute : effectful MQTTController.toggle_mute.
Proof.
  intros w r w'. rewrite toggle_mute_cases.
  destruct (audio_mixer (self w)) as [m|];
    [|intros [= _ <-]; by apply effect_nothing].
  apply effectful_mute_setter.
Qed.

Lemma effectful_toggle_pause : effectful MQTTController.toggle_pause.
Proof.
  intros w r w'. rewrite toggle_pause_cases.
  destruct (keyboard (self w)) as [k|] eqn:Hk;
    [|intros [= _ <-]; by apply effect_nothing].
  intros [= _ <-]. by apply (effect_keys _ _ k).
Qed.

Ltac effect_step :=
  match goal with
  | |- effectful (_ ≫= _) =>
    apply effectful_bind; [by auto with effects|intros ?]
  | |- effectful (if ?b then _ else _) => destruct b
  | |- effectful (raise _) => apply effectful_keeps_self, keeps_self_raise
  | |- effectful _ =>
    first [ apply effectful_volume_setter | apply effectful_mute_setter
          | apply effectful_volume_up | apply effectful_volume_down
          | apply effectful_toggle_mute | apply effectful_toggle_pause ]
  end.

Lemma effectful_dispatch payload : effectful (dispatch payload).
Proof. unfold dispatch; repeat effect_step. Qed.

Lemma handle_message_effect msg w r w' :
  MQTTController.handle_message msg w = (r, w') →
  effect (self w) (self w') ∧ ∃ records, log w' = log w ++ records.
Proof.
  destruct (parsed msg) as [e|payload] eqn:Hp.
  - rewrite (handle_message_unparsed msg e w Hp). intros [= _ <-].
    split; [by apply effect_nothing|]. exists []. by rewrite app_nil_r.
  - rewrite (handle_message_parsed msg payload w Hp). intros H.
    split; [exact (effectful_dispatch payload _ _ _ H)|].
    destruct (uniform_dispatch payload (self w)) as (r0 & s' & records & Hu).
    unfold logged in H. rewrite Hu in H. injection H as _ <-.
    simpl. rewrite <- app_assoc. eauto.
Qed.

(** Whatever the payload, [on_message] returns, its effect on the
    controller is one of the three, and it only adds to the log. *)
Lemma on_message_effect msg w r w' :
  MQTTController.on_message msg w = (r, w') →
  r = Returned tt ∧ effect (self w) (self w') ∧
  ∃ records, log w' = log w ++ records.
Proof.
  intros H.
  destruct (MQTTController.handle_message msg w) as [[[]|e] w1] eqn:Hh.
  - destruct (handle_message_effect _ _ _ _ Hh) as [He Hl].
    unfold MQTTController.on_message, try_except in H. rewrite Hh in H.
    by injection H as <- <-.
  - destruct (handle_message_effect _ _ _ _ Hh) as [He [records Hl]].
    destruct (on_message_after_raise msg w e w1 Hh) as (m & Hon & _).
    rewrite Hon in H. injection H as <- <-.
    split; [done|]. split; [done|].
    exists (records ++ [(logging.ERROR, m)]). simpl.
    by rewrite Hl, app_assoc.
Qed.

(** X10.  No message takes the volume out of range: if the mixer, when
    there is one, holds a volume between 0 and 100 before [on_message],
    it does so afterwards, whatever the payload. *)
Theorem message_keeps_volume_in_range
  (msg : mqtt.MQTTMessage) (w w' : world) (r : outcome unit) :
  MQTTController.on_message msg w = (r, w') →
  (∀ m, audio_mixer (self w) = Some m →
        0 ≤ alsaaudio.playback_volume m ≤ 100) →
  ∀ m', audio_mixer (self w') = Some m' →
        0 ≤ alsaaudio.playback_volume m' ≤ 100.
Proof.
  intros H Hrange m' Hm'.
  destruct (on_message_effect msg w r w' H) as (_ & Heffect & _).
  destruct Heffect as [Hsame|m m0 published Hm Hm0 Hrel _ _ _ _ _|k _ Hs].
  - rewrite Hsame in Hm'. eauto.
  - rewrite Hm0 in Hm'. injection Hm' as <-.
    destruct Hrel as [[_ ?]|Hv]; [done|]. rewrite Hv. eauto.
  - rewrite Hs in Hm'. simpl in Hm'. eauto.
Qed.

Lemma message_keeps_volume_in_range_witness :
  let msg := message "{'volumeCtrl': '+'}" in
  let w := example_world 95 false in
  let w' := snd (MQTTController.on_message msg w) in
  MQTTController.on_message msg w = (Returned tt, w') ∧
  (∀ m, audio_mixer (self w) = Some m →
        0 ≤ alsaaudio.playback_volume m ≤ 100) ∧
  (∀ m', audio_mixer (self w') = Some m' →
         0 ≤ alsaaudio.playback_volume m' ≤ 100).
Proof.
  intros msg w w'.
  assert (MQTTController.on_message msg w = (Returned tt, w')) as H
    by (vm_compute; reflexivity).
  assert (∀ m, audio_mixer (self w) = Some m →
               0 ≤ alsaaudio.playback_volume m ≤ 100) as Hrange
    by (intros m [= <-]; simpl; lia).
  split; [exact H|]. split; [exact Hrange|].
  exact (message_keeps_volume_in_range msg w w' (Returned tt) H Hrange).
Defined.

(** X11.  Whatever the payload, [on_message] asks the client for no
    publish or for exactly one, and that one is on the configured status
    topic, not retained, with qos 0, and carries the volume and the mute
    flag of the mixer as the message left it. *)
Theorem message_publishes_at_most_once
  (msg : mqtt.MQTTMessage) (w w' : world) (r : outcome unit) :
  MQTTController.on_message msg w = (r, w') →
  mqtt.requests (mqttc (self w')) = mqtt.requests (mqttc (self w)) ∨
  ∃ status_topic m',
    MQTTControllerManager.status_topic (config (self w)) = inr status_topic ∧
    audio_mixer (self w') = Some m' ∧
    mqtt.requests (mqttc (self w'))
    = mqtt.requests (mqttc (self w))
      ++ [{| mqtt.topic := status_topic;
             mqtt.payload :=
               json.dumps (PDict [("volume", PInt (alsaaudio.playback_volume m'));
                                  ("mute", PBool (alsaaudio.playback_switch m'))]);
             mqtt.qos := 0;
             mqtt.retain := false |}].
Proof.
  intros H.
  destruct (on_message_effect msg w r w' H) as (_ & Heffect & _).
  destruct Heffect as [->|m m0 published _ Hm0 _ _ _ _ Hreq Hpub|k _ ->].
  - by left.
  - destruct Hpub as [->|(t & Ht & ->)].
    + left. by rewrite Hreq, app_nil_r.
    + right. exists t, m0. done.
  - by left.
Qed.

Lemma message_publishes_at_most_once_witness :
  let msg := message "{'mute': true}" in
  let w := example_world 30 false in
  let w' := snd (MQTTController.on_message msg w) in
  MQTTController.on_message msg w = (Returned tt, w') ∧
  mqtt.requests (mqttc (self w'))
  = [{| mqtt.topic := "desktop/status";
        mqtt.payload := json_text "{'volume': 30, 'mute': true}";
        mqtt.qos := 0; mqtt.retain := false |}] ∧
  (mqtt.requests (mqttc (self w')) = mqtt.requests (mqttc (self w)) ∨
   ∃ status_topic m',
     MQTTControllerManager.status_topic (config (self w)) = inr status_topic ∧
     audio_mixer (self w') = Some m' ∧
     mqtt.requests (mqttc (self w'))
     = mqtt.requests (mqttc (self w))
       ++ [{| mqtt.topic := status_topic;
              mqtt.payload :=
                json.dumps (PDict [("volume", PInt (alsaaudio.playback_volume m'));
                                   ("mute", PBool (alsaaudio.playback_switch m'))]);
              mqtt.qos := 0;
              mqtt.retain := false |}]).
Proof.
  intros msg w w'.
  assert (MQTTController.on_message msg w = (Returned tt, w')) as H
    by (vm_compute; reflexivity).
  split; [exact H|]. split; [vm_compute; reflexivity|].
  exact (message_publishes_at_most_once msg w w' (Returned tt) H).
Defined.

(** X12.  Whatever the payload, [on_message] leaves the configuration and
    the connection alone, only adds to the log, to the requests made of
    the client and to the keys sent by the keyboard, and neither creates
    nor drops the mixer. *)
Theorem message_only_appends
  (msg : mqtt.MQTTMessage) (w w' : world) (r : outcome unit) :
  MQTTController.on_message msg w = (r, w') →
  config (self w') = config (self w) ∧
  mqtt.answer (mqttc (self w')) = mqtt.answer (mqttc (self w)) ∧
  (∃ records, log w' = log w ++ records) ∧
  (∃ published,
     mqtt.requests (mqttc (self w')) = mqtt.requests (mqttc (self w)) ++ published) ∧
  keys_appended (self w) (self w') ∧
  (is_Some (audio_mixer (self w')) ↔ is_Some (audio_mixer (self w))).
Proof.
  intros H.
  destruct (on_message_effect msg w r w' H) as (_ & Heffect & Hlog).
  assert (∀ s, keys_appended s s) as Hrefl.
  { intros s. unfold keys_appended. destruct (keyboard s); [|done].
    exists []. by rewrite app_nil_r. }
  destruct Heffect as [->|m m0 published Hm Hm0 _ Hk Hc Ha Hreq _|k Hk ->].
  - repeat split; try done. exists []. by rewrite app_nil_r.
  - repeat split; try done; eauto.
    all: first [ by (unfold keys_appended; rewrite Hk; apply Hrefl)
               | by rewrite Hm | by rewrite Hm0 ].
  - simpl. repeat split; try done.
    + exists []. by rewrite app_nil_r.
    + unfold keys_appended. rewrite Hk. simpl.
      exists [pynput.Pressed pynput.space; pynput.Released pynput.space].
      by rewrite <- app_assoc.
Qed.

Lemma message_only_appends_witness :
  let msg := message "{'toggle': 'pause'}" in
  let w := example_world 30 false in
  let w' := snd (MQTTController.on_message msg w) in
  MQTTController.on_message msg w = (Returned tt, w') ∧
  keyboard (self w')
  = Some {| pynput.sent := [pynput.Pressed pynput.space;
                            pynput.Released pynput.space] |} ∧
  config (self w') = config (self w) ∧
  mqtt.answer (mqttc (self w')) = mqtt.answer (mqttc (self w)) ∧
  (∃ records, log w' = log w ++ records) ∧
  (∃ published,
     mqtt.requests (mqttc (self w')) = mqtt.requests (mqttc (self w)) ++ published) ∧
  keys_appended (self w) (self w') ∧
  (is_Some (audio_mixer (self w')) ↔ is_Some (audio_mixer (self w))).
Proof.
  intros msg w w'.
  assert (MQTTController.on_message msg w = (Returned tt, w')) as H
    by (vm_compute; reflexivity).
  split; [exact H|]. split; [vm_compute; reflexivity|].
  exact (message_only_appends msg w w' (Returned tt) H).
Defined.

(** ** Messages one after the other *)

Lemma effect_sound s s' :
  effect s s' →
  ((∀ m, audio_mixer s = Some m → 0 ≤ alsaaudio.playback_volume m ≤ 100) →
   ∀ m', audio_mixer s' = Some m' → 0 ≤ alsaaudio.playback_volume m' ≤ 100) ∧
  config s' = config s ∧
  (is_Some (audio_mixer s') ↔ is_Some (audio_mixer s)) ∧
  ∃ published,
    mqtt.requests (mqttc s') = mqtt.requests (mqttc s) ++ published ∧
    (length published ≤ 1)%nat.
Proof.
  intros [->|m m0 published Hm Hm0 Hrel _ Hc _ Hreq Hpub|k _ ->].
  - split; [auto|]. split; [reflexivity|]. split; [reflexivity|].
    exists []. split; [by rewrite app_nil_r|simpl; lia].
  - split; [|split; [done|split]].
    + intros Hrange m' Hm'. rewrite Hm0 in Hm'. injection Hm' as <-.
      destruct Hrel as [[_ ?]|Hv]; [done|]. rewrite Hv. eauto.
    + by rewrite Hm, Hm0.
    + exists published. split; [done|].
      destruct Hpub as [->|(t & _ & ->)]; simpl; lia.
  - simpl. split; [auto|]. split; [reflexivity|]. split; [reflexivity|].
    exists []. split; [by rewrite app_nil_r|simpl; lia].
Qed.

(** X24.  However many messages arrive and whatever they hold, handing
    them to [on_message] one after the other never raises, and afterwards
    the volume is still between 0 and 100 if it was, the configuration is
    the same, the mixer is there if and only if it was, at most one
    publish was requested for each message, and the log has only grown. *)
Theorem messages_keep_the_controller_sound
  (msgs : list mqtt.MQTTMessage) (w : world) :
  (∀ m, audio_mixer (self w) = Some m →
        0 ≤ alsaaudio.playback_volume m ≤ 100) →
  ∃ w', deliver msgs w = (Returned tt, w') ∧
        (∀ m', audio_mixer (self w') = Some m' →
               0 ≤ alsaaudio.playback_volume m' ≤ 100) ∧
        config (self w') = config (self w) ∧
        (is_Some (audio_mixer (self w')) ↔ is_Some (audio_mixer (self w))) ∧
        (∃ published,
           mqtt.requests (mqttc (self w'))
           = mqtt.requests (mqttc (self w)) ++ published ∧
           (length published ≤ length msgs)%nat) ∧
        (∃ records, log w' = log w ++ records).
Proof.
  revert w. induction msgs as [|msg rest IH]; intros w Hrange.
  - exists w. split; [done|]. split; [done|]. split; [done|].
    split; [done|]. split.
    + exists []. split; [by rewrite app_nil_r|simpl; lia].
    + exists []. by rewrite app_nil_r.
  - destruct (MQTTController.on_message msg w) as [r w1] eqn:Hon.
    destruct (on_message_effect msg w r w1 Hon) as (-> & Heffect & l1 & Hl1).
    destruct (effect_sound _ _ Heffect)
      as (Hkeep & Hc1 & Hm1 & p1 & Hp1 & Hn1).
    destruct (IH w1 (Hkeep Hrange))
      as (w' & Hrun & Hrange' & Hc & Hm & (p & Hp & Hn) & l & Hl).
    exists w'. simpl. unfold mbind, M_bind. rewrite Hon.
    split; [exact Hrun|]. split; [exact Hrange'|].
    split; [by rewrite Hc|]. split; [by rewrite Hm|]. split.
    + exists (p1 ++ p). rewrite Hp, Hp1, <- app_assoc. split; [done|].
      rewrite length_app. simpl. lia.
    + exists (l1 ++ l). by rewrite Hl, Hl1, <- app_assoc.
Qed.

Lemma messages_keep_the_controller_sound_witness :
  let msgs := [message "{'volume': 70}"; message "{'volume': 170}";
               message "pause"; message "{'toggle': 'pause'}"] in
  let w := example_world 30 false in
  (∀ m, audio_mixer (self w) = Some m →
        0 ≤ alsaaudio.playback_volume m ≤ 100) ∧
  ∃ w', deliver msgs w = (Returned tt, w') ∧
        (∀ m', audio_mixer (self w') = Some m' →
               0 ≤ alsaaudio.playback_volume m' ≤ 100) ∧
        config (self w') = config (self w) ∧
        (is_Some (audio_mixer (self w')) ↔ is_Some (audio_mixer (self w))) ∧
        (∃ published,
           mqtt.requests (mqttc (self w'))
           = mqtt.requests (mqttc (self w)) ++ published ∧
           (length published ≤ length msgs)%nat) ∧
        (∃ records, log w' = log w ++ records).
Proof.
  intros msgs w.
  assert (∀ m, audio_mixer (self w) = Some m →
               0 ≤ alsaaudio.playback_volume m ≤ 100) as Hrange
    by (intros m [= <-]; simpl; lia).
  split; [exact Hrange|].
  exact (messages_keep_the_controller_sound msgs w Hrange).
Defined.

(** The run of the witness: the first message sets the volume and is the
    only one to publish, the second fails validation, the third is no
    JSON, the fourth presses the space bar. *)
Example four_messages :
  let w' := snd (deliver [message "{'volume': 70}"; message "{'volume': 170}";
                          message "pause"; message "{'toggle': 'pause'}"]
                   (example_world 30 false)) in
  MQTTController.volume w' = (Returned 70, w') ∧
  length (mqtt.requests (mqttc (self w'))) = 1%nat ∧
  keyboard (self w')
  = Some {| pynput.sent := [pynput.Pressed pynput.space;
                            pynput.Released pynput.space] |} ∧
  map fst (log w')
  = [logging.INFO; logging.INFO; logging.INFO; logging.ERROR;
     logging.ERROR; logging.INFO].
Proof. vm_compute. repeat split. Qed.

(** * Reading after writing *)

(** [update_status] leaves the mixer, the keyboard and the configuration
    alone. *)
Lemma update_status_keeps w m :
  audio_mixer (self w) = Some m →
  ∃ r w', MQTTController.update_status w = (r, w') ∧
          audio_mixer (self w') = Some m ∧
          keyboard (self w') = keyboard (self w) ∧
          config (self w') = config (self w).
Proof.
  intros Hm.
  destruct (MQTTControllerManager.status_topic (config (self w)))
    as [e|status_topic] eqn:Ht.
  - rewrite (update_status_unconfigured w e Ht).
    destruct (isinstance e ValueError_class); eauto 10.
  - rewrite (update_status_run w m status_topic Hm Ht). eauto 10.
Qed.

(** X13.  Setting [mute] to [b] and then reading [mute] gives [b], and the
    volume reads as before; setting it to [b] once more leaves the mixer
    as it is. *)
Theorem set_mute_then_read (w : world) (m : alsaaudio.Mixer) (b : bool) :
  audio_mixer (self w) = Some m →
  ∃ r w' r' w'',
    MQTTController.mute_setter (PBool b) w = (r, w') ∧
    MQTTController.mute w' = (Returned b, w') ∧
    MQTTController.volume w' = (Returned (alsaaudio.playback_volume m), w') ∧
    MQTTController.mute_setter (PBool b) w' = (r', w'') ∧
    audio_mixer (self w'') = audio_mixer (self w').
Proof.
  intros Hm.
  set (m' := {| alsaaudio.playback_volume := alsaaudio.playback_volume m;
                alsaaudio.playback_switch := b |}).
  destruct (update_status_keeps (with_mixer w m') m' eq_refl)
    as (r & w' & Hrun & Hmixer & _ & _).
  destruct (update_status_keeps (with_mixer w' m') m' eq_refl)
    as (r' & w'' & Hrun' & Hmixer' & _ & _).
  exists r, w', r', w''.
  rewrite !mute_setter_run, Hm, Hmixer, mute_run, volume_run, Hmixer.
  simpl. fold m'. by rewrite Hmixer'.
Qed.

Lemma set_mute_then_read_witness :
  let w := example_world 30 false in
  let m := {| alsaaudio.playback_volume := 30;
              alsaaudio.playback_switch := false |} in
  audio_mixer (self w) = Some m ∧
  ∃ r w' r' w'',
    MQTTController.mute_setter (PBool true) w = (r, w') ∧
    MQTTController.mute w' = (Returned true, w') ∧
    MQTTController.volume w' = (Returned (alsaaudio.playback_volume m), w') ∧
    MQTTController.mute_setter (PBool true) w' = (r', w'') ∧
    audio_mixer (self w'') = audio_mixer (self w').
Proof.
  intros w m. split; [reflexivity|].
  exact (set_mute_then_read w m true eq_refl).
Defined.

(** X14.  After [toggle_mute] the [mute] property reads the opposite of
    the mute switch, and a second [toggle_mute] puts the mixer back as it
    was, volume and switch. *)
Theorem toggle_mute_twice (w : world) (m : alsaaudio.Mixer) :
  audio_mixer (self w) = Some m →
  ∃ r w' r' w'',
    MQTTController.toggle_mute w = (r, w') ∧
    MQTTController.mute w' = (Returned (negb (alsaaudio.playback_switch m)), w') ∧
    MQTTController.toggle_mute w' = (r', w'') ∧
    audio_mixer (self w'') = Some m.
Proof.
  intros Hm.
  set (m' := {| alsaaudio.playback_volume := alsaaudio.playback_volume m;
                alsaaudio.playback_switch := negb (alsaaudio.playback_switch m) |}).
  destruct (update_status_keeps (with_mixer w m') m' eq_refl)
    as (r & w' & Hrun & Hmixer & _ & _).
  destruct (update_status_keeps (with_mixer w' m) m eq_refl)
    as (r' & w'' & Hrun' & Hmixer' & _ & _).
  exists r, w', r', w''.
  rewrite !toggle_mute_cases, Hm, Hmixer, !mute_setter_run, Hm, Hmixer,
    mute_run, Hmixer.
  simpl. fold m'. rewrite negb_involutive.
  destruct m as [v s]; simpl in *. done.
Qed.

Lemma toggle_mute_twice_witness :
  let w := example_world 30 true in
  let m := {| alsaaudio.playback_volume := 30;
              alsaaudio.playback_switch := true |} in
  audio_mixer (self w) = Some m ∧
  ∃ r w' r' w'',
    MQTTController.toggle_mute w = (r, w') ∧
    MQTTController.mute w' = (Returned (negb (alsaaudio.playback_switch m)), w') ∧
    MQTTController.toggle_mute w' = (r', w'') ∧
    audio_mixer (self w'') = Some m.
Proof.
  intros w m. split; [reflexivity|].
  exact (toggle_mute_twice w m eq_refl).
Defined.

Lemma volume_up_down_run w m s :
  audio_mixer (self w) = Some m →
  0 ≤ alsaaudio.playback_volume m ≤ 100 →
  MQTTControllerManager.volume_step (config (self w)) = inr s →
  ∃ r w' r' w'',
    MQTTController.volume_up w = (r, w') ∧
    MQTTController.volume_down w' = (r', w'') ∧
    MQTTController.volume w''
    = (Returned (Z.min (alsaaudio.playback_volume m) (100 - s)), w'').
Proof.
  intros Hm Hv Hs.
  pose proof (volume_step_range _ _ Hs) as Hrange.
  set (v := alsaaudio.playback_volume m) in *.
  set (m' := {| alsaaudio.playback_volume := Z.min (v + s) 100;
                alsaaudio.playback_switch := alsaaudio.playback_switch m |}).
  set (m'' := {| alsaaudio.playback_volume := Z.max (Z.min (v + s) 100 - s) 0;
                 alsaaudio.playback_switch := alsaaudio.playback_switch m |}).
  destruct (update_status_keeps (with_mixer w m') m' eq_refl)
    as (r & w' & Hrun & Hmixer & _ & Hcfg).
  destruct (update_status_keeps (with_mixer w' m'') m'' eq_refl)
    as (r' & w'' & Hrun' & Hmixer' & _ & _).
  exists r, w', r', w''.
  rewrite (volume_up_run w m s Hm Hs), volume_setter_run, Hm.
  fold v. rewrite (setvolume_percentage _ m) by lia. fold m'.
  split; [exact Hrun|].
  assert (MQTTControllerManager.volume_step (config (self w')) = inr s) as Hs'
    by (by rewrite Hcfg).
  rewrite (volume_down_run w' m' s Hmixer Hs'), volume_setter_run, Hmixer.
  simpl alsaaudio.playback_volume.
  rewrite (setvolume_percentage _ m') by lia. simpl alsaaudio.playback_switch.
  fold m''. split; [exact Hrun'|].
  rewrite volume_run, Hmixer'. simpl. do 2 f_equal. lia.
Qed.

Lemma volume_down_up_run w m s :
  audio_mixer (self w) = Some m →
  0 ≤ alsaaudio.playback_volume m ≤ 100 →
  MQTTControllerManager.volume_step (config (self w)) = inr s →
  ∃ r w' r' w'',
    MQTTController.volume_down w = (r, w') ∧
    MQTTController.volume_up w' = (r', w'') ∧
    MQTTController.volume w''
    = (Returned (Z.max (alsaaudio.playback_volume m) s), w'').
Proof.
  intros Hm Hv Hs.
  pose proof (volume_step_range _ _ Hs) as Hrange.
  set (v := alsaaudio.playback_volume m) in *.
  set (m' := {| alsaaudio.playback_volume := Z.max (v - s) 0;
                alsaaudio.playback_switch := alsaaudio.playback_switch m |}).
  set (m'' := {| alsaaudio.playback_volume := Z.min (Z.max (v - s) 0 + s) 100;
                 alsaaudio.playback_switch := alsaaudio.playback_switch m |}).
  destruct (update_status_keeps (with_mixer w m') m' eq_refl)
    as (r & w' & Hrun & Hmixer & _ & Hcfg).
  destruct (update_status_keeps (with_mixer w' m'') m'' eq_refl)
    as (r' & w'' & Hrun' & Hmixer' & _ & _).
  exists r, w', r', w''.
  rewrite (volume_down_run w m s Hm Hs), volume_setter_run, Hm.
  fold v. rewrite (setvolume_percentage _ m) by lia. fold m'.
  split; [exact Hrun|].
  assert (MQTTControllerManager.volume_step (config (self w')) = inr s) as Hs'
    by (by rewrite Hcfg).
  rewrite (volume_up_run w' m' s Hmixer Hs'), volume_setter_run, Hmixer.
  simpl alsaaudio.playback_volume.
  rewrite (setvolume_percentage _ m') by lia. simpl alsaaudio.playback_switch.
  fold m''. split; [exact Hrun'|].
  rewrite volume_run, Hmixer'. simpl. do 2 f_equal. lia.
Qed.

(** X15.  A step up and a step down do not undo each other at the ends of
    the range: from a volume [v] between 0 and 100 with step [s],
    [volume_up] followed by [volume_down] leaves the volume at
    [min v (100 - s)], and [volume_down] followed by [volume_up] leaves it
    at [max v s]; either is [v] only when the first step was not cut. *)
Theorem volume_up_then_down (w : world) (m : alsaaudio.Mixer) (s : Z) :
  audio_mixer (self w) = Some m →
  0 ≤ alsaaudio.playback_volume m ≤ 100 →
  MQTTControllerManager.volume_step (config (self w)) = inr s →
  (∃ r w' r' w'',
     MQTTController.volume_up w = (r, w') ∧
     MQTTController.volume_down w' = (r', w'') ∧
     MQTTController.volume w''
     = (Returned (Z.min (alsaaudio.playback_volume m) (100 - s)), w'')) ∧
  (∃ r w' r' w'',
     MQTTController.volume_down w = (r, w') ∧
     MQTTController.volume_up w' = (r', w'') ∧
     MQTTController.volume w''
     = (Returned (Z.max (alsaaudio.playback_volume m) s), w'')).
Proof.
  intros Hm Hv Hs. split.
  - exact (volume_up_down_run w m s Hm Hv Hs).
  - exact (volume_down_up_run w m s Hm Hv Hs).
Qed.

Lemma volume_up_then_down_witness :
  let w := example_world 95 false in
  let m := {| alsaaudio.playback_volume := 95;
              alsaaudio.playback_switch := false |} in
  audio_mixer (self w) = Some m ∧
  0 ≤ alsaaudio.playback_volume m ≤ 100 ∧
  MQTTControllerManager.volume_step (config (self w)) = inr 10 ∧
  (∃ r w' r' w'',
     MQTTController.volume_up w = (r, w') ∧
     MQTTController.volume_down w' = (r', w'') ∧
     MQTTController.volume w'' = (Returned 90, w'')) ∧
  (∃ r w' r' w'',
     MQTTController.volume_down w = (r, w') ∧
     MQTTController.volume_up w' = (r', w'') ∧
     MQTTController.volume w'' = (Returned 95, w'')).
Proof.
  intros w m.
  assert (MQTTControllerManager.volume_step (config (self w)) = inr 10) as Hs
    by (vm_compute; reflexivity).
  assert (0 ≤ alsaaudio.playback_volume m ≤ 100) as Hv by (simpl; lia).
  split; [reflexivity|]. split; [exact Hv|]. split; [exact Hs|].
  exact (volume_up_then_down w m 10 eq_refl Hv Hs).
Defined.

(** * Commands from payload to device *)

Lemma on_message_returned msg w w' :
  MQTTController.handle_message msg w = (Returned tt, w') →
  MQTTController.on_message msg w = (Returned tt, w').
Proof.
  intros H. unfold MQTTController.on_message, try_except. by rewrite H.
Qed.

Lemma on_message_unexpected msg w e w' :
  MQTTController.handle_message msg w = (Raised e, w') →
  decode_error e = false →
  MQTTController.on_message msg w
  = (Returned tt, logged w' [(logging.ERROR, logging.UnexpectedError e)]).
Proof.
  intros H He. unfold MQTTController.on_message, try_except. rewrite H.
  destruct e; try discriminate He; reflexivity.
Qed.

Lemma handle_command msg c w :
  parsed msg = inr (payload_of c) → in_range c →
  MQTTController.handle_message msg w
  = execute c (logged w [received (payload_of c)]).
Proof.
  intros Hp Hr. rewrite (handle_message_parsed _ _ _ Hp).
  apply dispatch_command. exact Hr.
Qed.

(** The mixer that a command on the mixer sets, with a mixer to set. *)
Lemma execute_run c w m s :
  c ≠ Toggle Pause → in_range c →
  audio_mixer (self w) = Some m →
  0 ≤ alsaaudio.playback_volume m ≤ 100 →
  MQTTControllerManager.volume_step (config (self w)) = inr s →
  execute c w = MQTTController.update_status (with_mixer w (applied c s m)).
Proof.
  intros Hc Hr Hm Hv Hs.
  pose proof (volume_step_range _ _ Hs) as Hrange.
  destruct c as [v|[]|b|[]]; simpl in *; try done.
  - rewrite volume_setter_run, Hm, (setvolume_percentage v m Hr). done.
  - rewrite (volume_up_run w m s Hm Hs), volume_setter_run, Hm.
    rewrite (setvolume_percentage _ m) by lia. done.
  - rewrite (volume_down_run w m s Hm Hs), volume_setter_run, Hm.
    rewrite (setvolume_percentage _ m) by lia. done.
  - rewrite mute_setter_run, Hm. done.
  - rewrite toggle_mute_cases, Hm, mute_setter_run, Hm. done.
Qed.

(** X16.  Without the device that a command works on (no mixer for the
    volume and mute commands, no keyboard for pause), the command raises
    [AttributeError] before anything is done: [on_message] logs the
    payload and one unexpected-error record, publishes nothing and leaves
    the controller as it was. *)
Theorem command_without_device
  (msg : mqtt.MQTTMessage) (c : Command) (w : world) :
  parsed msg = inr (payload_of c) →
  in_range c →
  device_missing c (self w) →
  MQTTController.on_message msg w
  = (Returned tt,
     logged w [received (payload_of c);
               (logging.ERROR, logging.UnexpectedError AttributeError)]).
Proof.
  intros Hp Hr Hd.
  assert (MQTTController.handle_message msg w
          = (Raised AttributeError, logged w [received (payload_of c)])) as H.
  { rewrite (handle_command msg c w Hp Hr).
    destruct c as [v|[]|b|[]]; simpl in Hd |- *.
    - rewrite volume_setter_run. simpl. by rewrite Hd.
    - rewrite volume_up_cases. simpl. by rewrite Hd.
    - rewrite volume_down_cases. simpl. by rewrite Hd.
    - rewrite mute_setter_run. simpl. by rewrite Hd.
    - rewrite toggle_mute_cases. simpl. by rewrite Hd.
    - rewrite toggle_pause_cases. simpl. by rewrite Hd. }
  rewrite (on_message_unexpected _ _ _ _ H eq_refl).
  by rewrite logged_logged.
Qed.

Lemma command_without_device_witness :
  let msg := message "{'volumeCtrl': '-'}" in
  let c := StepVolume Down in
  let w := {| self := {| audio_mixer := None; keyboard := None;
                         mqttc := accepting; config := ∅ |};
              log := [] |} in
  parsed msg = inr (payload_of c) ∧
  in_range c ∧
  device_missing c (self w) ∧
  MQTTController.on_message msg w
  = (Returned tt,
     logged w [received (payload_of c);
               (logging.ERROR, logging.UnexpectedError AttributeError)]).
Proof.
  intros msg c w.
  assert (parsed msg = inr (payload_of c)) as Hp by (vm_compute; reflexivity).
  split; [exact Hp|]. split; [exact I|]. split; [reflexivity|].
  exact (command_without_device msg c w Hp I eq_refl).
Defined.

(** X17.  When the configuration has no [MQTT_STATUS_TOPIC], as in a
    controller whose configuration was never loaded, a volume or mute
    command still sets the mixer, and then the [KeyError] of the manager,
    which [update_status] does not catch, ends it: nothing is published
    and [on_message] logs an unexpected error. *)
Theorem missing_status_topic
  (msg : mqtt.MQTTMessage) (c : Command) (w : world) (m : alsaaudio.Mixer)
  (s : Z) :
  parsed msg = inr (payload_of c) →
  in_range c →
  c ≠ Toggle Pause →
  audio_mixer (self w) = Some m →
  0 ≤ alsaaudio.playback_volume m ≤ 100 →
  MQTTControllerManager.volume_step (config (self w)) = inr s →
  config (self w) !! "MQTT_STATUS_TOPIC" = None →
  MQTTController.on_message msg w
  = (Returned tt,
     logged (with_mixer w (applied c s m))
       [received (payload_of c);
        (logging.ERROR,
         logging.UnexpectedError (KeyError "MQTT_STATUS_TOPIC"))]).
Proof.
  intros Hp Hr Hc Hm Hv Hs Ht.
  set (w1 := logged w [received (payload_of c)]).
  assert (MQTTController.handle_message msg w
          = (Raised (KeyError "MQTT_STATUS_TOPIC"),
             with_mixer w1 (applied c s m))) as H.
  { rewrite (handle_command msg c w Hp Hr). fold w1.
    rewrite (execute_run c w1 m s Hc Hr Hm Hv Hs).
    rewrite (update_status_unconfigured _ (KeyError "MQTT_STATUS_TOPIC")).
    - reflexivity.
    - unfold MQTTControllerManager.status_topic. simpl. by rewrite Ht. }
  rewrite (on_message_unexpected _ _ _ _ H eq_refl).
  unfold logged, with_mixer, w1; simpl. by rewrite <- app_assoc.
Qed.

Lemma missing_status_topic_witness :
  let msg := message "{'volume': 70}" in
  let c := SetVolume 70 in
  let m := {| alsaaudio.playback_volume := 30;
              alsaaudio.playback_switch := false |} in
  let w := {| self := {| audio_mixer := Some m; keyboard := None;
                         mqttc := accepting; config := ∅ |};
              log := [] |} in
  parsed msg = inr (payload_of c) ∧
  in_range c ∧
  c ≠ Toggle Pause ∧
  audio_mixer (self w) = Some m ∧
  0 ≤ alsaaudio.playback_volume m ≤ 100 ∧
  MQTTControllerManager.volume_step (config (self w)) = inr 10 ∧
  config (self w) !! "MQTT_STATUS_TOPIC" = None ∧
  MQTTController.on_message msg w
  = (Returned tt,
     logged (with_mixer w (applied c 10 m))
       [received (payload_of c);
        (logging.ERROR,
         logging.UnexpectedError (KeyError "MQTT_STATUS_TOPIC"))]).
Proof.
  intros msg c m w.
  assert (parsed msg = inr (payload_of c)) as Hp by (vm_compute; reflexivity).
  assert (in_range c) as Hr by (simpl; lia).
  assert (c ≠ Toggle Pause) as Hc by discriminate.
  assert (0 ≤ alsaaudio.playback_volume m ≤ 100) as Hv by (simpl; lia).
  assert (MQTTControllerManager.volume_step (config (self w)) = inr 10) as Hs
    by reflexivity.
  assert (config (self w) !! "MQTT_STATUS_TOPIC" = None) as Ht by reflexivity.
  repeat (split; [assumption || reflexivity|]).
  exact (missing_status_topic msg c w m 10 Hp Hr Hc eq_refl Hv Hs Ht).
Defined.

(** X18.  A message that carries a volume or mute command, on a
    controller with a mixer and a status topic: [on_message] returns, the
    mixer is what the command makes of it (the given volume, the volume
    one step up or down and cut at 100 or 0, the given or the opposite
    mute switch), one request to publish the status of that mixer is
    made, and the log gains the payload and the record of the answer to
    that request; nothing else changes. *)
Theorem message_runs_command
  (msg : mqtt.MQTTMessage) (c : Command) (w : world) (m : alsaaudio.Mixer)
  (s : Z) (status_topic : string) :
  parsed msg = inr (payload_of c) →
  in_range c →
  c ≠ Toggle Pause →
  audio_mixer (self w) = Some m →
  0 ≤ alsaaudio.playback_volume m ≤ 100 →
  MQTTControllerManager.volume_step (config (self w)) = inr s →
  MQTTControllerManager.status_topic (config (self w)) = inr status_topic →
  let request := status_request status_topic (applied c s m) in
  MQTTController.on_message msg w
  = (Returned tt,
     logged (requested (with_mixer w (applied c s m)) request)
       [received (payload_of c);
        status_record status_topic (mqtt.answer (mqttc (self w)) request)]).
Proof.
  intros Hp Hr Hc Hm Hv Hs Ht request.
  set (w1 := logged w [received (payload_of c)]).
  apply on_message_returned.
  rewrite (handle_command msg c w Hp Hr). fold w1.
  rewrite (execute_run c w1 m s Hc Hr Hm Hv Hs).
  rewrite (update_status_run (with_mixer w1 (applied c s m)) (applied c s m)
             status_topic eq_refl Ht).
  fold request. unfold logged, requested, with_mixer, w1; simpl.
  by rewrite <- app_assoc.
Qed.

Lemma message_runs_command_witness :
  let msg := message "{'toggle': 'mute'}" in
  let c := Toggle Mute in
  let w := example_world 30 false in
  let m := {| alsaaudio.playback_volume := 30;
              alsaaudio.playback_switch := false |} in
  let m' := {| alsaaudio.playback_volume := 30;
               alsaaudio.playback_switch := true |} in
  let request := {| mqtt.topic := "desktop/status";
                    mqtt.payload := json_text "{'volume': 30, 'mute': true}";
                    mqtt.qos := 0; mqtt.retain := false |} in
  parsed msg = inr (payload_of c) ∧
  in_range c ∧
  c ≠ Toggle Pause ∧
  audio_mixer (self w) = Some m ∧
  0 ≤ alsaaudio.playback_volume m ≤ 100 ∧
  MQTTControllerManager.volume_step (config (self w)) = inr 10 ∧
  MQTTControllerManager.status_topic (config (self w)) = inr "desktop/status" ∧
  MQTTController.on_message msg w
  = (Returned tt,
     logged (requested (with_mixer w m') request)
       [received (payload_of c); (logging.INFO, logging.StatusAccepted 1)]).
Proof.
  intros msg c w m m' request.
  assert (parsed msg = inr (payload_of c)) as Hp by (vm_compute; reflexivity).
  assert (c ≠ Toggle Pause) as Hc by discriminate.
  assert (0 ≤ alsaaudio.playback_volume m ≤ 100) as Hv by (simpl; lia).
  assert (MQTTControllerManager.volume_step (config (self w)) = inr 10) as Hs
    by (vm_compute; reflexivity).
  assert (MQTTControllerManager.status_topic (config (self w))
          = inr "desktop/status") as Ht by (vm_compute; reflexivity).
  split; [exact Hp|]. split; [exact I|]. split; [exact Hc|].
  split; [reflexivity|]. split; [exact Hv|]. split; [exact Hs|].
  split; [exact Ht|].
  exact (message_runs_command msg c w m 10 "desktop/status"
           Hp I Hc eq_refl Hv Hs Ht).
Defined.

(** X19.  The pause message, on a controller with a keyboard: the space
    bar is pressed and then released, once; the mixer and the client are
    untouched, nothing is published, and only the payload is logged. *)
Theorem pause_message_presses_space
  (msg : mqtt.MQTTMessage) (w : world) (k : pynput.Controller) :
  parsed msg = inr (payload_of (Toggle Pause)) →
  keyboard (self w) = Some k →
  MQTTController.on_message msg w
  = (Returned tt,
     logged (with_space_pressed w k) [received (payload_of (Toggle Pause))]).
Proof.
  intros Hp Hk. apply on_message_returned.
  rewrite (handle_command msg (Toggle Pause) w Hp I). simpl execute.
  rewrite toggle_pause_cases. simpl. rewrite Hk.
  unfold logged, with_space_pressed, pynput.press, pynput.release; simpl.
  by rewrite <- app_assoc.
Qed.

Lemma pause_message_presses_space_witness :
  let msg := message "{'toggle': 'pause'}" in
  let w := example_world 30 false in
  let k := {| pynput.sent := [] |} in
  parsed msg = inr (payload_of (Toggle Pause)) ∧
  keyboard (self w) = Some k ∧
  MQTTController.on_message msg w
  = (Returned tt,
     logged (with_space_pressed w k) [received (payload_of (Toggle Pause))]).
Proof.
  intros msg w k.
  assert (parsed msg = inr (payload_of (Toggle Pause))) as Hp
    by (vm_compute; reflexivity).
  split; [exact Hp|]. split; [reflexivity|].
  exact (pause_message_presses_space msg w k Hp eq_refl).
Defined.

(** X20.  An object with none of the four command keys, the empty object
    included, raises the [ValueError] that names the payload:
    [on_message] logs the payload and the text of that error and leaves
    the controller as it was. *)
Theorem unrecognized_object_is_refused
  (msg : mqtt.MQTTMessage) (d : list (string * pyobj)) (w : world) :
  parsed msg = inr (PDict d) →
  selected d = None →
  MQTTController.on_message msg w
  = (Returned tt,
     logged w [received (PDict d);
               (logging.ERROR,
                logging.ErrorText (ValueError (NotAValidCommand (PDict d))))]).
Proof.
  intros Hp Hsel.
  assert (MQTTController.handle_message msg w
          = (Raised (ValueError (NotAValidCommand (PDict d))),
             logged w [received (PDict d)])) as H.
  { rewrite (handle_message_parsed _ _ _ Hp).
    unfold selected, recognized, has_key in Hsel. simpl in Hsel.
    unfold dispatch. simpl.
    repeat match type of Hsel with
           | context [bool_decide ?P] => destruct (bool_decide P); [done|]
           end.
    reflexivity. }
  unfold MQTTController.on_message, try_except. rewrite H. simpl.
  unfold logging_call, logged; simpl. by rewrite <- app_assoc.
Qed.

Lemma unrecognized_object_is_refused_witness :
  let msg := message "{'msg': 'This is an invalid command'}" in
  let d := [("msg", PStr "This is an invalid command")] in
  let w := example_world 30 false in
  parsed msg = inr (PDict d) ∧
  selected d = None ∧
  MQTTController.on_message msg w
  = (Returned tt,
     logged w [received (PDict d);
               (logging.ERROR,
                logging.ErrorText (ValueError (NotAValidCommand (PDict d))))]).
Proof.
  intros msg d w.
  assert (parsed msg = inr (PDict d)) as Hp by (vm_compute; reflexivity).
  split; [exact Hp|]. split; [reflexivity|].
  exact (unrecognized_object_is_refused msg d w Hp eq_refl).
Defined.

(** * What the schemas accept *)

Lemma exact_of_float_scale f num k : exact_of_float f = Dyadic num k → 0 ≤ k.
Proof.
  destruct f as [| | |s m e]; simpl; try (by intros [= <- <-]).
  destruct (Z.leb_spec 0 e); intros [= <- <-]; lia.
Qed.

(** The keywords of each schema on the value of its property. *)
Lemma volume_value_errors v :
  jsonschema.keyword (Some "volume") "type" (PStr "integer") v
  ++ jsonschema.keyword (Some "volume") "minimum" (PInt 0) v
  ++ jsonschema.keyword (Some "volume") "maximum" (PInt 100) v ++ [] = []
  ↔ ∃ n, denotes v n ∧ 0 ≤ n ≤ 100.
Proof.
  destruct v as [|b|z|f|s|l|d]; simpl;
    try (split; [done|by intros (n & [] & _)]).
  - change (jsonschema.keyword (Some "volume") "minimum" (PInt 0) (PInt z))
      with (if jsonschema.less (PInt z) (PInt 0)
            then [SchemaError (Some "volume") "minimum"] else []).
    change (jsonschema.keyword (Some "volume") "maximum" (PInt 100) (PInt z))
      with (if jsonschema.less (PInt 100) (PInt z)
            then [SchemaError (Some "volume") "maximum"] else []).
    rewrite !less_int.
    destruct (Z.ltb_spec z 0), (Z.ltb_spec 100 z); simpl;
      (split; [first [done|intros _; exists z; split; [done|lia]]
              |first [done|intros (n & <- & ?); lia]]).
  - unfold jsonschema.keyword, jsonschema.is_type, is_integer,
      jsonschema.less, exact_of. simpl.
    destruct (exact_of_float f) as [num k|neg|] eqn:Hf; simpl;
      try (split; [done|by intros (n & [] & _)]).
    pose proof (exact_of_float_scale f num k Hf) as Hk.
    assert (0 < 2 ^ k) as Hp by (apply Z.pow_pos_nonneg; lia).
    change (2 ^ 0) with 1. rewrite !Z.mul_1_r, Z.mul_0_l.
    destruct (Z.eqb_spec (num mod 2 ^ k) 0) as [Hmod|Hmod]; simpl.
    + apply Z.mod_divide in Hmod as [q ->]; [|lia].
      destruct (Z.compare_spec (q * 2 ^ k) 0) as [H0|H0|H0];
        destruct (Z.compare_spec (100 * 2 ^ k) (q * 2 ^ k)) as [H1|H1|H1];
        simpl;
        (split; [first [done|intros _; exists q; split; [done|nia]]
                |first [done|intros (n & Hn & ?); exfalso; nia]]).
    + split; [done|]. intros (n & -> & _).
      rewrite Z.mod_mul in Hmod by lia. done.
Qed.

Lemma volume_ctrl_value_errors v :
  jsonschema.keyword (Some "volumeCtrl") "type" (PStr "string") v
  ++ jsonschema.keyword (Some "volumeCtrl") "enum" (PList [PStr "+"; PStr "-"]) v
  ++ [] = []
  ↔ v = PStr "+" ∨ v = PStr "-".
Proof.
  destruct v as [|b|z|f|s|l|d]; simpl;
    try (split; [done|by intros [|]]).
  unfold jsonschema.keyword; simpl.
  destruct (String.eqb_spec s "+") as [->|H1]; simpl; [split; eauto|].
  destruct (String.eqb_spec s "-") as [->|H2]; simpl; [split; eauto|].
  split; [done|]. intros [[= ->]|[= ->]]; done.
Qed.

Lemma mute_value_errors v :
  jsonschema.keyword (Some "mute") "type" (PStr "boolean") v ++ [] = []
  ↔ ∃ b, v = PBool b.
Proof.
  destruct v as [|b|z|f|s|l|d]; simpl;
    try (split; [done|by intros [? ?]]).
  split; eauto.
Qed.

Lemma toggle_value_errors v :
  jsonschema.keyword (Some "toggle") "type" (PStr "string") v
  ++ jsonschema.keyword (Some "toggle") "enum" (PList [PStr "mute"; PStr "pause"]) v
  ++ [] = []
  ↔ v = PStr "mute" ∨ v = PStr "pause".
Proof.
  destruct v as [|b|z|f|s|l|d]; simpl;
    try (split; [done|by intros [|]]).
  unfold jsonschema.keyword; simpl.
  destruct (String.eqb_spec s "mute") as [->|H1]; simpl; [split; eauto|].
  destruct (String.eqb_spec s "pause") as [->|H2]; simpl; [split; eauto|].
  split; [done|]. intros [[= ->]|[= ->]]; done.
Qed.

Lemma validate_passes instance schema :
  jsonschema.validate instance schema = inr tt
  ↔ jsonschema.iter_errors None schema instance = [].
Proof.
  unfold jsonschema.validate.
  destruct (jsonschema.iter_errors None schema instance); split; done.
Qed.

(** X21.  What the four schemas accept.  An object passes the volume
    schema when it has no volume property or one with the integer value
    of a number between 0 and 100; the volumeCtrl schema when it has no
    such property or it is the string + or the string -; the mute schema
    when the property is absent or a boolean; the toggle schema when it is
    absent or one of the strings mute and pause.  No other value
    passes. *)
Theorem schemas_accept (d : list (string * pyobj)) :
  let accepts schema := jsonschema.validate (PDict d) schema = inr tt in
  match lookup_item "volume" d with
  | Some v =>
    accepts MQTTController.volume_schema ↔ ∃ n, denotes v n ∧ 0 ≤ n ≤ 100
  | None => accepts MQTTController.volume_schema
  end ∧
  match lookup_item "volumeCtrl" d with
  | Some v =>
    accepts MQTTController.volume_ctrl_schema ↔ v = PStr "+" ∨ v = PStr "-"
  | None => accepts MQTTController.volume_ctrl_schema
  end ∧
  match lookup_item "mute" d with
  | Some v => accepts MQTTController.mute_schema ↔ ∃ b, v = PBool b
  | None => accepts MQTTController.mute_schema
  end ∧
  match lookup_item "toggle" d with
  | Some v =>
    accepts MQTTController.toggle_schema ↔ v = PStr "mute" ∨ v = PStr "pause"
  | None => accepts MQTTController.toggle_schema
  end.
Proof.
  intros accepts. unfold accepts. repeat split.
  - destruct (lookup_item "volume" d) as [v|] eqn:Hv;
      rewrite validate_passes; simpl; rewrite Hv; simpl; [|done].
    rewrite !app_nil_r. rewrite <- (volume_value_errors v).
    by rewrite !app_nil_r.
  - destruct (lookup_item "volumeCtrl" d) as [v|] eqn:Hv;
      rewrite validate_passes; simpl; rewrite Hv; simpl; [|done].
    rewrite !app_nil_r. rewrite <- (volume_ctrl_value_errors v).
    by rewrite !app_nil_r.
  - destruct (lookup_item "mute" d) as [v|] eqn:Hv;
      rewrite validate_passes; simpl; rewrite Hv; simpl; [|done].
    rewrite !app_nil_r. rewrite <- (mute_value_errors v).
    by rewrite !app_nil_r.
  - destruct (lookup_item "toggle" d) as [v|] eqn:Hv;
      rewrite validate_passes; simpl; rewrite Hv; simpl; [|done].
    rewrite !app_nil_r. rewrite <- (toggle_value_errors v).
    by rewrite !app_nil_r.
Qed.

(** X22.  A volume written as a float without fractional part, such as
    50.0, passes the schema (it is an integer for the validator) but not
    the mixer, whose [setvolume] wants an [int]: the [TypeError] is logged
    as an unexpected error, and the volume is not set. *)
Theorem whole_float_volume_is_refused
  (msg : mqtt.MQTTMessage) (d : list (string * pyobj)) (f : spec_float)
  (n : Z) (w : world) (m : alsaaudio.Mixer) :
  parsed msg = inr (PDict d) →
  lookup_item "volume" d = Some (PFloat f) →
  denotes (PFloat f) n →
  0 ≤ n ≤ 100 →
  audio_mixer (self w) = Some m →
  MQTTController.on_message msg w
  = (Returned tt,
     logged w [received (PDict d);
               (logging.ERROR, logging.UnexpectedError TypeError)]).
Proof.
  intros Hp Hv Hn Hrange Hm.
  assert (MQTTController.handle_message msg w
          = (Raised TypeError, logged w [received (PDict d)])) as H.
  { rewrite (handle_message_parsed _ _ _ Hp).
    assert (jsonschema.validate (PDict d) MQTTController.volume_schema = inr tt)
      as Hvalid.
    { apply validate_passes. simpl. rewrite Hv. simpl. rewrite !app_nil_r.
      rewrite <- (app_nil_r (_ ++ _ ++ _)), <- !app_assoc.
      apply volume_value_errors. eauto. }
    unfold dispatch. simpl contains. rewrite Hv. simpl lift at 1.
    unfold mbind at 1, M_bind at 1. simpl.
    rewrite Hvalid. simpl. rewrite Hv. simpl.
    change (MQTTController.volume_setter (PFloat f)
              (logged w [received (PDict d)])
            = (Raised TypeError, logged w [received (PDict d)])).
    rewrite volume_setter_run. simpl. rewrite Hm. reflexivity. }
  rewrite (on_message_unexpected _ _ _ _ H eq_refl).
  by rewrite logged_logged.
Qed.

Lemma whole_float_volume_is_refused_witness :
  let msg := message "{'volume': 50.0}" in
  let f := json.float_of_decimal false 500 (-1) in
  let d := [("volume", PFloat f)] in
  let w := example_world 30 false in
  let m := {| alsaaudio.playback_volume := 30;
              alsaaudio.playback_switch := false |} in
  parsed msg = inr (PDict d) ∧
  lookup_item "volume" d = Some (PFloat f) ∧
  denotes (PFloat f) 50 ∧
  0 ≤ 50 ≤ 100 ∧
  audio_mixer (self w) = Some m ∧
  MQTTController.on_message msg w
  = (Returned tt,
     logged w [received (PDict d);
               (logging.ERROR, logging.UnexpectedError TypeError)]).
Proof.
  intros msg f d w m.
  assert (parsed msg = inr (PDict d)) as Hp by (vm_compute; reflexivity).
  assert (denotes (PFloat f) 50) as Hn by (vm_compute; reflexivity).
  assert (0 ≤ 50 ≤ 100) as Hr by lia.
  split; [exact Hp|]. split; [reflexivity|]. split; [exact Hn|].
  split; [exact Hr|]. split; [reflexivity|].
  exact (whole_float_volume_is_refused msg d f 50 w m Hp eq_refl Hn Hr eq_refl).
Defined.

(** * Commands as they are sent *)

Lemma byte_code_of_ascii c : byte_code (byte_of_ascii c) = ord c.
Proof. destruct c as [[] [] [] [] [] [] [] []]; reflexivity. Qed.

Lemma codes_encode s : map byte_code (encode s) = codes s.
Proof.
  induction s as [|c s IH]; [done|].
  simpl. by rewrite byte_code_of_ascii, <- IH.
Qed.

Lemma text_codes s : text (codes s) = s.
Proof.
  induction s as [|c s IH]; [done|].
  simpl. rewrite IH. f_equal.
  unfold chr, ord. by rewrite N2Z.id, ascii_N_embedding.
Qed.

Lemma utf8_decode_ascii strict l :
  forallb (λ z, z <=? 127) l = true → utf8_decode strict l = Some l.
Proof.
  induction l as [|z l IH]; [done|].
  simpl. intros H. apply andb_true_iff in H as [Hz Hl].
  rewrite Hz, (IH Hl). done.
Qed.

(** Decoding the UTF-8 encoding of an ASCII text gives the text back. *)
Lemma decode_encode s : is_ascii s = true → bytes_decode (encode s) = inr s.
Proof.
  intros H. unfold bytes_decode. rewrite codes_encode.
  rewrite (utf8_decode_ascii true _ H). by rewrite text_codes.
Qed.

Lemma codes_app a b : codes (a ++ b) = codes a ++ codes b.
Proof. induction a as [|c a IH]; [done|]. simpl. by rewrite IH. Qed.

Lemma is_ascii_app a b : is_ascii (a ++ b) = is_ascii a && is_ascii b.
Proof. unfold is_ascii. by rewrite codes_app, forallb_app. Qed.

Lemma is_ascii_uint d : is_ascii (NilEmpty.string_of_uint d) = true.
Proof. induction d; simpl; done. Qed.

Lemma is_ascii_int_repr n : is_ascii (json.int_repr n) = true.
Proof.
  unfold json.int_repr. destruct n as [|p|p]; [reflexivity| |];
    simpl Z.to_int; unfold NilZero.string_of_int; rewrite string_of_pos.
  - apply is_ascii_uint.
  - change (is_ascii ("-" ++ NilEmpty.string_of_uint (Pos.to_uint p)) = true).
    rewrite is_ascii_app, is_ascii_uint. done.
Qed.

Lemma span_digits_uint d rest :
  match rest with
  | String c _ => json.is_digit c = false
  | EmptyString => True
  end →
  json.span_digits (NilEmpty.string_of_uint d ++ rest) = (uint_digits d, rest).
Proof.
  intros Hrest. induction d; simpl;
    try (change (json.is_digit _) with true; cbv iota; by rewrite IHd).
  destruct rest as [|c r]; [done|]. simpl. by rewrite Hrest.
Qed.

Lemma of_digits_uint d : ∀ acc,
  fold_left (λ acc d, 10 * acc + d) (uint_digits d) acc = uint_value acc d.
Proof. induction d; intros acc; simpl; by try rewrite IHd. Qed.

(** The decimal digits of a positive number start with a digit that is
    not 0. *)
Lemma nzhead_head d : ∀ d', Decimal.nzhead d ≠ Decimal.D0 d'.
Proof. induction d; intros d'; simpl; done. Qed.

Lemma to_uint_head p d : Pos.to_uint p ≠ Decimal.D0 d.
Proof.
  intros H.
  pose proof (DecimalPos.Unsigned.to_of (Pos.to_uint p)) as Hto.
  rewrite DecimalPos.Unsigned.of_to in Hto. simpl in Hto.
  rewrite H in Hto. unfold Decimal.unorm in Hto. simpl in Hto.
  destruct (Decimal.nzhead d) eqn:Hd; try discriminate Hto.
  - injection Hto as ->.
    pose proof (DecimalPos.Unsigned.of_to p) as Hof. rewrite H in Hof. done.
  - injection Hto as ->. exact (nzhead_head _ _ Hd).
Qed.

Lemma scan_once_uint f depth (negative : bool) d rest :
  d ≠ Decimal.Nil → (∀ d', d ≠ Decimal.D0 d') →
  let s := ((if negative then "-" else "")
            ++ NilEmpty.string_of_uint d ++ String "}" rest)%string in
  json.scan_once (S f) depth s
  = inr (PInt (if negative then - uint_value 0 d else uint_value 0 d),
         String "}" rest) ∧
  json.skip_whitespace s = s.
Proof.
  intros Hnil Hzero.
  destruct d as [|d|d|d|d|d|d|d|d|d|d];
    [done|by destruct (Hzero d)|..];
    (pose proof (span_digits_uint d (String "}" rest) eq_refl) as Hs;
     destruct negative; simpl;
     unfold json.literal; simpl; unfold json.match_number; simpl;
     rewrite Hs; simpl; unfold json.of_digits; simpl;
     rewrite of_digits_uint; done).
Qed.

(** What [json.dumps] writes for an integer, [scan_once] reads as that
    integer, up to the closing brace. *)
Lemma scan_once_int f depth n rest :
  let s := (json.int_repr n ++ String "}" rest)%string in
  json.scan_once (S f) depth s = inr (PInt n, String "}" rest) ∧
  json.skip_whitespace s = s.
Proof.
  destruct n as [|p|p]; [split; reflexivity| |];
    unfold json.int_repr; simpl Z.to_int; unfold NilZero.string_of_int;
    rewrite string_of_pos.
  - destruct (scan_once_uint f depth false (Pos.to_uint p) rest
                (to_uint_nonnil p) (to_uint_head p)) as [H1 H2].
    rewrite uint_value_of_uint, DecimalPos.Unsigned.of_to in H1. done.
  - destruct (scan_once_uint f depth true (Pos.to_uint p) rest
                (to_uint_nonnil p) (to_uint_head p)) as [H1 H2].
    rewrite uint_value_of_uint, DecimalPos.Unsigned.of_to in H1. done.
Qed.

Lemma scan_once_volume f depth tail :
  json.scan_once (S (S f)) (S depth) (json_text "{'volume': " ++ tail)
  = match json.scan_once f depth (json.skip_whitespace tail) with
    | inr (value, r3) =>
      match json.skip_whitespace r3 with
      | String c r4 =>
        if Ascii.eqb c "}" then inr (PDict [("volume", value)], r4)
        else if Ascii.eqb c ","
        then json.JSONObject f depth [("volume", value)]
               (json.skip_whitespace r4)
        else inl JSONDecodeError
      | EmptyString => inl JSONDecodeError
      end
    | inl e => inl e
    end.
Proof.
  destruct (json.scan_once f depth (json.skip_whitespace tail))
    as [e|[value r3]] eqn:H;
    simpl; change (String.append "" tail) with tail; rewrite H; reflexivity.
Qed.

Lemma nesting_limit_positive : ∃ depth, json.nesting_limit = S depth.
Proof. eexists. reflexivity. Qed.

Lemma loads_object body v :
  (∀ f, json.scan_once (S (S (S f))) json.nesting_limit (String "{" body)
        = inr (v, "")) →
  json.loads (String "{" body) = inr v.
Proof.
  intros H. unfold json.loads.
  change (json.strip_prefix _ (String "{" body)) with (@None string).
  change (json.skip_whitespace (String "{" body)) with (String "{" body).
  replace (2 * String.length (String "{" body) + 2)%nat
    with (S (S (S (2 * String.length body + 1))))%nat by (simpl; lia).
  by rewrite H.
Qed.

(** [json.loads(json.dumps({"volume": n}))] is [{"volume": n}] for every
    integer [n]. *)
Lemma loads_volume n :
  json.loads (json.dumps (PDict [("volume", PInt n)]))
  = inr (PDict [("volume", PInt n)]).
Proof.
  change (json.dumps (PDict [("volume", PInt n)]))
    with (json_text "{'volume': " ++ (json.int_repr n ++ "}"))%string.
  apply loads_object. intros f.
  destruct nesting_limit_positive as [depth ->].
  destruct (scan_once_int f depth n "") as [H1 H2].
  change (String "{" ?body) with (json_text "{'volume': " ++ (json.int_repr n ++ "}"))%string.
  rewrite scan_once_volume, H2, H1. reflexivity.
Qed.

(** X23.  Every command survives the way it is sent: the JSON text that
    [json.dumps] writes for its payload parses back to that payload, and
    so does the message that carries the UTF-8 encoding of that text, for
    every integer volume and every command. *)
Theorem commands_round_trip (c : Command) :
  json.loads (json.dumps (payload_of c)) = inr (payload_of c) ∧
  parsed {| mqtt.msg_payload := encode (json.dumps (payload_of c)) |}
  = inr (payload_of c).
Proof.
  assert (json.loads (json.dumps (payload_of c)) = inr (payload_of c)) as Hl.
  { destruct c as [v|[]|[]|[]];
      [apply loads_volume|vm_compute; reflexivity..]. }
  split; [exact Hl|].
  unfold parsed. simpl mqtt.msg_payload.
  rewrite decode_encode; [exact Hl|].
  destruct c as [v|[]|[]|[]]; [|vm_compute; reflexivity..].
  change (json.dumps (payload_of (SetVolume v)))
    with (json_text "{'volume': " ++ (json.int_repr v ++ "}"))%string.
  rewrite !is_ascii_app, is_ascii_int_repr. reflexivity.
Qed.

(** * The JSON reader and its fuel *)

(** Every value that [scan_once] reads takes at least one character, so the
    descent is never deeper than twice the length of the text, and the fuel
    that [loads] gives is never what stops it. *)

Lemma skip_whitespace_length s :
  (String.length (json.skip_whitespace s) ≤ String.length s)%nat.
Proof.
  induction s as [|c r IH]; simpl; [lia|].
  destruct (json.is_whitespace c); simpl; lia.
Qed.

Lemma strip_prefix_length p s r :
  json.strip_prefix p s = Some r →
  (String.length r + String.length p = String.length s)%nat.
Proof.
  revert s; induction p as [|a p IH]; intros [|b s]; simpl; try done.
  - by intros [= <-].
  - by intros [= <-].
  - destruct (Ascii.eqb a b); [|done]. intros H. apply IH in H. lia.
Qed.

Lemma span_digits_length s ds r :
  json.span_digits s = (ds, r) → (String.length r ≤ String.length s)%nat.
Proof.
  revert ds r; induction s as [|c s IH]; simpl; intros ds r.
  - by intros [= <- <-].
  - destruct (json.is_digit c).
    + destruct (json.span_digits s) as [ds' r'] eqn:Hs. intros [= <- <-].
      specialize (IH _ _ eq_refl). lia.
    + intros [= <- <-]. simpl. lia.
Qed.

Lemma prepend_inv cs x str rest :
  json.prepend cs x = Some (str, rest) → ∃ str', x = Some (str', rest).
Proof.
  unfold json.prepend. destruct x as [[str' rest']|]; simpl; [|done].
  intros [= <- <-]. eauto.
Qed.

Lemma scanstring_length_aux n : ∀ s str r,
  (String.length s ≤ n)%nat →
  json.scanstring s = Some (str, r) → (String.length r < String.length s)%nat.
Proof.
  induction n as [|n IH]; intros s str r Hn.
  - destruct s; simpl in *; [done|lia].
  - destruct s as [|c s]; simpl; [done|].
    assert (∀ cs t str r, (String.length t ≤ n)%nat →
              json.prepend cs (json.scanstring t) = Some (str, r) →
              (String.length r < String.length t)%nat) as Hpre.
    { intros cs t str' r' Ht H. apply prepend_inv in H as [str'' H]. eauto. }
    simpl in Hn.
    repeat match goal with
           | |- context [if ?b then _ else _] => destruct b
           | |- context [match ?x with _ => _ end] =>
             lazymatch x with
             | json.prepend _ _ => fail
             | _ => destruct x eqn:?
             end
           | |- Some _ = Some _ → _ => intros [= <- <-]; simpl; lia
           | |- None = Some _ → _ => done
           | |- json.prepend _ _ = Some _ → _ =>
             let H := fresh in intros H; apply Hpre in H; simpl in *; lia
           end.
Qed.

Lemma scanstring_length s str r :
  json.scanstring s = Some (str, r) → (String.length r < String.length s)%nat.
Proof. by apply (scanstring_length_aux (String.length s)). Qed.

Lemma span_digits_nonempty s d ds r :
  json.span_digits s = (d :: ds, r) → (String.length r < String.length s)%nat.
Proof.
  destruct s as [|c s]; simpl; [done|].
  destruct (json.is_digit c); [|done].
  destruct (json.span_digits s) as [ds' r'] eqn:Hs. intros [= _ _ <-].
  apply span_digits_length in Hs. lia.
Qed.

Ltac split_matches :=
  repeat match goal with
         | H : (_, _) = (_, _) |- _ => injection H as ? ?; subst
         | H : Some _ = Some _ |- _ => injection H as ?; subst
         | H : _ :: _ = [] |- _ => discriminate H
         | H : [] = _ :: _ |- _ => discriminate H
         | H : None = Some _ |- _ => discriminate H
         | H : context [let '(_, _) := ?x in _] |- _ => destruct x as [? ?] eqn:?
         | H : context [match ?x with _ => _ end] |- _ => destruct x eqn:?
         | H : context [if ?b then _ else _] |- _ => destruct b eqn:?
         end.

Ltac digits_lengths :=
  repeat match goal with
         | H : json.span_digits _ = (_ :: _, _) |- _ =>
           apply span_digits_nonempty in H
         | H : json.span_digits _ = ([], _) |- _ =>
           apply span_digits_length in H
         end.

Lemma match_number_length s v r :
  json.match_number s = Some (v, r) → (String.length r < String.length s)%nat.
Proof.
  unfold json.match_number.
  destruct (match s with
            | "" => (false, s)
            | String c r0 => if (c =? "-")%char then (true, r0) else (false, s)
            end) as [negative s1] eqn:H1.
  assert (String.length s1 ≤ String.length s)%nat
    by (split_matches; simpl; lia).
  clear H1.
  destruct (match s1 with
            | "" => ([], s1)
            | String c r0 =>
              if (c =? "0")%char then ([0], r0) else json.span_digits s1
            end) as [integer s2] eqn:H2.
  destruct integer as [|d ds]; [done|].
  assert (String.length s2 < String.length s1)%nat
    by (split_matches; digits_lengths; simpl in *; lia).
  clear H2.
  match goal with
  | |- context [let '(_, _) := ?x in _] => destruct x as [frac s3] eqn:H3
  end.
  assert (String.length s3 ≤ String.length s2)%nat
    by (split_matches; digits_lengths; simpl in *; lia).
  clear H3.
  match goal with
  | |- context [let '(_, _) := ?x in _] => destruct x as [exp s4] eqn:H4
  end.
  assert (String.length s4 ≤ String.length s3)%nat
    by (split_matches; digits_lengths; simpl in *; lia).
  clear H4.
  destruct frac, exp; intros [= <- <-]; lia.
Qed.

Lemma literal_length s v r :
  json.literal s = Some (v, r) → (String.length r < String.length s)%nat.
Proof.
  unfold json.literal. intros H.
  repeat match type of H with
         | context [match json.strip_prefix ?p s with _ => _ end] =>
           let E := fresh in
           destruct (json.strip_prefix p s) eqn:E;
           [apply strip_prefix_length in E; simpl in E;
            injection H as <- <-; lia|]
         | context [match json.match_number s with _ => _ end] =>
           let E := fresh in
           destruct (json.match_number s) as [[? ?]|] eqn:E;
           [apply match_number_length in E; injection H as <- <-; lia|]
         end.
  done.
Qed.

Ltac open_binds H :=
  repeat match type of H with
         | inl _ = inr _ => discriminate H
         | inr _ = inr _ =>
           first [injection H as ? ?|injection H as ?]; subst
         | context [match ?x with _ => _ end] =>
           let E := fresh "E" in destruct x eqn:E; simpl in H
         | context [if ?b then _ else _] =>
           let E := fresh "E" in destruct b eqn:E; simpl in H
         end.

Ltac skip_length x :=
  lazymatch goal with
  | _ : (String.length (json.skip_whitespace x) ≤ String.length x)%nat |- _ =>
    fail
  | _ => pose proof (skip_whitespace_length x)
  end.

Ltac skip_lengths :=
  repeat match goal with
         | H : context [json.skip_whitespace ?x] |- _ => skip_length x
         | |- context [json.skip_whitespace ?x] => skip_length x
         end;
  repeat match goal with
         | H : json.skip_whitespace ?x = _,
           L : (String.length (json.skip_whitespace ?x) ≤ _)%nat |- _ =>
           rewrite H in L; simpl in L; clear H
         | H : json.scanstring _ = Some _ |- _ => apply scanstring_length in H
         | H : json.literal _ = Some _ |- _ => apply literal_length in H
         end.

#[local] Arguments json.literal : simpl never.
#[local] Arguments json.scanstring : simpl never.
#[local] Arguments json.skip_whitespace : simpl never.
#[local] Arguments json.setitem : simpl never.

Lemma scan_progress f :
  (∀ depth s v r, json.scan_once f depth s = inr (v, r) →
                  (String.length r < String.length s)%nat) ∧
  (∀ depth pairs s v r, json.JSONObject f depth pairs s = inr (v, r) →
                        (String.length r < String.length s)%nat) ∧
  (∀ depth values s v r, json.JSONArray f depth values s = inr (v, r) →
                         (String.length r < String.length s)%nat).
Proof.
  induction f as [|f (IHs & IHo & IHa)]; [by repeat split|].
  repeat split.
  - intros depth s v r H. simpl in H. destruct s as [|c s]; [done|].
    open_binds H;
      repeat match goal with
             | H : json.JSONObject f _ _ _ = inr _ |- _ => apply IHo in H
             | H : json.JSONArray f _ _ _ = inr _ |- _ => apply IHa in H
             end; skip_lengths; simpl in *; lia.
  - intros depth pairs s v r H. simpl in H. destruct s as [|c s]; [done|].
    open_binds H;
      repeat match goal with
             | H : json.JSONObject f _ _ _ = inr _ |- _ => apply IHo in H
             | H : json.scan_once f _ _ = inr _ |- _ => apply IHs in H
             end; skip_lengths; simpl in *; lia.
  - intros depth values s v r H. simpl in H.
    open_binds H;
      repeat match goal with
             | H : json.JSONArray f _ _ _ = inr _ |- _ => apply IHa in H
             | H : json.scan_once f _ _ = inr _ |- _ => apply IHs in H
             end; skip_lengths; simpl in *; lia.
Qed.

Ltac solve_bound :=
  repeat match goal with
         | H : json.scan_once ?f _ _ = inr _ |- _ =>
           apply (proj1 (scan_progress f)) in H
         end;
  skip_lengths; simpl in *; lia.

Lemma scan_fuel f1 : ∀ f2,
  (∀ depth s,
      (2 * String.length s + 1 ≤ f1)%nat → (2 * String.length s + 1 ≤ f2)%nat →
      json.scan_once f1 depth s = json.scan_once f2 depth s) ∧
  (∀ depth pairs s,
      (2 * String.length s + 2 ≤ f1)%nat → (2 * String.length s + 2 ≤ f2)%nat →
      json.JSONObject f1 depth pairs s = json.JSONObject f2 depth pairs s) ∧
  (∀ depth values s,
      (2 * String.length s + 2 ≤ f1)%nat → (2 * String.length s + 2 ≤ f2)%nat →
      json.JSONArray f1 depth values s = json.JSONArray f2 depth values s).
Proof.
  induction f1 as [|f1 IH]; intros f2.
  { repeat split; intros; lia. }
  destruct f2 as [|f2]; [repeat split; intros; lia|].
  destruct (IH f2) as (IHs & IHo & IHa). clear IH.
  repeat split.
  - intros depth s H1 H2. simpl. destruct s as [|c s]; [done|].
    simpl in H1, H2.
    repeat first
      [ reflexivity
      | rewrite IHo by solve_bound
      | rewrite IHa by solve_bound
      | match goal with
        | |- context [match ?x with _ => _ end] => destruct x eqn:?
        | |- context [if ?b then _ else _] => destruct b eqn:?
        end ].
  - intros depth pairs s H1 H2. simpl. destruct s as [|c s]; [done|].
    simpl in H1, H2.
    repeat first
      [ reflexivity
      | rewrite IHs by solve_bound
      | rewrite IHo by solve_bound
      | match goal with
        | |- context [match ?x with _ => _ end] => destruct x eqn:?
        | |- context [if ?b then _ else _] => destruct b eqn:?
        end ].
  - intros depth values s H1 H2. simpl.
    rewrite IHs by lia.
    destruct (json.scan_once f2 depth s) as [e|[value r1]] eqn:Hs; simpl;
      [done|].
    repeat first
      [ reflexivity
      | rewrite IHa by solve_bound
      | match goal with
        | |- context [match ?x with _ => _ end] => destruct x eqn:?
        | |- context [if ?b then _ else _] => destruct b eqn:?
        end ].
Qed.

(** [loads] gives [scan_once] all the fuel it can use: more changes
    nothing, whatever the depth that is allowed. *)
Lemma loads_fuel s fuel depth :
  (2 * String.length s + 2 ≤ fuel)%nat →
  json.scan_once fuel depth (json.skip_whitespace s)
  = json.scan_once (2 * String.length s + 2) depth (json.skip_whitespace s).
Proof.
  intros H. pose proof (skip_whitespace_length s).
  apply scan_fuel; lia.
Qed.
